(** * Static source graph and resilient artifact extraction

    A shallow embedding of the analysis core of
    [integrated_test_generator.py] (class [IntegratedTestGenerator]):
    the flow document parser, the role classifier, the feature
    synthesizer, the artifact validator, the dependency graph builder and
    the cascade that recovers test files from a generated response.

    Python [str] values are modelled by [string]; a character is one of
    the 256 code points U+0000..U+00FF, classified as Python classifies
    them ([str.isspace], [str.lower], the [\w] class of [re]).

    A [print] is a step that raises when the standard output does not
    take the message.  Which messages it takes, which files can be
    opened, which contents a file takes and which paths lead to one file
    are parameters of the world: a statement under [stdout_ok] is about
    the runs in which every message is printed, the others hold for every
    standard output.  The activity log is not modelled. *)

From Stdlib Require Import ZArith NArith Ascii String List Bool Lia.
From Stdlib Require Import DecimalString.
From stdpp Require Import gmap strings list.

(** ** Python string operations *)

Module Str.

Definition nl : ascii := "010"%char.

Definition code (c : ascii) : N := N_of_ascii c.

Definition between (lo hi : N) (c : ascii) : bool :=
  ((lo <=? code c) && (code c <=? hi))%N.

(** [str.isspace] on one character; also the class [\s] of [re]. *)
Definition isspace (c : ascii) : bool :=
  between 9 13 c || between 28 32 c || (code c =? 133)%N || (code c =? 160)%N.

(** [str.isalnum] on one character. *)
Definition isalnum (c : ascii) : bool :=
  between 48 57 c || between 65 90 c || between 97 122 c
  || (code c =? 170)%N || between 178 179 c || (code c =? 181)%N
  || between 185 186 c || between 188 190 c
  || between 192 214 c || between 216 246 c || between 248 255 c.

(** The class [\w] of [re]. *)
Definition isword (c : ascii) : bool := isalnum c || Ascii.eqb c "_"%char.

Definition lower_chr (c : ascii) : ascii :=
  if between 65 90 c || between 192 214 c || between 216 222 c
  then ascii_of_N (code c + 32) else c.

(** [s.lower()] *)
Fixpoint lower (s : string) : string :=
  match s with
  | EmptyString => EmptyString
  | String c s' => String (lower_chr c) (lower s')
  end.

(** [s.lstrip()], [s.rstrip()] and [s.strip()] *)
Fixpoint lstrip (s : string) : string :=
  match s with
  | EmptyString => EmptyString
  | String c s' => if isspace c then lstrip s' else s
  end.

Fixpoint rstrip (s : string) : string :=
  match s with
  | EmptyString => EmptyString
  | String c s' =>
      match rstrip s' with
      | EmptyString => if isspace c then EmptyString else String c EmptyString
      | r => String c r
      end
  end.

Definition strip (s : string) : string := rstrip (lstrip s).

(** [s.startswith(p)] *)
Fixpoint startswith (s p : string) : bool :=
  match p, s with
  | EmptyString, _ => true
  | String a p', String b s' => Ascii.eqb a b && startswith s' p'
  | String _ _, EmptyString => false
  end.

(** [s.endswith(p)] *)
Fixpoint endswith (s p : string) : bool :=
  String.eqb s p
  || match s with
     | EmptyString => false
     | String _ s' => endswith s' p
     end.

(** [sub in s] *)
Fixpoint contains (sub s : string) : bool :=
  startswith s sub
  || match s with
     | EmptyString => false
     | String _ s' => contains sub s'
     end.

(** [s.find(sub)]: the lowest index where [sub] occurs, [-1] if none. *)
Fixpoint find_from (sub s : string) (i : Z) : Z :=
  if startswith s sub then i
  else match s with
       | EmptyString => (-1)%Z
       | String _ s' => find_from sub s' (i + 1)%Z
       end.

Definition find (s sub : string) : Z := find_from sub s 0%Z.

Fixpoint take (n : nat) (s : string) : string :=
  match n, s with
  | S k, String c s' => String c (take k s')
  | _, _ => EmptyString
  end.

(** [s[:i]], with Python's reading of a negative bound. *)
Definition slice_to (s : string) (i : Z) : string :=
  if (i <? 0)%Z then take (Z.to_nat (Z.of_nat (String.length s) + i)) s
  else take (Z.to_nat i) s.

(** [s.split(sep)] for a one-character separator. *)
Fixpoint split (sep : ascii) (s : string) : list string :=
  match s with
  | EmptyString => [EmptyString]
  | String c s' =>
      if Ascii.eqb c sep then EmptyString :: split sep s'
      else match split sep s' with
           | h :: t => String c h :: t
           | [] => [String c EmptyString]
           end
  end.

(** [s.count(c)] for a one-character pattern. *)
Fixpoint count (c : ascii) (s : string) : nat :=
  match s with
  | EmptyString => 0
  | String a s' => (if Ascii.eqb a c then 1 else 0) + count c s'
  end.

(** [s.replace(old, new)]: occurrences of [old] are replaced from left to
    right without overlap.  [skip] counts the characters of an occurrence
    that are still to be passed over. *)
Fixpoint replace_from (old new s : string) (skip : nat) : string :=
  match s with
  | EmptyString =>
      match old with EmptyString => new | _ => EmptyString end
  | String c s' =>
      match skip with
      | S k => replace_from old new s' k
      | O =>
          match old with
          | EmptyString => new +:+ String c (replace_from old new s' 0)
          | String _ old' =>
              if startswith s old
              then new +:+ replace_from old new s' (String.length old')
              else String c (replace_from old new s' 0)
          end
      end
  end.

Definition replace (s old new : string) : string := replace_from old new s 0.

(** [str(n)] for a natural number. *)
Definition of_nat (n : nat) : string := NilEmpty.string_of_uint (Nat.to_uint n).

(** [sep.join(l)] is not needed below; [concat] glues pieces together. *)
Definition concat (l : list string) : string :=
  fold_right String.append EmptyString l.

(** A run of [n] copies of one character. *)
Fixpoint rep (n : nat) (c : ascii) : string :=
  match n with
  | O => EmptyString
  | S k => String c (rep k c)
  end.

(** Every character of [s] satisfies [p]. *)
Fixpoint all (p : ascii -> bool) (s : string) : bool :=
  match s with
  | EmptyString => true
  | String c s' => p c && all p s'
  end.

Definition first_chr (s : string) : option ascii :=
  match s with
  | EmptyString => None
  | String c _ => Some c
  end.

Fixpoint last_chr (s : string) : option ascii :=
  match s with
  | EmptyString => None
  | String c EmptyString => Some c
  | String _ s' => last_chr s'
  end.

End Str.

Definition NL : string := String Str.nl EmptyString.

(** ** Flow document parser *)

Record Flow := mkFlow { name : string; content : string; filename : string }.

(** [_generate_flow_filename] *)
Definition _generate_flow_filename (flow_name : string) : string :=
  let filename := Str.lower flow_name in
  let filename := Str.replace filename " " "_" in
  let filename := Str.replace filename ":" "" in
  let filename := Str.replace filename "-" "_" in
  let filename := Str.replace filename "__" "_" in
  filename +:+ ".spec.ts".

(** One turn of the loop of [_parse_user_flows]: the state is the list
    [flows] and the flow under construction, [current_flow]. *)
Definition flow_step (st : list Flow * option Flow) (line : string)
  : list Flow * option Flow :=
  let '(flows, current_flow) := st in
  let line := Str.strip line in
  if Str.startswith line "## Flow:" then
    let flows := match current_flow with
                 | Some f => flows ++ [f]
                 | None => flows
                 end in
    let flow_name := Str.strip (Str.replace line "## Flow:" "") in
    (flows, Some {| name := flow_name;
                    content := line +:+ NL;
                    filename := _generate_flow_filename flow_name |})
  else
    match current_flow with
    | Some f =>
        (flows, Some {| name := name f;
                        content := content f +:+ line +:+ NL;
                        filename := filename f |})
    | None => (flows, None)
    end.

(** [_parse_user_flows] *)
Definition _parse_user_flows (user_flows_content : string) : list Flow :=
  let lines := Str.split Str.nl user_flows_content in
  let '(flows, current_flow) := fold_left flow_step lines ([], None) in
  match current_flow with
  | Some f => flows ++ [f]
  | None => flows
  end.

(** A line opens a flow when, once stripped, it starts with the marker. *)
Definition is_heading (line : string) : bool :=
  Str.startswith (Str.strip line) "## Flow:".

(** The test the parser does not make: the marker at the very start of the
    line as it stands in the document. *)
Definition starts_with_marker (line : string) : bool :=
  Str.startswith line "## Flow:".

(** What a run of document lines contributes to a flow's [content]. *)
Definition render (ls : list string) : string :=
  Str.concat (map (fun l => Str.strip l +:+ NL) ls).

(** The flow record built from a heading line and the lines under it. *)
Definition flow_of_block (b : string * list string) : Flow :=
  let flow_name := Str.strip (Str.replace (Str.strip (fst b)) "## Flow:" "") in
  {| name := flow_name;
     content := render (fst b :: snd b);
     filename := _generate_flow_filename flow_name |}.

(** The lines of a document, grouped: the lines before the first heading,
    then each heading with the lines that follow it. *)
Fixpoint group (ls : list string) : list string * list (string * list string) :=
  match ls with
  | [] => ([], [])
  | l :: ls' =>
      let '(body, bs) := group ls' in
      if is_heading l then ([], (l, body) :: bs) else (l :: body, bs)
  end.

Definition flatten (bs : list (string * list string)) : list string :=
  List.concat (map (fun b => fst b :: snd b) bs).

Definition extend (f : Flow) (body : list string) : Flow :=
  {| name := name f; content := content f +:+ render body; filename := filename f |}.

Definition finish (st : list Flow * option Flow) : list Flow :=
  match snd st with
  | Some f => fst st ++ [f]
  | None => fst st
  end.

(** [s] is [line] with its leading and trailing whitespace removed. *)
Definition is_stripped_form (line s : string) : Prop :=
  (exists a b, line = a +:+ s +:+ b
               /\ Str.all Str.isspace a = true /\ Str.all Str.isspace b = true)
  /\ (forall c, Str.first_chr s = Some c -> Str.isspace c = false)
  /\ (forall c, Str.last_chr s = Some c -> Str.isspace c = false).

(** The lines of a block as they stand in the document, one per line. *)
Definition verbatim (ls : list string) : string :=
  Str.concat (map (fun l => l +:+ NL) ls).

(** ** Role classifier *)

Inductive Role := Route | API | Component | Form | Other.

(** [_classify_file_role]; [content] and [imports] are received and not
    consulted. *)
Definition _classify_file_role
    (filename content : string) (imports : list string) : Role :=
  let filename_lower := Str.lower filename in
  if Str.contains "route" filename_lower || Str.contains "router" filename_lower
  then Route
  else if Str.contains "api" filename_lower || Str.contains "service" filename_lower
  then API
  else if existsb (fun ext => Str.contains ext filename_lower) [".tsx"; ".jsx"; ".vue"]
  then Component
  else if Str.contains "form" filename_lower || Str.contains "input" filename_lower
  then Form
  else Other.

(** ** Feature synthesizer *)

(** The two entries of the [analysis] dictionary that [_extract_features]
    reads. *)
Record Analysis := mkAnalysis { routes : list string; pages : list string }.

(** [any(p(route, page) for route in routes for page in pages)] *)
Definition any_route_page (p : string -> string -> bool) (analysis : Analysis) : bool :=
  existsb (fun route => existsb (fun page => p route page) (pages analysis))
          (routes analysis).

(** [any(p(route) for route in routes)] *)
Definition any_route (p : string -> bool) (analysis : Analysis) : bool :=
  existsb p (routes analysis).

Definition has (kw s : string) : bool := Str.contains kw (Str.lower s).

Definition features_when (b : bool) (feature : string) : list string :=
  if b then [feature] else [].

(** [_extract_features]: each test appends its tag to [features]. *)
Definition _extract_features (analysis : Analysis) : list string :=
  features_when
    (any_route_page (fun route page => has "dashboard" route || has "dashboard" page) analysis)
    "Dashboard Management"
  ++ features_when
    (any_route_page (fun route page => has "create" route || has "create" page) analysis)
    "Create Operations"
  ++ features_when
    (any_route_page (fun route page => has "edit" route || has "edit" page) analysis)
    "Edit Operations"
  ++ features_when
    (any_route_page (fun route page => has "delete" route || has "delete" page) analysis)
    "Delete Operations"
  ++ features_when
    (any_route_page (fun route page => has "project" route || has "project" page) analysis)
    "Project Management"
  ++ features_when
    (any_route (fun route => has "user" route || has "profile" route) analysis)
    "User Management"
  ++ features_when
    (any_route_page (fun route page => has "content" route || has "content" page) analysis)
    "Content Management"
  ++ features_when
    (any_route (fun route => has "file" route || has "upload" route || has "download" route) analysis)
    "File Management"
  ++ features_when
    (any_route (fun route => has "search" route || has "filter" route) analysis)
    "Search and Filtering"
  ++ features_when
    (any_route (fun route => has "setting" route || has "config" route) analysis)
    "Settings and Configuration"
  ++ features_when
    (any_route (fun route => has "cart" route || has "checkout" route || has "order" route) analysis)
    "E-commerce"
  ++ features_when
    (any_route (fun route => has "blog" route || has "post" route || has "article" route) analysis)
    "Blog/Content Publishing"
  ++ features_when
    (any_route (fun route => has "analytics" route || has "report" route || has "stats" route) analysis)
    "Analytics and Reporting"
  ++ features_when
    (any_route (fun route => has "message" route || has "chat" route || has "notification" route) analysis)
    "Communication"
  ++ features_when
    (any_route (fun route => has "calendar" route || has "schedule" route || has "event" route) analysis)
    "Calendar/Scheduling".

(** ** Artifact validator *)

Definition is_empty (s : string) : bool :=
  match s with EmptyString => true | _ => false end.

(** [_is_valid_test_content] *)
Definition _is_valid_test_content (content : string) : bool :=
  if is_empty content || (String.length (Str.strip content) <? 100)
  then false
  else
    let has_imports := Str.contains "import { test, expect }" content in
    let has_tests := Str.contains "test(" content || Str.contains "test.describe" content in
    let has_closing := Str.count "{" content =? Str.count "}" content in
    has_imports && has_tests && has_closing.

(** The four conditions of the validator, with the length taken as it
    stands and compared with a threshold [T]. *)
Definition four_conditions (T : nat) (content : string) : Prop :=
  T < String.length content
  /\ Str.contains "import { test, expect }" content = true
  /\ (Str.contains "test(" content = true \/ Str.contains "test.describe" content = true)
  /\ Str.count "{" content = Str.count "}" content.

(** A test file the validator accepts. *)
Definition sample_test : string :=
  "import { test, expect } from '@playwright/test';" +:+ NL
  +:+ "test('home page loads', async ({ page }) => {" +:+ NL
  +:+ "  await page.goto('/');" +:+ NL
  +:+ "  await expect(page).toHaveTitle(/Home/);" +:+ NL
  +:+ "});".

(** ** Regular expressions

    The patterns of the program use literals, character classes, greedy
    and lazy repetition of a class, alternation, capturing groups, one
    lookahead and [$].  [exec] is the backtracking matcher of [re] for
    them: alternatives are tried from the left, a greedy repetition tries
    the longest run first and a lazy one the shortest, and the first way
    through the whole pattern is the match. *)

Module Re.

Inductive re :=
| Lit (l : string)              (** literal text *)
| Class (p : ascii -> bool)     (** one character of a class *)
| Star (p : ascii -> bool)      (** [p*], greedy *)
| Plus (p : ascii -> bool)      (** [p+], greedy *)
| Lazy (p : ascii -> bool)      (** [p*?] *)
| Seq (r1 r2 : re)
| Alt (r1 r2 : re)
| Group (i : nat) (r : re)      (** the [i]-th capturing group *)
| Ahead (r : re)                (** [(?=r)] *)
| Eos.                          (** [$], without [MULTILINE] *)

(** Character classes. *)
Definition space : ascii -> bool := Str.isspace.                 (* \s *)
Definition nonspace (c : ascii) : bool := negb (Str.isspace c).  (* \S *)
Definition word : ascii -> bool := Str.isword.                   (* \w *)
Definition any (c : ascii) : bool := true.                       (* . with DOTALL *)
Definition dot (c : ascii) : bool := negb (Ascii.eqb c Str.nl).  (* . *)
Definition quote (c : ascii) : bool :=            (* a single or double quote *)
  Ascii.eqb c "039"%char || Ascii.eqb c "034"%char.
Definition nonquote (c : ascii) : bool := negb (quote c).        (* any other *)

(** The text of the groups, by number; empty for a group not set. *)
Definition groups := nat -> string.
Definition no_groups : groups := fun _ => EmptyString.
Definition set_group (i : nat) (v : string) (g : groups) : groups :=
  fun j => if Nat.eqb j i then v else g j.

(** A match: the groups and the text left after it. *)
Definition found : Type := groups * string.

Fixpoint strip_prefix (l s : string) : option string :=
  match l, s with
  | EmptyString, _ => Some s
  | String a l', String b s' => if Ascii.eqb a b then strip_prefix l' s' else None
  | String _ _, EmptyString => None
  end.

(** What was read between [s] and its suffix [s']. *)
Definition consumed (s s' : string) : string :=
  Str.take (String.length s - String.length s') s.

Fixpoint greedy_star (p : ascii -> bool) (s : string) (k : string -> option found)
  : option found :=
  match s with
  | String c s' =>
      if p c then
        match greedy_star p s' k with
        | Some m => Some m
        | None => k s
        end
      else k s
  | EmptyString => k s
  end.

Fixpoint lazy_star (p : ascii -> bool) (s : string) (k : string -> option found)
  : option found :=
  match k s with
  | Some m => Some m
  | None =>
      match s with
      | String c s' => if p c then lazy_star p s' k else None
      | EmptyString => None
      end
  end.

(** [$] matches at the end of the text and before a final newline. *)
Definition at_end (s : string) : bool :=
  match s with
  | EmptyString => true
  | String c EmptyString => Ascii.eqb c Str.nl
  | _ => false
  end.

Fixpoint exec (r : re) (s : string) (g : groups)
    (k : string -> groups -> option found) : option found :=
  match r with
  | Lit l =>
      match strip_prefix l s with
      | Some s' => k s' g
      | None => None
      end
  | Class p =>
      match s with
      | String c s' => if p c then k s' g else None
      | EmptyString => None
      end
  | Star p => greedy_star p s (fun s' => k s' g)
  | Plus p =>
      match s with
      | String c s' => if p c then greedy_star p s' (fun s'' => k s'' g) else None
      | EmptyString => None
      end
  | Lazy p => lazy_star p s (fun s' => k s' g)
  | Seq r1 r2 => exec r1 s g (fun s' g' => exec r2 s' g' k)
  | Alt r1 r2 =>
      match exec r1 s g k with
      | Some m => Some m
      | None => exec r2 s g k
      end
  | Group i r => exec r s g (fun s' g' => k s' (set_group i (consumed s s') g'))
  | Ahead r =>
      match exec r s g (fun s' g' => Some (g', s')) with
      | Some (g', _) => k s g'
      | None => None
      end
  | Eos => if at_end s then k s g else None
  end.

(** A match of [r] that starts at the head of [s]. *)
Definition match_here (r : re) (s : string) : option found :=
  exec r s no_groups (fun s' g => Some (g, s')).

(** [re.search]: the leftmost match. *)
Fixpoint search (r : re) (s : string) : option found :=
  match match_here r s with
  | Some m => Some m
  | None =>
      match s with
      | String _ s' => search r s'
      | EmptyString => None
      end
  end.

(** The matches of [re.findall], from left to right without overlap.
    [skip] counts the characters of the last match still to be passed
    over; the scan resumes where that match ended.  (No pattern of the
    program matches the empty string.) *)
Fixpoint scan (r : re) (s : string) (skip : nat) : list groups :=
  match skip with
  | S n =>
      match s with
      | String _ s' => scan r s' n
      | EmptyString => []
      end
  | O =>
      match match_here r s with
      | Some (g, rest) =>
          g :: match s with
               | String _ s' =>
                   scan r s' (String.length s - String.length rest - 1)
               | EmptyString => []
               end
      | None =>
          match s with
          | String _ s' => scan r s' 0
          | EmptyString => []
          end
      end
  end.

(** [re.findall] for a pattern with one group, and with two. *)
Definition findall1 (r : re) (s : string) : list string :=
  map (fun g : groups => g 1) (scan r s 0).

Definition findall2 (r : re) (s : string) : list (string * string) :=
  map (fun g : groups => (g 1, g 2)) (scan r s 0).

Fixpoint seq (rs : list re) : re :=
  match rs with
  | [] => Lit EmptyString
  | [r] => r
  | r :: rs' => Seq r (seq rs')
  end.

End Re.

(** ** The world of a run *)

Inductive exn := TypeError | OSError | UnicodeEncodeError.

(** A value that a message is formatted with: a text, a number, a truth
    value, a list of texts, an exception, the dictionary of the roles,
    the dictionary of the routes. *)
Inductive value :=
| VStr (s : string)
| VInt (n : Z)
| VBool (b : bool)
| VList (l : list string)
| VExn (e : exn)
| VRoles (m : gmap string Role)
| VRoutes (m : gmap string (list string)).

(** The module variable [TEST_OUTPUT_DIR] ([None] until a run sets up its
    directories) and the operating system as the generator meets it:
    - [disk]: the text files, each under the one name that [realpath]
      gives to every path that leads to it;
    - [denied]: the names at which the system refuses to create a
      directory or to open a file for writing;
    - [write_error]: the exception that ends the writing of a content
      to a file that is open, if any (a character that the encoding
      does not hold, a full disk);
    - [stdout_refuses]: the messages that the standard output does not
      take (a character that its encoding does not hold), by the format
      of the message and the values it is formatted with. *)
Record World := mkWorld {
  TEST_OUTPUT_DIR : option string;
  disk : gmap string string;
  denied : string -> bool;
  realpath : string -> string;
  write_error : string -> string -> option exn;
  stdout_refuses : string -> list value -> bool
}.

Inductive outcome (A : Type) :=
| Returns (a : A) (w : World)
| Raises (e : exn) (w : World).
Arguments Returns {A} a w.
Arguments Raises {A} e w.

(** Computations that read and write the world and may raise. *)
Definition M (A : Type) : Type := World -> outcome A.

Definition ret {A} (a : A) : M A := fun w => Returns a w.

Definition bind {A B} (m : M A) (f : A -> M B) : M B :=
  fun w =>
    match m w with
    | Returns a w' => f a w'
    | Raises e w' => Raises e w'
    end.

Definition raise {A} (e : exn) : M A := fun w => Raises e w.

(** [try: m  except Exception: h] *)
Definition try_except {A} (m : M A) (h : exn -> M A) : M A :=
  fun w =>
    match m w with
    | Returns a w' => Returns a w'
    | Raises e w' => h e w'
    end.

Notation "'let*' x ':=' m 'in' k" := (bind m (fun x => k))
  (at level 10, x name, m at level 100, k at level 200).
Notation "'do' m 'then' k" := (bind m (fun _ => k))
  (at level 10, m at level 100, k at level 200).

(** [os.path.join(a, b)] on POSIX paths; a [None] argument is a
    [TypeError]. *)
Definition os_path_join (a : option string) (b : string) : M string :=
  match a with
  | None => raise TypeError
  | Some a =>
      ret (if Str.startswith b "/" then b
           else if is_empty a || Str.endswith a "/" then a +:+ b
           else a +:+ "/" +:+ b)
  end.

(** [os.makedirs(p, exist_ok=True)] *)
Definition os_makedirs (p : option string) : M unit :=
  match p with
  | None => raise TypeError
  | Some d => fun w => if denied w d then Raises OSError w else Returns tt w
  end.

Definition with_disk (w : World) (d : gmap string string) : World :=
  {| TEST_OUTPUT_DIR := TEST_OUTPUT_DIR w; disk := d; denied := denied w;
     realpath := realpath w; write_error := write_error w;
     stdout_refuses := stdout_refuses w |}.

(** [print(f"...")]: the text of the message as the source has it, with
    [{}] at the place of each value, and the values.  A message that the
    standard output does not take raises the [UnicodeEncodeError] of the
    character that could not be encoded. *)
Definition print (format : string) (args : list value) : M unit :=
  fun w =>
    if stdout_refuses w format args then Raises UnicodeEncodeError w
    else Returns tt w.

(** A disk on which a file that is open takes every content. *)
Definition writes_kept (w : World) : Prop :=
  forall file content, write_error w file content = None.

(** A standard output that takes every message. *)
Definition stdout_ok (w : World) : Prop :=
  forall format args, stdout_refuses w format args = false.

(** The content that a path leads to. *)
Definition file_content (w : World) (path : string) : option string :=
  disk w !! realpath w path.

(** What a write leaves as it is: everything but the files. *)
Definition same_system (w w' : World) : Prop :=
  TEST_OUTPUT_DIR w' = TEST_OUTPUT_DIR w
  /\ denied w' = denied w
  /\ realpath w' = realpath w
  /\ write_error w' = write_error w
  /\ stdout_refuses w' = stdout_refuses w.

(** [with open(path, 'w') as f: f.write(content)]: opening the file
    empties it, and the content is there when the writing succeeds. *)
Definition write_file (path content : string) : M unit :=
  fun w =>
    let file := realpath w path in
    if denied w file then Raises OSError w
    else
      match write_error w file content with
      | Some e => Raises e (with_disk w (<[file := EmptyString]> (disk w)))
      | None => Returns tt (with_disk w (<[file := content]> (disk w)))
      end.

(** [with open(path, 'r') as f: content = f.read()] *)
Definition read_file (path : string) : M string :=
  fun w =>
    match file_content w path with
    | Some content => Returns content w
    | None => Raises OSError w
    end.

Definition get_TEST_OUTPUT_DIR : M (option string) :=
  fun w => Returns (TEST_OUTPUT_DIR w) w.

(** ** Resilient artifact extractor *)

(** [str(TEST_OUTPUT_DIR)] *)
Definition str_of_dir (dir : option string) : string :=
  match dir with
  | Some d => d
  | None => "None"
  end.

(** [_save_file]: the three messages of a save are printed under the
    [try], after the file is written; the message of a failure is printed
    by the handler. *)
Definition _save_file (filename content : string) : M bool :=
  try_except
    (let* dir := get_TEST_OUTPUT_DIR in
     let* file_path := os_path_join dir filename in
     do write_file file_path content then
     do print "ℹ️ Saving file: {} ({} characters)"
              [VStr filename; VInt (Z.of_nat (String.length content))] then
     do print "📊 File Content - {}: {}..."
              [VStr filename; VStr (Str.take 100 content)] then
     do print "✅ Generated: {}/{}" [VStr (str_of_dir dir); VStr filename] then
     ret true)
    (fun e =>
       do print "❌ Error saving {}: {}" [VStr filename; VExn e] then
       ret false).

(** The messages of the strategies for a file that was saved. *)
Definition found_marker : string := "✅ Found test file marker: {}".
Definition mapped_content : string := "✅ Mapped content to: {}".

(** The loop every strategy runs over its matches:
    [content = content.strip()], then, for a content that is not empty,
    [_save_file]; when the file was saved the filename joins
    [files_saved] and the message of the strategy is printed. *)
Fixpoint save_matches (message : string) (matches : list (string * string))
  : M (list string) :=
  match matches with
  | [] => ret []
  | (filename, content) :: rest =>
      let content := Str.strip content in
      let* saved := (if is_empty content then ret false
                     else _save_file filename content) in
      do (if saved then print message [VStr filename] else ret tt) then
      let* files_saved := save_matches message rest in
      ret (if saved then filename :: files_saved else files_saved)
  end.

Module Pattern.
Import Re.

Definition spec_ts : re := Lit ".spec.ts".
Definition newline : re := Lit NL.
Definition fence : re := Lit "```".

(** [FILENAME:\s*(\S+\.spec\.ts)\s*\n(.*?)(?=FILENAME:|$)], [DOTALL] *)
Definition filename_format : re :=
  seq [Lit "FILENAME:"; Star space;
       Group 1 (Seq (Plus nonspace) spec_ts);
       Star space; newline;
       Group 2 (Lazy any);
       Ahead (Alt (Lit "FILENAME:") Eos)].

(** [####\s*(\S+\.spec\.ts)\s*\n```typescript\s*\n(.*?)\n```], [DOTALL] *)
Definition hash_format : re :=
  seq [Lit "####"; Star space;
       Group 1 (Seq (Plus nonspace) spec_ts);
       Star space; newline;
       Lit "```typescript"; Star space; newline;
       Group 2 (Lazy any);
       newline; fence].

(** [(\w+\.spec\.ts):\s*\n```typescript\s*\n(.*?)\n```], [DOTALL] *)
Definition markdown_named : re :=
  seq [Group 1 (Seq (Plus word) spec_ts);
       Lit ":"; Star space; newline;
       Lit "```typescript"; Star space; newline;
       Group 2 (Lazy any);
       newline; fence].

(** [```(?:typescript|javascript|ts|js)\s*\n(.*?)\n```], [DOTALL] *)
Definition markdown_block : re :=
  seq [fence;
       Alt (Lit "typescript") (Alt (Lit "javascript") (Alt (Lit "ts") (Lit "js")));
       Star space; newline;
       Group 1 (Lazy any);
       newline; fence].

(** [(\w+\.spec\.ts)] *)
Definition spec_name : re := Group 1 (Seq (Plus word) spec_ts).

(** A quoted text, the text being the group: a quote of either kind,
    one or more characters that are not quotes, a quote of either
    kind. *)
Definition quoted : list re :=
  [Class quote; Group 1 (Plus nonquote); Class quote].

(** The four patterns of [_extract_imports], in their order:
    [import], blanks, anything on the line (lazy), blanks, [from],
    blanks, a quoted text;
    [import], blanks, a quoted text;
    [require(], a quoted text, [)];
    [from], blanks, a quoted text. *)
Definition import_patterns : list re :=
  [ seq ([Lit "import"; Plus space; Lazy dot; Plus space;
          Lit "from"; Plus space] ++ quoted);
    seq ([Lit "import"; Plus space] ++ quoted);
    seq ([Lit "require("] ++ quoted ++ [Lit ")"]);
    seq ([Lit "from"; Plus space] ++ quoted) ].

(** The five patterns of [_extract_routes], in their order:
    [path=], [to=] and [href=] before a quoted text; [Route], anything
    on the line (greedy), [path=] and a quoted text; [navigate(], a
    quoted text, [)]. *)
Definition route_patterns : list re :=
  [ seq ([Lit "path="] ++ quoted);
    seq ([Lit "to="] ++ quoted);
    seq ([Lit "href="] ++ quoted);
    seq ([Lit "Route"; Star dot; Lit "path="] ++ quoted);
    seq ([Lit "navigate("] ++ quoted ++ [Lit ")"]) ].

End Pattern.

(** [enumerate(l)] *)
Fixpoint enumerate_from {A} (i : nat) (l : list A) : list (nat * A) :=
  match l with
  | [] => []
  | x :: l' => (i, x) :: enumerate_from (S i) l'
  end.

Definition enumerate {A} (l : list A) : list (nat * A) := enumerate_from 0 l.

(** [l[-n:]], for [n] positive *)
Definition last_n {A} (n : nat) (l : list A) : list A :=
  skipn (length l - n) l.

(** [f"test_{i+1}.spec.ts"] *)
Definition generic_name (i : nat) : string :=
  "test_" +:+ Str.of_nat (i + 1) +:+ ".spec.ts".

(** [_parse_filename_format] *)
Definition _parse_filename_format (response_text : string) : M (list string) :=
  let matches := Re.findall2 Pattern.filename_format response_text in
  save_matches found_marker matches.

(** [_parse_hash_format] *)
Definition _parse_hash_format (response_text : string) : M (list string) :=
  let hash_matches := Re.findall2 Pattern.hash_format response_text in
  save_matches found_marker hash_matches.

(** The search for a filename in the lines before a block, nearest line
    first: the first line that holds [.spec.ts] and a match of the
    pattern gives the name. *)
Fixpoint filename_in_lines (lines : list string) : option string :=
  match lines with
  | [] => None
  | line :: rest =>
      if Str.contains ".spec.ts" line then
        match Re.search Pattern.spec_name line with
        | Some (g, _) => Some (g 1)
        | None => filename_in_lines rest
        end
      else filename_in_lines rest
  end.

(** The filename the second strategy of [_parse_markdown_format] gives to
    the block of index [i]. *)
Definition filename_from_context
    (response_text : string) (i : nat) (block_content : string) : string :=
  let lines_before :=
    Str.split Str.nl
      (Str.slice_to response_text (Str.find response_text block_content)) in
  match filename_in_lines (rev (last_n 10 lines_before)) with
  | Some filename => if is_empty filename then generic_name i else filename
  | None => generic_name i
  end.

Definition markdown_named_matches (response_text : string) : list (string * string) :=
  Re.findall2 Pattern.markdown_named response_text.

Definition bare_block_matches (response_text : string) : list (string * string) :=
  let markdown_blocks := Re.findall1 Pattern.markdown_block response_text in
  map (fun '(i, block_content) =>
         (filename_from_context response_text i block_content, block_content))
      (enumerate markdown_blocks).

(** [_parse_markdown_format]: the second strategy runs when the first one
    has saved nothing ([if not files_saved], on the list of this
    function). *)
Definition _parse_markdown_format (response_text : string) : M (list string) :=
  let* files_saved :=
    save_matches found_marker (markdown_named_matches response_text) in
  match files_saved with
  | [] =>
      let* more := save_matches found_marker (bare_block_matches response_text) in
      ret (files_saved ++ more)
  | _ :: _ => ret files_saved
  end.

Definition expected_files : list (string * list string) :=
  [ ("visual.spec.ts",
     ["visual"; "responsive"; "viewport"; "theme"; "dark"; "light"; "mobile"; "desktop"]);
    ("flow.spec.ts",
     ["flow"; "login"; "navigation"; "user"; "authentication"; "wizard"; "form"]);
    ("component.spec.ts",
     ["component"; "interactive"; "button"; "modal"; "dropdown"; "form"; "input"]);
    ("accessibility.spec.ts",
     ["accessibility"; "aria"; "keyboard"; "focus"; "screen reader"; "tab"]) ].

(** The scan of [expected_files] for one block: a strictly higher score
    replaces the best match so far. *)
Definition best_match_step (content_lower : string)
    (best : option string * nat) (entry : string * list string)
  : option string * nat :=
  let '(best_match, best_score) := best in
  let '(filename, indicators) := entry in
  let score :=
    length (List.filter (fun indicator => Str.contains indicator content_lower)
                        indicators) in
  if best_score <? score then (Some filename, score) else (best_match, best_score).

Definition mapped_filename (i : nat) (block_content : string) : string :=
  let content_lower := Str.lower block_content in
  match fst (fold_left (best_match_step content_lower) expected_files (None, 0)) with
  | Some best_match => if is_empty best_match then generic_name i else best_match
  | None => generic_name i
  end.

Definition content_mapping_matches (response_text : string) : list (string * string) :=
  let markdown_blocks := Re.findall1 Pattern.markdown_block response_text in
  map (fun '(i, block_content) => (mapped_filename i block_content, block_content))
      (enumerate markdown_blocks).

(** [_parse_by_content_mapping] *)
Definition _parse_by_content_mapping (response_text : string) : M (list string) :=
  save_matches mapped_content (content_mapping_matches response_text).

(** [list(dict.fromkeys(l))]: the keys of a dictionary in the order of
    their first insertion. *)
Definition fromkeys_step (keys : list string) (x : string) : list string :=
  if bool_decide (x ∈ keys) then keys else keys ++ [x].

Definition dict_fromkeys (l : list string) : list string :=
  fold_left fromkeys_step l [].

(** [str.splitlines]: a line ends at a line feed, a carriage return
    (with the line feed that follows it, if any), a vertical tab, a form
    feed, a separator U+001C to U+001E or a next line U+0085; the text
    after the last of them is a line when it is not empty. *)
Definition is_linebreak (c : ascii) : bool :=
  Str.between 10 13 c || Str.between 28 30 c || (Str.code c =? 133)%N.

Fixpoint splitlines (s : string) : list string :=
  match s with
  | EmptyString => []
  | String c s' =>
      if is_linebreak c then
        EmptyString ::
          match s' with
          | String c' s'' =>
              if (Str.code c =? 13)%N && (Str.code c' =? 10)%N
              then splitlines s'' else splitlines s'
          | EmptyString => []
          end
      else
        match splitlines s' with
        | [] => [String c EmptyString]
        | line :: lines => String c line :: lines
        end
  end.

(** The messages that close [_parse_test_files] when no file was saved. *)
Definition report_nothing_saved (response_text : string) : M unit :=
  do print "❌ No test files were generated!" [] then
  do print "⚠️ Response might not contain properly formatted test files" [] then
  print ("📊 Response analysis: {{'total_lines': {}, 'contains_spec': {}, "
         +:+ "'contains_comments': {}, 'contains_backticks': {}, "
         +:+ "'response_preview': '{}'}}")
        [VInt (Z.of_nat (length (splitlines response_text)));
         VBool (Str.contains ".spec.ts" response_text);
         VBool (Str.contains "//" response_text);
         VBool (Str.contains "```" response_text);
         VStr (Str.take 1000 response_text)].

(** [_parse_test_files] *)
Definition _parse_test_files (response_text : string) : M (list string) :=
  do print "🔄 Parsing and saving test files from Ollama response" [] then
  do print "📊 Raw test response: {}..." [VStr (Str.take 500 response_text)] then
  let* dir := get_TEST_OUTPUT_DIR in
  do os_makedirs dir then
  do print "ℹ️ Processing {} lines of response"
           [VInt (Z.of_nat (length (splitlines response_text)))] then
  let* by_filename := _parse_filename_format response_text in
  let* by_hash := _parse_hash_format response_text in
  let* by_markdown := _parse_markdown_format response_text in
  let files_saved := by_filename ++ by_hash ++ by_markdown in
  let* files_saved :=
    (if length files_saved <? 4 then
       let* by_content := _parse_by_content_mapping response_text in
       ret (files_saved ++ by_content)
     else ret files_saved) in
  let files_saved := dict_fromkeys files_saved in
  do print "✅ Test file parsing complete: {} files saved"
           [VInt (Z.of_nat (length files_saved))] then
  do print "📊 Files saved: {}" [VList files_saved] then
  do (match files_saved with
      | [] => report_nothing_saved response_text
      | _ :: _ => ret tt
      end) then
  ret files_saved.

(** A world ready for a run: the output directory is set and can be
    created. *)
Definition run_ready (w : World) : Prop :=
  exists d, TEST_OUTPUT_DIR w = Some d /\ denied w d = false.

(** A system that refuses nothing, in which every path is the name of
    its file, with the given output directory and files. *)
Definition plain_system (dir : option string) (files : gmap string string) : World :=
  {| TEST_OUTPUT_DIR := dir;
     disk := files;
     denied := fun _ => false;
     realpath := fun path => path;
     write_error := fun _ _ => None;
     stdout_refuses := fun _ _ => false |}.

(** A fresh run directory on a disk that refuses nothing. *)
Definition fresh_world : World :=
  plain_system (Some "run_files/run_1/tests") ∅.

(** A generator that was only imported: no directory has been set. *)
Definition unset_world : World := plain_system None ∅.

(** The texts that a value holds. *)
Definition texts_of (v : value) : list string :=
  match v with
  | VStr s => [s]
  | VList l => l
  | VRoles m => map fst (map_to_list m)
  | VRoutes m => List.concat (map (fun kv => fst kv :: snd kv) (map_to_list m))
  | VInt _ | VBool _ | VExn _ => []
  end.

(** A run on a console whose encoding holds the characters up to U+007F
    only: it takes a message when neither its format nor its values hold
    another character. *)
Definition is_ascii (c : ascii) : bool := (Str.code c <? 128)%N.

Definition ascii_console : World :=
  {| TEST_OUTPUT_DIR := Some "run_files/run_1/tests";
     disk := ∅;
     denied := fun _ => false;
     realpath := fun path => path;
     write_error := fun _ _ => None;
     stdout_refuses := fun format args =>
       negb (forallb (Str.all is_ascii) (format :: List.concat (map texts_of args))) |}.

(** The file of an artifact in the world: the name of the file that the
    joined path leads to. *)
Definition artifact_path (w : World) (filename : string) : option string :=
  match os_path_join (TEST_OUTPUT_DIR w) filename w with
  | Returns p _ => Some (realpath w p)
  | Raises _ _ => None
  end.

(** The content on disk for a saved filename. *)
Definition artifact (w : World) (filename : string) : option string :=
  match artifact_path w filename with
  | Some p => disk w !! p
  | None => None
  end.

(** *** The saves of a cascade, as a list

    A match opens its file when its stripped content is not empty and the
    file can be opened for writing; it is saved when, moreover, the
    content is written without error. *)
Definition opens (w : World) (e : string * string) : bool :=
  negb (is_empty (Str.strip (snd e)))
  && match artifact_path w (fst e) with
     | Some p => negb (denied w p)
     | None => false
     end.

Definition accepts (w : World) (e : string * string) : bool :=
  opens w e
  && match artifact_path w (fst e) with
     | Some p => bool_decide (write_error w p (Str.strip (snd e)) = None)
     | None => false
     end.

Definition opened_from (w : World) (matches : list (string * string))
  : list (string * string) :=
  List.filter (opens w) matches.

Definition saved_from (w : World) (matches : list (string * string))
  : list (string * string) :=
  List.filter (accepts w) matches.

(** What a match that opens its file leaves in it: its stripped content,
    or nothing when the writing fails. *)
Definition stored (w : World) (e : string * string) : string :=
  if accepts w e then Str.strip (snd e) else EmptyString.

(** The effect on the disk of one match that opens its file, and of a
    list of them in order. *)
Definition write_entry (w : World) (e : string * string) : World :=
  match artifact_path w (fst e) with
  | Some p => with_disk w (<[p := stored w e]> (disk w))
  | None => w
  end.

Definition write_all (es : list (string * string)) (w : World) : World :=
  fold_left write_entry es w.

(** The matches that the two strategies of [_parse_markdown_format] go
    through, and those of them that are saved. *)
Definition markdown_matches (response_text : string) (w : World)
  : list (string * string) :=
  markdown_named_matches response_text
  ++ match saved_from w (markdown_named_matches response_text) with
     | [] => bare_block_matches response_text
     | _ :: _ => []
     end.

Definition markdown_saves (response_text : string) (w : World)
  : list (string * string) :=
  let named := saved_from w (markdown_named_matches response_text) in
  named ++ match named with
           | [] => saved_from w (bare_block_matches response_text)
           | _ :: _ => []
           end.

(** The saves of [_parse_test_files], strategy after strategy: filename
    labels, hash headings, markdown blocks, and content mapping when the
    first three saved fewer than four files. *)
Definition cascade_saves (response_text : string) (w : World)
  : list (string * string) :=
  let first_three :=
    saved_from w (Re.findall2 Pattern.filename_format response_text)
    ++ saved_from w (Re.findall2 Pattern.hash_format response_text)
    ++ markdown_saves response_text w in
  first_three
  ++ (if length first_three <? 4
      then saved_from w (content_mapping_matches response_text)
      else []).

(** The matches that [_parse_test_files] goes through, strategy after
    strategy; [cascade_saves] are those of them that are saved, and
    [cascade_writes] those that open their file. *)
Definition cascade_matches (response_text : string) (w : World)
  : list (string * string) :=
  let first_three :=
    Re.findall2 Pattern.filename_format response_text
    ++ Re.findall2 Pattern.hash_format response_text
    ++ markdown_matches response_text w in
  first_three
  ++ (if length (saved_from w first_three) <? 4
      then content_mapping_matches response_text
      else []).

Definition cascade_writes (response_text : string) (w : World)
  : list (string * string) :=
  opened_from w (cascade_matches response_text w).

(** The texts of the scenarios. *)
Definition two_labels : string :=
  "FILENAME: a.spec.ts" +:+ NL +:+ "hello" +:+ NL
  +:+ "FILENAME: b.spec.ts" +:+ NL +:+ "world".

Definition label_then_fence : string :=
  "FILENAME: a.spec.ts" +:+ NL
  +:+ "```typescript" +:+ NL +:+ "foo" +:+ NL +:+ "```".

Definition label_then_named_fence : string :=
  "FILENAME: a.spec.ts" +:+ NL +:+ "some text" +:+ NL
  +:+ "a.spec.ts:" +:+ NL
  +:+ "```typescript" +:+ NL +:+ "foo" +:+ NL +:+ "```".

(** A fresh run on a disk that is full: files can be opened, and take
    no content. *)
Definition full_disk : World :=
  {| TEST_OUTPUT_DIR := Some "run_files/run_1/tests";
     disk := {[ "run_files/run_1/tests/a.spec.ts" := "old" ]};
     denied := fun _ => false;
     realpath := fun path => path;
     write_error := fun _ _ => Some OSError;
     stdout_refuses := fun _ _ => false |}.

(** A label that reaches the file of the block through another path. *)
Definition dotted_label_then_named_fence : string :=
  "FILENAME: ./a.spec.ts" +:+ NL +:+ "hello" +:+ NL
  +:+ "a.spec.ts:" +:+ NL
  +:+ "```typescript" +:+ NL +:+ "foo" +:+ NL +:+ "```".

(** A fresh run on a system where a step [/./] of a path stays in the
    directory. *)
Definition dotted_world : World :=
  {| TEST_OUTPUT_DIR := Some "run_files/run_1/tests";
     disk := ∅;
     denied := fun _ => false;
     realpath := fun path => Str.replace path "/./" "/";
     write_error := fun _ _ => None;
     stdout_refuses := fun _ _ => false |}.

Definition open_fence : string :=
  "```typescript" +:+ NL +:+ "test(" +:+ NL.

(** ** Dependency graph builder *)

(** [os.path.basename] on POSIX paths: what follows the last slash. *)
Definition os_path_basename (p : string) : string :=
  List.last (Str.split "/" p) EmptyString.

(** [list(set(l))]: the distinct elements, in the order of the set. *)
Definition list_set (l : list string) : list string :=
  elements (list_to_set l : gset string).

(** [_extract_imports] *)
Definition _extract_imports (content : string) : list string :=
  let imports :=
    List.concat (map (fun pattern => Re.findall1 pattern content)
                     Pattern.import_patterns) in
  list_set imports.

(** [_extract_routes] *)
Definition _extract_routes (content : string) : list string :=
  let routes :=
    List.concat (map (fun pattern => Re.findall1 pattern content)
                     Pattern.route_patterns) in
  list_set routes.

(** [networkx.DiGraph]: a set of nodes and a set of directed edges;
    [add_edge] adds the two ends to the nodes. *)
Record DiGraph := mkDiGraph {
  nodes : gset string;
  edges : gset (string * string)
}.

Definition empty_graph : DiGraph := {| nodes := ∅; edges := ∅ |}.

Definition add_node (n : string) (g : DiGraph) : DiGraph :=
  {| nodes := {[n]} ∪ nodes g; edges := edges g |}.

Definition add_edge (u v : string) (g : DiGraph) : DiGraph :=
  {| nodes := {[u]} ∪ ({[v]} ∪ nodes g); edges := {[(u, v)]} ∪ edges g |}.

(** The three results under construction: [graph], [file_roles],
    [route_map]. *)
Definition Built : Type :=
  DiGraph * gmap string Role * gmap string (list string).

(** [imp.endswith(('.tsx', '.jsx', '.ts', '.js'))] *)
Definition is_source_import (imp : string) : bool :=
  existsb (Str.endswith imp) [".tsx"; ".jsx"; ".ts"; ".js"].

(** The loop over the imports of one file. *)
Definition add_import_edge (files : list string) (filename : string)
    (graph : DiGraph) (imp : string) : DiGraph :=
  if is_source_import imp then
    let target_file := os_path_basename imp in
    if bool_decide (target_file ∈ map os_path_basename files)
    then add_edge filename target_file graph
    else graph
  else graph.

(** *** Blocks under [try] over objects changed in place

    The graph, the dictionaries and the lists of the loops below are
    objects that the block under [try] changes in place: what it has done
    to them when an exception ends it stays done.  Such a block gives the
    objects as it leaves them, with the exception that ended it, if any.

    [attempt st m k]: a step [m] of the block, the objects being [st]
    when it runs; the block ends there when [m] raises, and goes on with
    [k] otherwise. *)
Definition attempt {S A} (st : S) (m : M A) (k : A -> M (S * option exn))
  : M (S * option exn) :=
  fun w =>
    match m w with
    | Returns a w' => k a w'
    | Raises e w' => Returns (st, Some e) w'
    end.

(** [except Exception as e: print(...)], after the block. *)
Definition except_print {S} (r : S * option exn) (message : exn -> M unit) : M S :=
  match snd r with
  | None => ret (fst r)
  | Some e => do message e then ret (fst r)
  end.

(** The loop over the imports of one file, with its messages: an edge is
    in the graph before its message is printed. *)
Fixpoint add_import_edges (files : list string) (filename : string)
    (imports : list string) (graph : DiGraph) : M (DiGraph * option exn) :=
  match imports with
  | [] => ret (graph, None)
  | imp :: rest =>
      if is_source_import imp then
        let target_file := os_path_basename imp in
        if bool_decide (target_file ∈ map os_path_basename files) then
          let graph := add_edge filename target_file graph in
          attempt graph
            (print "ℹ️ Added edge: {} -> {}" [VStr filename; VStr target_file])
            (fun _ => add_import_edges files filename rest graph)
        else add_import_edges files filename rest graph
      else add_import_edges files filename rest graph
  end.

(** The message for the role of a file. *)
Definition print_role (role : Role) (filename : string) : M unit :=
  match role with
  | Component => print "ℹ️ Component file: {}" [VStr filename]
  | API => print "ℹ️ API file: {}" [VStr filename]
  | _ => ret tt
  end.

(** The block under [try] of the loop over the files. *)
Definition try_file (files : list string) (st : Built)
    (file_path filename : string) : M (Built * option exn) :=
  let '(graph, file_roles, route_map) := st in
  attempt st (read_file file_path) (fun content =>
  let imports := _extract_imports content in
  attempt st (print "📊 Imports in {}: {}" [VStr filename; VList (firstn 5 imports)])
    (fun _ =>
  let graph := add_node filename graph in
  let* edges_added := add_import_edges files filename imports graph in
  let graph := fst edges_added in
  match snd edges_added with
  | Some e => ret ((graph, file_roles, route_map), Some e)
  | None =>
      let role := _classify_file_role filename content imports in
      let file_roles := <[filename := role]> file_roles in
      let routes := _extract_routes content in
      match routes with
      | [] =>
          let st := (graph, file_roles, route_map) in
          attempt st (print_role role filename) (fun _ => ret (st, None))
      | _ :: _ =>
          let st := (graph, file_roles, <[filename := routes]> route_map) in
          attempt st
            (print "ℹ️ Route file: {} -> routes: {}" [VStr filename; VList routes])
            (fun _ =>
          attempt st (print_role role filename) (fun _ => ret (st, None)))
      end
  end)).

(** The body of the loop over the files: the message that names the file
    is printed before the [try]. *)
Definition process_file (files : list string) (st : Built) (file_path : string)
  : M Built :=
  let filename := os_path_basename file_path in
  do print "ℹ️ Processing: {}" [VStr filename] then
  let* r := try_file files st file_path filename in
  except_print r
    (fun e => print "⚠️ Error processing {}: {}" [VStr filename; VExn e]).

Fixpoint for_each {S X} (body : S -> X -> M S) (l : list X) (st : S) : M S :=
  match l with
  | [] => ret st
  | x :: l' => let* st' := body st x in for_each body l' st'
  end.

(** [_build_dependency_graph] *)
Definition _build_dependency_graph (files : list string) : M Built :=
  do print "🔄 Building dependency graph and classifying files" [] then
  do print "ℹ️ Processing {} files for graph construction"
           [VInt (Z.of_nat (length files))] then
  let* st := for_each (process_file files) files (empty_graph, ∅, ∅) in
  do print "✅ Dependency graph built: {} nodes, {} edges"
           [VInt (Z.of_nat (size (nodes (fst (fst st)))));
            VInt (Z.of_nat (size (edges (fst (fst st)))))] then
  do print "📊 File roles distribution: {}" [VRoles (snd (fst st))] then
  do print "📊 Route mapping: {}" [VRoutes (snd st)] then
  ret st.

(** A small source tree. *)
Definition sample_tree : World :=
  plain_system None
    ({[ "src/App.jsx" :=
            "import Nav from './components/Nav.jsx'" +:+ NL
            +:+ "import React from 'react'" +:+ NL
            +:+ "import gone from './Missing.js'" +:+ NL;
          "src/components/Nav.jsx" := "export default Nav" ]}).

Definition sample_files : list string :=
  ["src/App.jsx"; "src/components/Nav.jsx"; "src/unreadable.ts"].

(** The graph has no dangling edge, and its nodes are basenames of the
    given files. *)
Definition closed_graph (files : list string) (g : DiGraph) : Prop :=
  (forall u v, (u, v) ∈ edges g -> u ∈ nodes g /\ v ∈ nodes g)
  /\ (forall n, n ∈ nodes g -> n ∈ map os_path_basename files).

(** * Further functions of the generator *)

(** [sep.join(l)] *)
Fixpoint str_join (sep : string) (l : list string) : string :=
  match l with
  | [] => EmptyString
  | [x] => x
  | x :: l' => x +:+ sep +:+ str_join sep l'
  end.

(** ** Test content of a response *)

(** The loop of [_extract_test_content_from_response], with its flag
    [in_code_block] and its list [test_content]; the result is the list
    when the loop ends or breaks. *)
Fixpoint extract_loop (filename : string) (lines : list string)
    (in_code_block : bool) (test_content : list string) : list string :=
  match lines with
  | [] => test_content
  | line :: rest =>
      if Str.startswith (Str.strip line) (filename +:+ ":") then
        extract_loop filename rest in_code_block test_content
      else if Str.startswith (Str.strip line) "```typescript" then
        extract_loop filename rest true test_content
      else if String.eqb (Str.strip line) "```" && in_code_block then
        test_content
      else if in_code_block then
        extract_loop filename rest in_code_block (test_content ++ [line])
      else
        extract_loop filename rest in_code_block test_content
  end.

(** [_extract_test_content_from_response] *)
Definition _extract_test_content_from_response
    (response_text filename : string) : string :=
  let lines := Str.split Str.nl response_text in
  str_join NL (extract_loop filename lines false []).

(** The three kinds of lines the loop tells apart, in the order of its
    tests: a line that names the file, a line that opens a block, a line
    that closes one. *)
Definition names_file (filename line : string) : bool :=
  Str.startswith (Str.strip line) (filename +:+ ":").

Definition opens_block (filename line : string) : bool :=
  negb (names_file filename line)
  && Str.startswith (Str.strip line) "```typescript".

Definition closes_block (filename line : string) : bool :=
  negb (names_file filename line)
  && negb (Str.startswith (Str.strip line) "```typescript")
  && String.eqb (Str.strip line) "```".

(** A line of a block that is kept: neither a line that names the file
    nor another opening line. *)
Definition kept_line (filename line : string) : bool :=
  negb (names_file filename line)
  && negb (Str.startswith (Str.strip line) "```typescript").

(** The lines of a block, up to the line that closes it. *)
Fixpoint until_close (filename : string) (lines : list string) : list string :=
  match lines with
  | [] => []
  | line :: rest =>
      if closes_block filename line then []
      else line :: until_close filename rest
  end.

(** ** Validation of the saved tests *)

Inductive ValidationError :=
| Invalid_test_structure (test_file : string)
| Error_reading (test_file : string) (e : exn).

Record ValidationResults := mkValidationResults {
  total_tests : nat;
  valid_tests : nat;
  invalid_tests : nat;
  validation_errors : list ValidationError
}.

(** [f"{TEST_OUTPUT_DIR}/{test_file}"]: [None] is printed as [None]. *)
Definition formatted_test_path (dir : option string) (test_file : string) : string :=
  match dir with
  | Some d => d
  | None => "None"
  end +:+ "/" +:+ test_file.

(** The test of [_validate_tests] on the content of a file. *)
Definition has_test_structure (content : string) : bool :=
  Str.contains "import { test, expect }" content
  && (Str.contains "test.describe" content || Str.contains "test('" content).

(** One turn of the loop of [_validate_tests]. *)
Definition validate_step (st : ValidationResults) (test_file : string)
  : M ValidationResults :=
  try_except
    (let* dir := get_TEST_OUTPUT_DIR in
     let* content := read_file (formatted_test_path dir test_file) in
     ret (if has_test_structure content then
            {| total_tests := total_tests st;
               valid_tests := valid_tests st + 1;
               invalid_tests := invalid_tests st;
               validation_errors := validation_errors st |}
          else
            {| total_tests := total_tests st;
               valid_tests := valid_tests st;
               invalid_tests := invalid_tests st + 1;
               validation_errors :=
                 validation_errors st ++ [Invalid_test_structure test_file] |}))
    (fun e =>
       ret {| total_tests := total_tests st;
              valid_tests := valid_tests st;
              invalid_tests := invalid_tests st + 1;
              validation_errors :=
                validation_errors st ++ [Error_reading test_file e] |}).

(** [_validate_tests] *)
Definition _validate_tests (test_files : list string) : M ValidationResults :=
  let* st := for_each validate_step test_files
               {| total_tests := 0; valid_tests := 0; invalid_tests := 0;
                  validation_errors := [] |} in
  ret {| total_tests := valid_tests st + invalid_tests st;
         valid_tests := valid_tests st;
         invalid_tests := invalid_tests st;
         validation_errors := validation_errors st |}.

(** ** Application analysis *)

(** [re.findall] for a pattern without group: the text of each match. *)
Definition findall0 (r : Re.re) (s : string) : list string :=
  map (fun g : Re.groups => g 0) (Re.scan (Re.Group 0 r) s 0).

Module AnalysisPattern.
Import Re.

(** A character that is neither a quote nor whitespace. *)
Definition plain (c : ascii) : bool := nonquote c && nonspace c.

(** A quoted text that holds a slash, the text being the group: a quote
    of either kind, characters that are not quotes, a slash, characters
    that are not quotes, a quote of either kind. *)
Definition quoted_path : re :=
  seq [Class quote;
       Group 1 (seq [Star nonquote; Lit "/"; Star nonquote]);
       Class quote].

(** [fetch(] and a quoted text, without its closing quote checked to be
    last: the group is the text. *)
Definition fetch_call : re :=
  seq [Lit "fetch("; Class quote; Group 1 (Plus nonquote); Class quote].

(** [axios.], one of [get], [post], [put], [delete] as first group, [(]
    and a quoted text as second group. *)
Definition axios_call : re :=
  seq [Lit "axios.";
       Group 1 (Alt (Lit "get") (Alt (Lit "post") (Alt (Lit "put") (Lit "delete"))));
       Lit "("; Class quote; Group 2 (Plus nonquote); Class quote].

(** [api.] and the characters that follow up to a quote, as group. *)
Definition api_member : re :=
  seq [Lit "api."; Group 1 (Plus nonquote)].

(** [/api/] and the characters that follow up to a quote or a blank;
    the pattern has no group. *)
Definition api_path : re :=
  seq [Lit "/api/"; Plus plain].

End AnalysisPattern.

(** The seven entries of the [analysis] dictionary. *)
Record AppAnalysis := mkAppAnalysis {
  app_routes : list string;
  app_components : list string;
  app_pages : list string;
  app_forms : list string;
  app_api_endpoints : list string;
  app_user_flows : list string;
  app_features : list string
}.

(** [if x.startswith(prefix) and x not in l: l.append(x)], for each [x]. *)
Definition append_new (prefix : string) (l : list string) (x : string) : list string :=
  if Str.startswith x prefix && negb (bool_decide (x ∈ l)) then l ++ [x] else l.

(** The endpoints the four API patterns give on a content, pattern after
    pattern: the group of a [fetch] call, the second group of an [axios]
    call, the group after [api.], the whole match of an [/api/] path. *)
Definition api_matches (content : string) : list string :=
  Re.findall1 AnalysisPattern.fetch_call content
  ++ map snd (Re.findall2 AnalysisPattern.axios_call content)
  ++ Re.findall1 AnalysisPattern.api_member content
  ++ findall0 AnalysisPattern.api_path content.

(** [any(keyword in name for keyword in keywords)] *)
Definition any_keyword (keywords : list string) (name : string) : bool :=
  existsb (fun keyword => Str.contains keyword name) keywords.

(** The body of the loop of [_analyze_application_functionality]: the
    entries are changed once the file is read, by steps that do not
    raise, and the handler prints the failure of the reading. *)
Definition analyze_file (analysis : AppAnalysis) (file_path : string)
  : M AppAnalysis :=
  let filename := os_path_basename file_path in
  try_except
    (let* content := read_file file_path in
     let route_matches := Re.findall1 AnalysisPattern.quoted_path content in
     let routes := fold_left (append_new "/") route_matches (app_routes analysis) in
     let pages :=
       if any_keyword ["page"; "component"; "view"; "screen"] (Str.lower filename)
       then app_pages analysis ++ [filename] else app_pages analysis in
     let forms :=
       if Str.contains "form" (Str.lower content) || Str.contains "Form" filename
       then app_forms analysis ++ [filename] else app_forms analysis in
     let api_endpoints :=
       fold_left (append_new "/api/") (api_matches content)
                 (app_api_endpoints analysis) in
     let user_flows :=
       if any_keyword ["login"; "signup"; "dashboard"; "profile"; "settings";
                       "create"; "edit"; "delete"] (Str.lower filename)
       then app_user_flows analysis ++ [filename] else app_user_flows analysis in
     ret {| app_routes := routes;
            app_components := app_components analysis;
            app_pages := pages;
            app_forms := forms;
            app_api_endpoints := api_endpoints;
            app_user_flows := user_flows;
            app_features := app_features analysis |})
    (fun e =>
       do print "⚠️ Error analyzing {}: {}" [VStr filename; VExn e] then
       ret analysis).

Definition empty_analysis : AppAnalysis :=
  {| app_routes := []; app_components := []; app_pages := []; app_forms := [];
     app_api_endpoints := []; app_user_flows := []; app_features := [] |}.

(** [_analyze_application_functionality], on the files of the generator. *)
Definition _analyze_application_functionality (files : list string) : M AppAnalysis :=
  do print "🔍 Performing comprehensive application analysis" [] then
  let* analysis := for_each analyze_file files empty_analysis in
  let features :=
    _extract_features {| routes := app_routes analysis;
                         pages := app_pages analysis |} in
  do print "📊 Analysis complete: {} routes, {} pages, {} APIs"
           [VInt (Z.of_nat (length (app_routes analysis)));
            VInt (Z.of_nat (length (app_pages analysis)));
            VInt (Z.of_nat (length (app_api_endpoints analysis)))] then
  ret {| app_routes := app_routes analysis;
         app_components := app_components analysis;
         app_pages := app_pages analysis;
         app_forms := app_forms analysis;
         app_api_endpoints := app_api_endpoints analysis;
         app_user_flows := app_user_flows analysis;
         app_features := features |}.

(** The tags whose test ranges over the pairs of a route and a page. *)
Definition pair_features : list string :=
  ["Dashboard Management"; "Create Operations"; "Edit Operations";
   "Delete Operations"; "Project Management"; "Content Management"].

(** ** Source collector *)

(** What the collector sees of the source tree: the directories that
    [os.walk] lists, each with the names of its files, and the size that
    [os.path.getsize] gives for a path ([None] when it raises). *)
Record Tree := mkTree {
  walk : list (string * list string);
  getsize : string -> option Z
}.

Definition extensions : list string :=
  [".tsx"; ".jsx"; ".js"; ".ts"; ".vue"; ".html"].

(** [os.path.getsize(path)] *)
Definition os_path_getsize (tree : Tree) (path : string) : M Z :=
  match getsize tree path with
  | Some n => ret n
  | None => raise OSError
  end.

(** The body of the innermost loop of [_collect_source_files]: the size
    is read and the message of a skipped file is printed before the
    [try]; under the [try], the path joins the list once the file is
    read, before the message of a collected file is printed. *)
Definition collect_file (tree : Tree) (MAX_FILE_SIZE : Z) (ext root : string)
    (files : list string) (filename : string) : M (list string) :=
  if Str.endswith filename ext then
    let* file_path := os_path_join (Some root) filename in
    let* file_size := os_path_getsize tree file_path in
    if (MAX_FILE_SIZE <? file_size)%Z then
      do print "⚠️ Skipped {} - too large ({} bytes > {})"
               [VStr filename; VInt file_size; VInt MAX_FILE_SIZE] then
      ret files
    else
      let* r :=
        attempt files (read_file file_path) (fun content =>
        let files := files ++ [file_path] in
        attempt files
          (print "ℹ️ Collected: {} ({} bytes, {} chars)"
                 [VStr filename; VInt file_size;
                  VInt (Z.of_nat (String.length content))])
          (fun _ => ret (files, None))) in
      except_print r
        (fun e => print "⚠️ Could not read {}: {}" [VStr filename; VExn e])
  else ret files.

Definition collect_directory (tree : Tree) (MAX_FILE_SIZE : Z) (ext : string)
    (files : list string) (entry : string * list string) : M (list string) :=
  let '(root, filenames) := entry in
  for_each (collect_file tree MAX_FILE_SIZE ext root) filenames files.

Definition collect_extension (tree : Tree) (MAX_FILE_SIZE : Z)
    (files : list string) (ext : string) : M (list string) :=
  do print "ℹ️ Scanning for {} files" [VStr ext] then
  for_each (collect_directory tree MAX_FILE_SIZE ext) (walk tree) files.

(** [_collect_source_files] *)
Definition _collect_source_files (tree : Tree) (MAX_FILE_SIZE : Z) : M (list string) :=
  do print "🔄 Collecting frontend source files" [] then
  let* files := for_each (collect_extension tree MAX_FILE_SIZE) extensions [] in
  do print "✅ File collection complete: {} files collected"
           [VInt (Z.of_nat (length files))] then
  ret files.

(** A response in the format the prompt asks for. *)
Definition sample_response : string :=
  "Here is the test." +:+ NL
  +:+ "login.spec.ts:" +:+ NL
  +:+ "```typescript" +:+ NL
  +:+ "test('logs in', async ({ page }) => {" +:+ NL
  +:+ "  await page.goto('/login');" +:+ NL
  +:+ "});" +:+ NL
  +:+ "```" +:+ NL
  +:+ "Done.".

(** What [_validate_tests] finds at the path of a test file: a readable
    content with the structure of a test. *)
Definition validates (w : World) (test_file : string) : bool :=
  match file_content w (formatted_test_path (TEST_OUTPUT_DIR w) test_file) with
  | Some content => has_test_structure content
  | None => false
  end.



(** A character that [_generate_flow_filename] leaves in no filename. *)
Definition separator (c : ascii) : bool :=
  Ascii.eqb c " " || Ascii.eqb c ":" || Ascii.eqb c "-".

(** A text without newline. *)
Definition one_line (s : string) : bool := Str.all Re.dot s.

(** A text, character by character. *)
Fixpoint map_chr (f : ascii -> ascii) (s : string) : string :=
  match s with
  | EmptyString => EmptyString
  | String c s' => String (f c) (map_chr f s')
  end.

Fixpoint filter_chr (p : ascii -> bool) (s : string) : string :=
  match s with
  | EmptyString => EmptyString
  | String c s' => if p c then String c (filter_chr p s') else filter_chr p s'
  end.

(** [c] replaced by [d]. *)
Definition swap_chr (c d x : ascii) : ascii := if Ascii.eqb x c then d else x.

(** What the first four steps of [_generate_flow_filename] make of a
    character that is not a colon: its lower case, with the space and the
    hyphen turned into the underscore. *)
Definition flow_chr (x : ascii) : ascii :=
  swap_chr "-" "_" (swap_chr " " "_" (Str.lower_chr x)).

(** What the last write of a list at the file [p] has left there, if
    the list has one. *)
Fixpoint last_write (w : World) (p : string) (es : list (string * string))
  : option string :=
  match es with
  | [] => None
  | e :: es' =>
      match last_write w p es' with
      | Some c => Some c
      | None =>
          if bool_decide (artifact_path w (fst e) = Some p)
          then Some (stored w e) else None
      end
  end.

(** The score of a block for an expected file: the number of its
    indicators that the lower-cased block holds. *)
Definition indicator_score (content_lower : string) (entry : string * list string) : nat :=
  length (List.filter (fun indicator => Str.contains indicator content_lower)
                      (snd entry)).

(** ** What a pattern captures *)

(** The groups a pattern sets. *)
Fixpoint groups_of (r : Re.re) : list nat :=
  match r with
  | Re.Seq r1 r2 | Re.Alt r1 r2 => groups_of r1 ++ groups_of r2
  | Re.Group i r' => i :: groups_of r'
  | Re.Ahead r' => groups_of r'
  | _ => []
  end.

(** Every way through [r] reads a text with the property [P] and goes on
    with the groups as they were. *)
Definition reads (r : Re.re) (P : string -> Prop) : Prop :=
  forall s g k m,
    Re.exec r s g k = Some m ->
    exists a s', s = a +:+ s' /\ P a /\ k s' g = Some m.

(** In every match of the pattern, the group [i] holds a text with the
    property [P]: the pattern is a sequence with the group in it, the
    pattern of the group reads such texts, and what follows the group
    does not set it again. *)
Inductive captures (i : nat) (P : string -> Prop) : Re.re -> Prop :=
| captures_last (r : Re.re) :
    reads r P -> captures i P (Re.Group i r)
| captures_here (r rest : Re.re) :
    reads r P -> ~ In i (groups_of rest) ->
    captures i P (Re.Seq (Re.Group i r) rest)
| captures_later (r1 r2 : Re.re) :
    captures i P r2 -> captures i P (Re.Seq r1 r2).

(** A text made of one or more characters of a class. *)
Definition run_of (p : ascii -> bool) (a : string) : Prop :=
  a <> EmptyString /\ Str.all p a = true.

(** A filename of a test: it ends with [.spec.ts]. *)
Definition spec_filename (filename : string) : Prop :=
  Str.endswith filename ".spec.ts" = true.

(** ** Edges and roles, file by file *)

(** The edge that an import of a readable file gives: the import ends
    with a source extension and its basename is the basename of one of
    the files. *)
Definition import_edge (files : list string) (w : World) (u v : string) : Prop :=
  exists f content imp,
    In f files /\ file_content w f = Some content /\ u = os_path_basename f
    /\ In imp (_extract_imports content) /\ is_source_import imp = true
    /\ v = os_path_basename imp /\ In v (map os_path_basename files).

(** The basename of a file of the list that can be read. *)
Definition readable_name (files : list string) (w : World) (n : string) : Prop :=
  exists f, In f files /\ is_Some (file_content w f) /\ n = os_path_basename f.

(** The results of one file that can be read. *)
Definition processed (files : list string) (st : Built)
    (filename content : string) : Built :=
  let '(graph, file_roles, route_map) := st in
  let imports := _extract_imports content in
  (fold_left (add_import_edge files filename) imports (add_node filename graph),
   <[filename := _classify_file_role filename content imports]> file_roles,
   match _extract_routes content with
   | [] => route_map
   | _ :: _ => <[filename := _extract_routes content]> route_map
   end).

(** The words that make a file a page, and the basename of a readable
    file that holds one of them. *)
Definition page_keywords : list string := ["page"; "component"; "view"; "screen"].

Definition page_name (files : list string) (w : World) (n : string) : Prop :=
  readable_name files w n /\ any_keyword page_keywords (Str.lower n) = true.

(** The entries of one file that can be read. *)
Definition analyzed (analysis : AppAnalysis) (filename content : string) : AppAnalysis :=
  {| app_routes :=
       fold_left (append_new "/")
                 (Re.findall1 AnalysisPattern.quoted_path content)
                 (app_routes analysis);
     app_components := app_components analysis;
     app_pages :=
       if any_keyword page_keywords (Str.lower filename)
       then app_pages analysis ++ [filename] else app_pages analysis;
     app_forms :=
       if Str.contains "form" (Str.lower content) || Str.contains "Form" filename
       then app_forms analysis ++ [filename] else app_forms analysis;
     app_api_endpoints :=
       fold_left (append_new "/api/") (api_matches content)
                 (app_api_endpoints analysis);
     app_user_flows :=
       if any_keyword ["login"; "signup"; "dashboard"; "profile"; "settings";
                       "create"; "edit"; "delete"] (Str.lower filename)
       then app_user_flows analysis ++ [filename] else app_user_flows analysis;
     app_features := app_features analysis |}.

(** A tree with a dashboard and no file that counts as a page. *)
Definition dashboard_tree : World :=
  plain_system None
    ({[ "src/App.jsx" := "<Route path='/dashboard' element={<Dashboard />} />" ]}).

(** The path that [os.path.join] gives for two texts. *)
Definition joined (a b : string) : string :=
  if Str.startswith b "/" then b
  else if is_empty a || Str.endswith a "/" then a +:+ b
  else a +:+ "/" +:+ b.

(** A file of the tree with the extension [ext], and its path. *)
Definition walked (tree : Tree) (ext p : string) : Prop :=
  exists root filenames filename,
    In (root, filenames) (walk tree) /\ In filename filenames
    /\ Str.endswith filename ext = true /\ p = joined root filename.

(** What a file needs to be collected: a size within the limit and a
    content that can be read. *)
Definition admitted (tree : Tree) (MAX_FILE_SIZE : Z) (w : World) (p : string) : Prop :=
  (exists n, getsize tree p = Some n /\ (n <= MAX_FILE_SIZE)%Z)
  /\ is_Some (file_content w p).

(** A tree with a page, a style sheet, a bundle over the size limit and
    a link that leads nowhere, and its disk. *)
Definition small_tree : Tree :=
  {| walk := [("app", ["Home.tsx"; "style.css"; "bundle.js"])];
     getsize := fun p =>
       if String.eqb p "app/Home.tsx" then Some 120%Z
       else if String.eqb p "app/style.css" then Some 40%Z
       else if String.eqb p "app/bundle.js" then Some 50000%Z
       else None |}.

Definition linked_tree : Tree :=
  {| walk := [("app", ["Home.tsx"; "gone.js"])];
     getsize := fun p =>
       if String.eqb p "app/Home.tsx" then Some 120%Z else None |}.

Definition small_disk : World :=
  plain_system None
    ({[ "app/Home.tsx" := "export default function Home() {}";
                "app/bundle.js" := "var a;" ]}).

(** * Properties *)

(** ** Flow document parser *)

Example flows_scenario :
  _parse_user_flows ("## Flow: Create Item" +:+ NL +:+ "step1" +:+ NL
                     +:+ "## Flow: Delete Item" +:+ NL +:+ "step2")
  = [ {| name := "Create Item";
         content := "## Flow: Create Item" +:+ NL +:+ "step1" +:+ NL;
         filename := "create_item.spec.ts" |};
      {| name := "Delete Item";
         content := "## Flow: Delete Item" +:+ NL +:+ "step2" +:+ NL;
         filename := "delete_item.spec.ts" |} ].
Proof. vm_compute. reflexivity. Qed.

Lemma append_cons (x : ascii) (a b : string) :
  String x a +:+ b = String x (a +:+ b).
Proof. reflexivity. Qed.

Lemma append_empty_l (b : string) : "" +:+ b = b.
Proof. reflexivity. Qed.

Lemma append_assoc (a b c : string) : (a +:+ b) +:+ c = a +:+ (b +:+ c).
Proof.
  induction a as [|x a IH]; [reflexivity |].
  now rewrite !append_cons, IH.
Qed.

Lemma append_empty_r (a : string) : a +:+ "" = a.
Proof.
  induction a as [|x a IH]; [reflexivity |].
  now rewrite append_cons, IH.
Qed.

Lemma render_cons (l : string) (ls : list string) :
  render (l :: ls) = (Str.strip l +:+ NL) +:+ render ls.
Proof. reflexivity. Qed.

Lemma render_app (xs ys : list string) :
  render (xs ++ ys) = render xs +:+ render ys.
Proof.
  induction xs as [|x xs IH]; [reflexivity |].
  change ((x :: xs) ++ ys) with (x :: (xs ++ ys)).
  now rewrite !render_cons, IH, !append_assoc.
Qed.

Lemma extend_nil (f : Flow) : extend f [] = f.
Proof. destruct f; unfold extend, render; simpl. now rewrite append_empty_r. Qed.

Lemma flow_step_heading (flows : list Flow) (cur : option Flow) (l : string) :
  is_heading l = true ->
  flow_step (flows, cur) l
  = (match cur with Some f => flows ++ [f] | None => flows end,
     Some (flow_of_block (l, []))).
Proof.
  intros H. unfold flow_step. fold (is_heading l). rewrite H.
  unfold flow_of_block, render; simpl. now rewrite append_empty_r.
Qed.

Lemma flow_step_body (flows : list Flow) (cur : option Flow) (l : string) :
  is_heading l = false ->
  flow_step (flows, cur) l
  = (flows, match cur with Some f => Some (extend f [l]) | None => None end).
Proof.
  intros H. unfold flow_step. fold (is_heading l). rewrite H.
  destruct cur as [f|]; [| reflexivity].
  unfold extend, render; simpl. now rewrite append_empty_r.
Qed.

Lemma extend_extend (f : Flow) (xs ys : list string) :
  extend (extend f xs) ys = extend f (xs ++ ys).
Proof. unfold extend; simpl. now rewrite render_app, append_assoc. Qed.

Lemma extend_block (l : string) (body : list string) :
  extend (flow_of_block (l, [])) body = flow_of_block (l, body).
Proof.
  unfold extend, flow_of_block; simpl.
  now rewrite <- render_app.
Qed.

(** The loop of the parser computes the grouping of the lines: the flow
    under construction takes the lines up to the next heading, and every
    later heading gives one more record. *)
Lemma fold_flow_step_group (ls : list string) :
  forall (flows : list Flow) (cur : option Flow),
    finish (fold_left flow_step ls (flows, cur))
    = flows
      ++ match cur with
         | Some f => [extend f (fst (group ls))]
         | None => []
         end
      ++ map flow_of_block (snd (group ls)).
Proof.
  induction ls as [|l ls IH]; intros flows cur.
  - simpl. destruct cur as [f|]; unfold finish; simpl.
    + now rewrite extend_nil.
    + now rewrite app_nil_r.
  - change (fold_left flow_step (l :: ls) (flows, cur))
      with (fold_left flow_step ls (flow_step (flows, cur) l)).
    change (group (l :: ls))
      with (let '(body, bs) := group ls in
            if is_heading l then ([], (l, body) :: bs) else (l :: body, bs)).
    destruct (group ls) as [body bs] eqn:G.
    destruct (is_heading l) eqn:H.
    + rewrite (flow_step_heading _ _ _ H), IH. simpl fst; simpl snd.
      rewrite extend_block.
      destruct cur as [f|]; simpl.
      * rewrite extend_nil, <- app_assoc. reflexivity.
      * reflexivity.
    + rewrite (flow_step_body _ _ _ H), IH. simpl fst; simpl snd.
      destruct cur as [f|]; [| reflexivity].
      now rewrite extend_extend.
Qed.

Lemma parse_user_flows_group (doc : string) :
  _parse_user_flows doc
  = map flow_of_block (snd (group (Str.split Str.nl doc))).
Proof.
  unfold _parse_user_flows.
  pose proof (fold_flow_step_group (Str.split Str.nl doc) [] None) as H.
  destruct (fold_left flow_step (Str.split Str.nl doc) ([], None)) as [flows cur].
  exact H.
Qed.

Lemma group_headings (ls : list string) :
  length (snd (group ls)) = length (List.filter is_heading ls).
Proof.
  induction ls as [|l ls IH]; [reflexivity |].
  simpl. destruct (group ls) as [body bs]. simpl in IH.
  destruct (is_heading l); simpl; [now rewrite IH | exact IH].
Qed.

Lemma group_shape (ls : list string) :
  ls = fst (group ls) ++ flatten (snd (group ls))
  /\ Forall (fun l => is_heading l = false) (fst (group ls))
  /\ Forall (fun b => is_heading (fst b) = true
                      /\ Forall (fun l => is_heading l = false) (snd b))
            (snd (group ls)).
Proof.
  induction ls as [|l ls (E & Hpre & Hbs)].
  - repeat split; constructor.
  - simpl. destruct (group ls) as [body bs]. simpl in *.
    destruct (is_heading l) eqn:H; simpl.
    + repeat split.
      * unfold flatten; simpl. now rewrite E at 1.
      * constructor.
      * constructor; [now split | exact Hbs].
    + repeat split.
      * now rewrite E at 1.
      * now constructor.
      * exact Hbs.
Qed.

Lemma group_skip (pre ls : list string) :
  Forall (fun l => is_heading l = false) pre ->
  snd (group (pre ++ ls)) = snd (group ls).
Proof.
  induction 1 as [|l pre Hl _ IH]; [reflexivity |].
  simpl. destruct (group (pre ++ ls)) as [body bs]. simpl in IH.
  now rewrite Hl.
Qed.

Lemma split_cons (s : string) : exists h t, Str.split Str.nl s = h :: t.
Proof.
  destruct s as [|c s]; simpl; [now eexists _, _ |].
  destruct (Ascii.eqb c Str.nl); [now eexists _, _ |].
  destruct (Str.split Str.nl s); now eexists _, _.
Qed.

Lemma split_append (a b : string) :
  Str.split Str.nl (a +:+ NL +:+ b) = Str.split Str.nl a ++ Str.split Str.nl b.
Proof.
  induction a as [|c a IH]; [reflexivity |].
  simpl. rewrite IH.
  destruct (Ascii.eqb c Str.nl); [reflexivity |].
  destruct (split_cons a) as (h & t & ->). reflexivity.
Qed.

(** *** Whitespace stripping *)

Lemma lstrip_decomp (s : string) :
  exists a, s = a +:+ Str.lstrip s /\ Str.all Str.isspace a = true.
Proof.
  induction s as [|c s (a & E & Ha)]; [now exists "" |].
  simpl. destruct (Str.isspace c) eqn:Hc.
  - exists (String c a). rewrite append_cons, <- E. simpl. now rewrite Hc.
  - now exists "".
Qed.

Lemma rstrip_decomp (s : string) :
  exists b, s = Str.rstrip s +:+ b /\ Str.all Str.isspace b = true.
Proof.
  induction s as [|c s (b & E & Hb)]; [now exists "" |].
  simpl. destruct (Str.rstrip s) as [|d r] eqn:R.
  - destruct (Str.isspace c) eqn:Hc.
    + exists (String c b). rewrite append_empty_l in *. subst s.
      simpl. now rewrite Hc.
    + exists b. rewrite append_cons, <- E. now split.
  - exists b. rewrite append_cons, <- E. now split.
Qed.

Lemma rstrip_first (s : string) (c : ascii) :
  Str.first_chr (Str.rstrip s) = Some c -> Str.first_chr s = Some c.
Proof.
  destruct s as [|d s]; [discriminate |].
  simpl. destruct (Str.rstrip s); [destruct (Str.isspace d) |]; simpl; congruence.
Qed.

Lemma lstrip_first (s : string) (c : ascii) :
  Str.first_chr (Str.lstrip s) = Some c -> Str.isspace c = false.
Proof.
  induction s as [|d s IH]; [discriminate |].
  simpl. destruct (Str.isspace d) eqn:Hd; [exact IH |].
  simpl. congruence.
Qed.

Lemma rstrip_last (s : string) (c : ascii) :
  Str.last_chr (Str.rstrip s) = Some c -> Str.isspace c = false.
Proof.
  induction s as [|d s IH]; [discriminate |].
  simpl Str.rstrip. destruct (Str.rstrip s) as [|e r] eqn:R.
  - destruct (Str.isspace d) eqn:Hd; simpl; congruence.
  - intros H. apply IH. exact H.
Qed.

Lemma strip_stripped_form (line : string) :
  is_stripped_form line (Str.strip line).
Proof.
  unfold is_stripped_form, Str.strip. repeat split.
  - destruct (lstrip_decomp line) as (a & Ea & Ha).
    destruct (rstrip_decomp (Str.lstrip line)) as (b & Eb & Hb).
    exists a, b. now rewrite <- Eb, <- Ea.
  - intros c H. apply rstrip_first in H. eapply lstrip_first, H.
  - apply rstrip_last.
Qed.

Lemma length_append (a b : string) :
  String.length (a +:+ b) = String.length a + String.length b.
Proof.
  induction a as [|c a IH]; [reflexivity |].
  rewrite append_cons. simpl. now rewrite IH.
Qed.

Lemma strip_length (l : string) :
  String.length (Str.strip l) <= String.length l.
Proof.
  destruct (strip_stripped_form l) as ((a & b & E & _) & _).
  rewrite E at 2. rewrite !length_append. lia.
Qed.

Lemma strip_shorter (l : string) :
  Str.strip l <> l -> String.length (Str.strip l) < String.length l.
Proof.
  intros N.
  destruct (strip_stripped_form l) as ((a & b & E & _) & _).
  destruct a as [|x a], b as [|y b].
  - exfalso. apply N. rewrite E at 2. now rewrite append_empty_l, append_empty_r.
  - rewrite E at 2. rewrite !length_append. simpl. lia.
  - rewrite E at 2. rewrite !length_append. simpl. lia.
  - rewrite E at 2. rewrite !length_append. simpl. lia.
Qed.

Lemma render_length (ls : list string) :
  String.length (render ls) <= String.length (verbatim ls).
Proof.
  induction ls as [|l ls IH]; [reflexivity |].
  rewrite render_cons. change (verbatim (l :: ls)) with ((l +:+ NL) +:+ verbatim ls).
  rewrite !length_append. pose proof (strip_length l). lia.
Qed.

Lemma render_not_verbatim (ls : list string) :
  Exists (fun l => Str.strip l <> l) ls -> render ls <> verbatim ls.
Proof.
  intros H E. apply (f_equal String.length) in E. revert E.
  induction H as [l ls H | l ls _ IH].
  - rewrite render_cons. change (verbatim (l :: ls)) with ((l +:+ NL) +:+ verbatim ls).
    rewrite !length_append.
    pose proof (strip_shorter l H). pose proof (render_length ls). lia.
  - rewrite render_cons. change (verbatim (l :: ls)) with ((l +:+ NL) +:+ verbatim ls).
    rewrite !length_append. intros E. apply IH.
    pose proof (strip_length l). pose proof (render_length ls). lia.
Qed.

(** *** Headings and flow records *)

(** C7, as the code has it.  The parser yields one flow record per line
    that starts with the marker [## Flow:] once its leading and trailing
    whitespace is stripped: a document with N such lines yields N records;
    the lines before the first of them are discarded; a document without
    any yields no flow. *)
Theorem parse_user_flows_headings (doc : string) :
  length (_parse_user_flows doc)
  = length (List.filter is_heading (Str.split Str.nl doc))
  /\ (forall pre : string,
         Forall (fun l => is_heading l = false) (Str.split Str.nl pre) ->
         _parse_user_flows (pre +:+ NL +:+ doc) = _parse_user_flows doc)
  /\ (Forall (fun l => is_heading l = false) (Str.split Str.nl doc) ->
      _parse_user_flows doc = []).
Proof.
  rewrite !parse_user_flows_group. repeat split.
  - now rewrite length_map, group_headings.
  - intros pre H.
    now rewrite parse_user_flows_group, split_append, group_skip.
  - intros H.
    rewrite <- (app_nil_r (Str.split Str.nl doc)), (group_skip _ [] H).
    reflexivity.
Qed.

Lemma parse_user_flows_headings_witness :
  length (_parse_user_flows ("intro" +:+ NL +:+ "  ## Flow: A" +:+ NL +:+ "step")) = 1
  /\ _parse_user_flows ("intro" +:+ NL +:+ "  ## Flow: A" +:+ NL +:+ "step")
     = _parse_user_flows ("  ## Flow: A" +:+ NL +:+ "step")
  /\ _parse_user_flows "no heading here" = [].
Proof.
  split; [| split].
  - exact (proj1 (parse_user_flows_headings
                    ("intro" +:+ NL +:+ "  ## Flow: A" +:+ NL +:+ "step"))).
  - apply (proj1 (proj2 (parse_user_flows_headings
                           ("  ## Flow: A" +:+ NL +:+ "step"))) "intro").
    vm_compute. repeat constructor.
  - apply (proj2 (proj2 (parse_user_flows_headings "no heading here"))).
    vm_compute. repeat constructor.
Defined.

(** C7 as stated fails on an indented heading: no line of the document
    starts with the marker, and yet the parser yields a flow. *)
Lemma parse_user_flows_indented_heading :
  List.filter starts_with_marker (Str.split Str.nl "  ## Flow: A") = []
  /\ _parse_user_flows "  ## Flow: A"
     = [ {| name := "A"; content := "## Flow: A" +:+ NL; filename := "a.spec.ts" |} ]
  /\ length (_parse_user_flows "  ## Flow: A")
     <> length (List.filter starts_with_marker (Str.split Str.nl "  ## Flow: A")).
Proof. vm_compute. repeat split. discriminate. Qed.

(** C10.  The lines of a document split into the lines before the first
    heading and one block per flow record, a heading and the lines under
    it up to the next heading.  The content of a record is made of the
    lines of its block, each with its leading and trailing whitespace
    removed and a newline added; as soon as one of these lines carries
    such whitespace, the content differs from the lines as they stand in
    the document. *)
Theorem parse_user_flows_strips (doc : string) :
  exists (pre : list string) (bs : list (string * list string)),
    Str.split Str.nl doc = pre ++ flatten bs
    /\ Forall (fun l => is_heading l = false) pre
    /\ Forall2
         (fun f b =>
            let block := fst b :: snd b in
            is_heading (fst b) = true
            /\ Forall (fun l => is_heading l = false) (snd b)
            /\ (exists ss, Forall2 is_stripped_form block ss
                           /\ content f = Str.concat (map (fun s => s +:+ NL) ss))
            /\ (Exists (fun l => Str.strip l <> l) block ->
                content f <> verbatim block))
         (_parse_user_flows doc) bs.
Proof.
  exists (fst (group (Str.split Str.nl doc))), (snd (group (Str.split Str.nl doc))).
  destruct (group_shape (Str.split Str.nl doc)) as (E & Hpre & Hbs).
  split; [exact E |]. split; [exact Hpre |].
  rewrite parse_user_flows_group. clear E Hpre.
  induction Hbs as [|b bs (Hh & Hb) _ IH]; [constructor |].
  constructor; [| exact IH].
  split; [exact Hh |]. split; [exact Hb |]. split.
  - exists (map Str.strip (fst b :: snd b)). split.
    + induction (fst b :: snd b) as [|l ls IHl]; constructor.
      * apply strip_stripped_form.
      * exact IHl.
    + unfold flow_of_block, render; simpl. now rewrite map_map.
  - apply render_not_verbatim.
Qed.

Lemma parse_user_flows_strips_witness :
  exists (pre : list string) (bs : list (string * list string)),
    Str.split Str.nl ("## Flow: A" +:+ NL +:+ "    step one  ") = pre ++ flatten bs
    /\ Forall (fun l => is_heading l = false) pre
    /\ Forall2
         (fun f b =>
            let block := fst b :: snd b in
            is_heading (fst b) = true
            /\ Forall (fun l => is_heading l = false) (snd b)
            /\ (exists ss, Forall2 is_stripped_form block ss
                           /\ content f = Str.concat (map (fun s => s +:+ NL) ss))
            /\ (Exists (fun l => Str.strip l <> l) block ->
                content f <> verbatim block))
         (_parse_user_flows ("## Flow: A" +:+ NL +:+ "    step one  ")) bs.
Proof. exact (parse_user_flows_strips ("## Flow: A" +:+ NL +:+ "    step one  ")). Defined.

Example parse_user_flows_indentation :
  map content (_parse_user_flows ("## Flow: A" +:+ NL +:+ "    step one  "))
  = [ "## Flow: A" +:+ NL +:+ "step one" +:+ NL ].
Proof. vm_compute. reflexivity. Qed.

(** ** Role classifier *)

(** C3 as stated fails: [UserForm.jsx] is not classified [Form]. *)
Lemma classify_UserForm_jsx_not_Form :
  _classify_file_role "UserForm.jsx" "" [] <> Form.
Proof. vm_compute. discriminate. Qed.

(** C3, as the code has it.  [UserForm.jsx] contains none of "route",
    "router", "api", "service" and is classified [Component], whatever the
    content and the imports: the extension test comes before the test for
    "form".  The same name without such an extension, [UserForm.js], is
    classified [Form]. *)
Theorem classify_UserForm (content : string) (imports : list string) :
  _classify_file_role "UserForm.jsx" content imports = Component
  /\ _classify_file_role "UserForm.js" content imports = Form.
Proof. split; vm_compute; reflexivity. Qed.

(** The order of the rules, for any name. *)
Lemma classify_Form_iff (filename content : string) (imports : list string) :
  _classify_file_role filename content imports = Form
  <-> (Str.contains "route" (Str.lower filename)
       || Str.contains "router" (Str.lower filename) = false)
      /\ (Str.contains "api" (Str.lower filename)
          || Str.contains "service" (Str.lower filename) = false)
      /\ existsb (fun ext => Str.contains ext (Str.lower filename))
                 [".tsx"; ".jsx"; ".vue"] = false
      /\ (Str.contains "form" (Str.lower filename)
          || Str.contains "input" (Str.lower filename) = true).
Proof.
  unfold _classify_file_role.
  destruct (Str.contains "route" _ || Str.contains "router" _);
    [split; [discriminate | intros (? & _); discriminate] |].
  destruct (Str.contains "api" _ || Str.contains "service" _);
    [split; [discriminate | intros (_ & ? & _); discriminate] |].
  destruct (existsb _ _);
    [split; [discriminate | intros (_ & _ & ? & _); discriminate] |].
  destruct (Str.contains "form" _ || Str.contains "input" _);
    [tauto | split; [discriminate | intros (_ & _ & _ & ?); discriminate]].
Qed.

(** ** Feature synthesizer *)

Lemma any_route_page_no_pages (p : string -> string -> bool) (rs : list string) :
  any_route_page p {| routes := rs; pages := [] |} = false.
Proof. unfold any_route_page; simpl. induction rs; simpl; auto. Qed.

(** C5, on the code: with an empty list of pages the feature is not
    emitted, whatever the routes are. *)
Theorem extract_features_no_pages (rs : list string) :
  ~ In "Dashboard Management" (_extract_features {| routes := rs; pages := [] |})
  /\ _extract_features {| routes := ["/dashboard"]; pages := [] |} = [].
Proof.
  split; [| vm_compute; reflexivity].
  unfold _extract_features. rewrite !any_route_page_no_pages. simpl.
  intros H.
  repeat (apply in_app_or in H; destruct H as [H | H];
          [match type of H with
           | In _ (features_when ?b _) => destruct b; simpl in H
           end; intuition discriminate |]).
  match type of H with
  | In _ (features_when ?b _) => destruct b; simpl in H
  end; intuition discriminate.
Qed.

(** With a page to pair it with, the route is seen. *)
Example extract_features_dashboard_with_page :
  _extract_features {| routes := ["/dashboard"]; pages := ["Home.jsx"] |}
  = ["Dashboard Management"].
Proof. vm_compute. reflexivity. Qed.

(** ** Artifact validator *)

Lemma count_append (c : ascii) (a b : string) :
  Str.count c (a +:+ b) = Str.count c a + Str.count c b.
Proof.
  induction a as [|x a IH]; [reflexivity |].
  rewrite append_cons. simpl. rewrite IH. lia.
Qed.

Lemma count_rep (c d : ascii) (n : nat) :
  Ascii.eqb d c = false -> Str.count c (Str.rep n d) = 0.
Proof. intros H. induction n as [|n IH]; simpl; [reflexivity | now rewrite H, IH]. Qed.

Lemma length_rep (n : nat) (c : ascii) : String.length (Str.rep n c) = n.
Proof. induction n as [|n IH]; simpl; [reflexivity | now rewrite IH]. Qed.

Lemma contains_append_l (sub a s : string) :
  Str.contains sub s = true -> Str.contains sub (a +:+ s) = true.
Proof.
  intros H. induction a as [|x a IH]; [exact H |].
  rewrite append_cons. simpl. rewrite IH. apply orb_true_r.
Qed.

Lemma lstrip_rep (n : nat) (c : ascii) (s : string) :
  Str.isspace c = true -> Str.lstrip (Str.rep n c +:+ s) = Str.lstrip s.
Proof.
  intros H. induction n as [|n IH]; [reflexivity |].
  simpl Str.rep. rewrite append_cons. simpl. now rewrite H.
Qed.

Lemma is_valid_test_content_iff (content : string) :
  _is_valid_test_content content = true
  <-> 99 < String.length (Str.strip content)
      /\ Str.contains "import { test, expect }" content = true
      /\ (Str.contains "test(" content = true
          \/ Str.contains "test.describe" content = true)
      /\ Str.count "{" content = Str.count "}" content.
Proof.
  unfold _is_valid_test_content.
  destruct content as [|c s].
  - simpl. split; [discriminate | intros (H & _); inversion H].
  - cbn [is_empty orb].
    destruct (String.length (Str.strip (String c s)) <? 100) eqn:L.
    + apply Nat.ltb_lt in L. split; [discriminate | intros (H & _); lia].
    + apply Nat.ltb_ge in L.
      rewrite !andb_true_iff, orb_true_iff, Nat.eqb_eq.
      split; [intros ((? & ?) & ?) | intros (_ & ? & ? & ?)]; repeat split;
        assumption || lia.
Qed.

(** C6 as stated fails: whatever the threshold, a content padded with
    leading blanks is long enough, holds both markers and has balanced
    braces, and the validator rejects it. *)
Lemma is_valid_test_content_not_raw_length :
  ~ exists T : nat,
      forall content : string,
        _is_valid_test_content content = true <-> four_conditions T content.
Proof.
  intros (T & H).
  set (c := Str.rep (S T) " " +:+ "import { test, expect }test(").
  assert (V : _is_valid_test_content c = true).
  { apply H. unfold four_conditions, c. repeat split.
    - rewrite length_append, length_rep. simpl. lia.
    - now apply contains_append_l.
    - left. now apply contains_append_l.
    - rewrite (count_append "{"), (count_append "}"), !count_rep by reflexivity.
      reflexivity. }
  apply is_valid_test_content_iff in V. destruct V as (L & _).
  unfold c, Str.strip in L. rewrite lstrip_rep in L by reflexivity.
  vm_compute in L. lia.
Qed.

(** C6, as the code has it.  A content passes exactly when its length
    once leading and trailing whitespace is stripped is at least 100, it
    holds the import marker, it holds one of the two test markers, and it
    has as many opening as closing braces; a content that passes fails
    once one more closing brace is put anywhere in it. *)
Theorem is_valid_test_content_spec (content : string) :
  (_is_valid_test_content content = true
   <-> 100 <= String.length (Str.strip content)
       /\ Str.contains "import { test, expect }" content = true
       /\ (Str.contains "test(" content = true
           \/ Str.contains "test.describe" content = true)
       /\ Str.count "{" content = Str.count "}" content)
  /\ (forall a b : string,
         content = a +:+ b ->
         _is_valid_test_content content = true ->
         _is_valid_test_content (a +:+ "}" +:+ b) = false).
Proof.
  split; [apply is_valid_test_content_iff |].
  intros a b -> V.
  apply is_valid_test_content_iff in V. destruct V as (_ & _ & _ & B).
  apply not_true_is_false. intros V'.
  apply is_valid_test_content_iff in V'. destruct V' as (_ & _ & _ & B').
  rewrite (count_append "{"), (count_append "}") in B, B'.
  change ("}" +:+ b) with (String "}" b) in B'.
  change (Str.count "{" (String "}" b)) with (0 + Str.count "{" b) in B'.
  change (Str.count "}" (String "}" b)) with (1 + Str.count "}" b) in B'.
  lia.
Qed.

Lemma is_valid_test_content_spec_witness :
  _is_valid_test_content sample_test = true
  /\ _is_valid_test_content (sample_test +:+ "}" +:+ "") = false.
Proof.
  split; [vm_compute; reflexivity |].
  apply (proj2 (is_valid_test_content_spec sample_test) sample_test "").
  - vm_compute; reflexivity.
  - vm_compute; reflexivity.
Defined.

(** ** Resilient artifact extractor *)

Lemma print_ok (w : World) (format : string) (args : list value) :
  stdout_ok w -> print format args w = Returns tt w.
Proof. intros H. unfold print. now rewrite H. Qed.

Lemma same_system_refl (w : World) : same_system w w.
Proof. now repeat split. Qed.

Lemma same_system_trans (w1 w2 w3 : World) :
  same_system w1 w2 -> same_system w2 w3 -> same_system w1 w3.
Proof.
  intros (A1 & A2 & A3 & A4 & A5) (B1 & B2 & B3 & B4 & B5).
  repeat split; congruence.
Qed.

Lemma same_system_with_disk (w : World) (d : gmap string string) :
  same_system w (with_disk w d).
Proof. now repeat split. Qed.

Lemma same_system_artifact_path (w w' : World) (f : string) :
  same_system w w' -> artifact_path w' f = artifact_path w f.
Proof.
  intros (A1 & _ & A3 & _). unfold artifact_path, os_path_join. rewrite A1, A3.
  now destruct (TEST_OUTPUT_DIR w).
Qed.

Lemma same_system_opens (w w' : World) (e : string * string) :
  same_system w w' -> opens w' e = opens w e.
Proof.
  intros S. unfold opens. rewrite (same_system_artifact_path _ _ _ S).
  destruct S as (_ & A2 & _). now rewrite A2.
Qed.

Lemma same_system_accepts (w w' : World) (e : string * string) :
  same_system w w' -> accepts w' e = accepts w e.
Proof.
  intros S. unfold accepts.
  rewrite (same_system_opens _ _ _ S), (same_system_artifact_path _ _ _ S).
  destruct S as (_ & _ & _ & A4 & _). now rewrite A4.
Qed.

Lemma same_system_stdout_ok (w w' : World) :
  same_system w w' -> stdout_ok w -> stdout_ok w'.
Proof. intros (_ & _ & _ & _ & A5) H format args. rewrite A5. apply H. Qed.

Lemma same_system_run_ready (w w' : World) :
  same_system w w' -> run_ready w -> run_ready w'.
Proof.
  intros (A1 & A2 & _) (d & Hd & Hden). exists d. now rewrite A1, A2.
Qed.

Lemma same_system_write_entry (w : World) (e : string * string) :
  same_system w (write_entry w e).
Proof.
  unfold write_entry. destruct (artifact_path w (fst e)).
  - apply same_system_with_disk.
  - apply same_system_refl.
Qed.

Lemma same_system_write_all (es : list (string * string)) :
  forall w : World, same_system w (write_all es w).
Proof.
  induction es as [|e es IH]; intros w; [apply same_system_refl |].
  cbn [write_all fold_left]. fold (write_all es (write_entry w e)).
  eapply same_system_trans; [apply same_system_write_entry | apply IH].
Qed.

Lemma artifact_path_with_disk (w : World) (d : gmap string string) (f : string) :
  artifact_path (with_disk w d) f = artifact_path w f.
Proof. apply same_system_artifact_path, same_system_with_disk. Qed.


Lemma same_system_saved_from (w w' : World) (cs : list (string * string)) :
  same_system w w' -> saved_from w' cs = saved_from w cs.
Proof.
  intros S. unfold saved_from. induction cs as [|c cs IH]; [reflexivity |].
  simpl. now rewrite (same_system_accepts _ _ _ S), IH.
Qed.

Lemma same_system_opened_from (w w' : World) (cs : list (string * string)) :
  same_system w w' -> opened_from w' cs = opened_from w cs.
Proof.
  intros S. unfold opened_from. induction cs as [|c cs IH]; [reflexivity |].
  simpl. now rewrite (same_system_opens _ _ _ S), IH.
Qed.

(** With a standard output that takes every message, [_save_file] never
    raises: it answers [true] with the content in the file, or [false]
    with the disk as it is when the file cannot be opened, and with the
    file emptied when the writing fails. *)
Lemma save_file_spec (filename content : string) (w : World) :
  stdout_ok w ->
  _save_file filename content w
  = match artifact_path w filename with
    | Some p =>
        if denied w p then Returns false w
        else
          match write_error w p content with
          | Some _ => Returns false (with_disk w (<[p := EmptyString]> (disk w)))
          | None => Returns true (with_disk w (<[p := content]> (disk w)))
          end
    | None => Returns false w
    end.
Proof.
  intros Ok.
  unfold _save_file, try_except, bind, get_TEST_OUTPUT_DIR, artifact_path, os_path_join.
  destruct (TEST_OUTPUT_DIR w) as [d|]; simpl.
  - unfold write_file.
    destruct (denied w _); [now rewrite print_ok |].
    destruct (write_error w _ content).
    + now rewrite print_ok.
    + now rewrite !print_ok.
  - now rewrite print_ok.
Qed.

Lemma saved_from_cons (w : World) (e : string * string)
    (cs : list (string * string)) :
  saved_from w (e :: cs)
  = if accepts w e then e :: saved_from w cs else saved_from w cs.
Proof. reflexivity. Qed.

Lemma opened_from_cons (w : World) (e : string * string)
    (cs : list (string * string)) :
  opened_from w (e :: cs)
  = if opens w e then e :: opened_from w cs else opened_from w cs.
Proof. reflexivity. Qed.

Lemma accepts_opens (w : World) (e : string * string) :
  accepts w e = true -> opens w e = true.
Proof. unfold accepts. intros H. now apply andb_true_iff in H. Qed.

Lemma save_one_spec (f c : string) (w : World) :
  stdout_ok w ->
  (if is_empty (Str.strip c) then ret false else _save_file f (Str.strip c)) w
  = Returns (accepts w (f, c))
            (if opens w (f, c) then write_entry w (f, c) else w).
Proof.
  intros Ok.
  unfold write_entry, stored, accepts, opens; cbn [fst snd].
  destruct (is_empty (Str.strip c)); cbn [negb andb]; [reflexivity |].
  rewrite (save_file_spec _ _ _ Ok).
  destruct (artifact_path w f) as [p|]; [| reflexivity].
  destruct (denied w p); cbn [negb andb]; [reflexivity |].
  destruct (write_error w p (Str.strip c)); reflexivity.
Qed.

Lemma save_matches_spec (message : string) (cs : list (string * string)) :
  forall w : World,
    stdout_ok w ->
    save_matches message cs w
    = Returns (map fst (saved_from w cs)) (write_all (opened_from w cs) w).
Proof.
  induction cs as [|[f c] cs IH]; intros w Ok; [reflexivity |].
  cbn [save_matches]. unfold bind at 1. rewrite (save_one_spec _ _ _ Ok).
  rewrite saved_from_cons, opened_from_cons.
  destruct (accepts w (f, c)) eqn:A.
  - rewrite (accepts_opens _ _ A).
    pose proof (same_system_write_entry w (f, c)) as S.
    pose proof (same_system_stdout_ok _ _ S Ok) as Ok'.
    unfold bind at 1. rewrite (print_ok _ _ _ Ok').
    unfold bind. rewrite (IH _ Ok').
    now rewrite (same_system_saved_from _ _ _ S), (same_system_opened_from _ _ _ S).
  - destruct (opens w (f, c)).
    + pose proof (same_system_write_entry w (f, c)) as S.
      pose proof (same_system_stdout_ok _ _ S Ok) as Ok'.
      unfold bind. cbn [ret]. rewrite (IH _ Ok').
      now rewrite (same_system_saved_from _ _ _ S), (same_system_opened_from _ _ _ S).
    + unfold bind. cbn [ret]. now rewrite (IH _ Ok).
Qed.

Lemma write_all_app (a b : list (string * string)) (w : World) :
  write_all (a ++ b) w = write_all b (write_all a w).
Proof. unfold write_all. apply fold_left_app. Qed.

Lemma saved_from_write_all (es cs : list (string * string)) (w : World) :
  saved_from (write_all es w) cs = saved_from w cs.
Proof. apply same_system_saved_from, same_system_write_all. Qed.

Lemma opened_from_write_all (es cs : list (string * string)) (w : World) :
  opened_from (write_all es w) cs = opened_from w cs.
Proof. apply same_system_opened_from, same_system_write_all. Qed.

Lemma artifact_path_write_all (es : list (string * string)) (f : string) (w : World) :
  artifact_path (write_all es w) f = artifact_path w f.
Proof. apply same_system_artifact_path, same_system_write_all. Qed.

Lemma stdout_ok_write_all (es : list (string * string)) (w : World) :
  stdout_ok w -> stdout_ok (write_all es w).
Proof. apply same_system_stdout_ok, same_system_write_all. Qed.

Lemma saved_from_app (w : World) (a b : list (string * string)) :
  saved_from w (a ++ b) = saved_from w a ++ saved_from w b.
Proof. apply List.filter_app. Qed.

Lemma opened_from_app (w : World) (a b : list (string * string)) :
  opened_from w (a ++ b) = opened_from w a ++ opened_from w b.
Proof. apply List.filter_app. Qed.

Lemma saved_from_accepts (w : World) (cs : list (string * string)) :
  Forall (fun e => accepts w e = true) (saved_from w cs).
Proof.
  unfold saved_from. apply Forall_forall. intros e H.
  apply list_elem_of_In, filter_In in H. tauto.
Qed.



Lemma opens_path (w : World) (e : string * string) :
  opens w e = true ->
  exists p, artifact_path w (fst e) = Some p /\ denied w p = false.
Proof.
  unfold opens. intros H. apply andb_true_iff in H. destruct H as (_ & H).
  destruct (artifact_path w (fst e)) as [p|]; [| discriminate].
  exists p. split; [reflexivity |]. now apply negb_true_iff.
Qed.

Lemma accepts_path (w : World) (e : string * string) :
  accepts w e = true ->
  exists p, artifact_path w (fst e) = Some p /\ denied w p = false.
Proof. intros H. now apply opens_path, accepts_opens. Qed.

Lemma accepts_stored (w : World) (e : string * string) :
  accepts w e = true -> stored w e = Str.strip (snd e).
Proof. intros H. unfold stored. now rewrite H. Qed.

Lemma disk_write_entry_other (w : World) (e : string * string) (p : string) :
  artifact_path w (fst e) <> Some p ->
  disk (write_entry w e) !! p = disk w !! p.
Proof.
  unfold write_entry. intros H.
  destruct (artifact_path w (fst e)) as [q|]; [| reflexivity].
  simpl. apply lookup_insert_ne. congruence.
Qed.


(** *** The keys of a dictionary *)

Lemma fromkeys_fold (l : list string) :
  forall acc : list string,
    NoDup acc ->
    NoDup (fold_left fromkeys_step l acc)
    /\ (forall x, x ∈ fold_left fromkeys_step l acc <-> x ∈ acc \/ x ∈ l)
    /\ exists tail, fold_left fromkeys_step l acc = acc ++ tail.
Proof.
  induction l as [|y l IH]; intros acc N; cbn [fold_left].
  - split; [exact N | split].
    + intros x. rewrite elem_of_nil. tauto.
    + exists []. now rewrite app_nil_r.
  - assert (N' : NoDup (fromkeys_step acc y)).
    { unfold fromkeys_step. case_bool_decide; [exact N |].
      apply NoDup_app. repeat split; [exact N | | apply NoDup_singleton].
      intros x Hx Hy. apply list_elem_of_singleton in Hy. now subst. }
    destruct (IH _ N') as (Nr & El & tail & Et).
    split; [exact Nr | split].
    + intros x. rewrite El, elem_of_cons.
      unfold fromkeys_step. case_bool_decide as D.
      * split; [tauto |]. intros [H | [-> | H]]; tauto.
      * rewrite elem_of_app, list_elem_of_singleton. tauto.
    + rewrite Et. unfold fromkeys_step. case_bool_decide.
      * now exists tail.
      * exists ([y] ++ tail). now rewrite app_assoc.
Qed.


Lemma dict_fromkeys_elem (l : list string) (x : string) :
  x ∈ dict_fromkeys l <-> x ∈ l.
Proof.
  destruct (fromkeys_fold l [] (NoDup_nil_2)) as (_ & H & _).
  unfold dict_fromkeys. rewrite H, elem_of_nil. tauto.
Qed.


(** *** The cascade *)

Lemma saved_from_markdown_matches (response_text : string) (w : World) :
  saved_from w (markdown_matches response_text w) = markdown_saves response_text w.
Proof.
  unfold markdown_matches, markdown_saves. rewrite saved_from_app.
  now destruct (saved_from w (markdown_named_matches response_text)).
Qed.

Lemma cascade_saves_matches (response_text : string) (w : World) :
  cascade_saves response_text w = saved_from w (cascade_matches response_text w).
Proof.
  unfold cascade_saves, cascade_matches.
  rewrite !saved_from_app, saved_from_markdown_matches.
  now destruct (_ <? 4).
Qed.


Lemma parse_markdown_format_spec (response_text : string) (w : World) :
  stdout_ok w ->
  _parse_markdown_format response_text w
  = Returns (map fst (markdown_saves response_text w))
            (write_all (opened_from w (markdown_matches response_text w)) w).
Proof.
  intros Ok.
  unfold _parse_markdown_format, markdown_saves, markdown_matches, bind.
  rewrite (save_matches_spec _ _ _ Ok), opened_from_app, write_all_app.
  destruct (saved_from w (markdown_named_matches response_text)) as [|e es] eqn:E.
  - cbv beta iota. cbn [map].
    rewrite save_matches_spec by now apply stdout_ok_write_all.
    cbn [map app]. unfold ret.
    now rewrite saved_from_write_all, opened_from_write_all.
  - unfold ret. now rewrite app_nil_r.
Qed.

Lemma parse_test_files_spec (response_text : string) (w : World) :
  run_ready w ->
  stdout_ok w ->
  _parse_test_files response_text w
  = Returns (dict_fromkeys (map fst (cascade_saves response_text w)))
            (write_all (cascade_writes response_text w) w).
Proof.
  intros (d & Hd & Hden) Ok.
  unfold _parse_test_files, _parse_filename_format, _parse_hash_format,
    _parse_by_content_mapping.
  unfold bind at 1. rewrite (print_ok _ _ _ Ok).
  unfold bind at 1. rewrite (print_ok _ _ _ Ok).
  unfold bind at 1. unfold get_TEST_OUTPUT_DIR. rewrite Hd.
  unfold bind at 1. unfold os_makedirs. rewrite Hden.
  unfold bind at 1. rewrite (print_ok _ _ _ Ok).
  set (m1 := Re.findall2 Pattern.filename_format response_text).
  set (m2 := Re.findall2 Pattern.hash_format response_text).
  set (m3 := markdown_matches response_text w).
  set (m4 := content_mapping_matches response_text).
  unfold bind at 1. rewrite (save_matches_spec _ _ _ Ok).
  pose proof (stdout_ok_write_all (opened_from w m1) w Ok) as Ok1.
  unfold bind at 1. rewrite (save_matches_spec _ _ _ Ok1).
  rewrite saved_from_write_all, opened_from_write_all.
  pose proof (stdout_ok_write_all (opened_from w m2) _ Ok1) as Ok2.
  unfold bind at 1. rewrite (parse_markdown_format_spec _ _ Ok2).
  assert (S2 : same_system w (write_all (opened_from w m2)
                                 (write_all (opened_from w m1) w))).
  { eapply same_system_trans; apply same_system_write_all. }
  assert (M3 : markdown_matches response_text
                 (write_all (opened_from w m2) (write_all (opened_from w m1) w))
               = m3).
  { unfold m3, markdown_matches. now rewrite (same_system_saved_from _ _ _ S2). }
  assert (V3 : markdown_saves response_text
                 (write_all (opened_from w m2) (write_all (opened_from w m1) w))
               = saved_from w m3).
  { rewrite <- saved_from_markdown_matches, M3.
    now rewrite (same_system_saved_from _ _ _ S2). }
  rewrite M3, V3, (same_system_opened_from _ _ _ S2).
  pose proof (stdout_ok_write_all (opened_from w m3) _ Ok2) as Ok3.
  set (w3 := write_all (opened_from w m3)
               (write_all (opened_from w m2) (write_all (opened_from w m1) w))) in *.
  assert (S3 : same_system w w3).
  { eapply same_system_trans; [exact S2 | apply same_system_write_all]. }
  assert (L : length (map fst (saved_from w m1) ++ map fst (saved_from w m2)
                      ++ map fst (saved_from w m3))
              = length (saved_from w (m1 ++ m2 ++ m3))).
  { now rewrite !saved_from_app, !length_app, !length_map. }
  assert (W3 : w3 = write_all (opened_from w (m1 ++ m2 ++ m3)) w).
  { unfold w3. now rewrite !opened_from_app, !write_all_app. }
  rewrite cascade_saves_matches. unfold cascade_writes, cascade_matches.
  fold m1 m2 m3 m4.
  unfold bind at 1. rewrite L.
  destruct (length (saved_from w (m1 ++ m2 ++ m3)) <? 4).
  - unfold bind at 1. rewrite (save_matches_spec _ _ _ Ok3).
    rewrite (same_system_saved_from _ _ _ S3), (same_system_opened_from _ _ _ S3).
    unfold ret at 1.
    pose proof (stdout_ok_write_all (opened_from w m4) _ Ok3) as Ok4.
    set (names := dict_fromkeys _).
    assert (N : names = dict_fromkeys (map fst (saved_from w ((m1 ++ m2 ++ m3) ++ m4)))).
    { unfold names. now rewrite !saved_from_app, !map_app, <- !app_assoc. }
    assert (W4 : write_all (opened_from w m4) w3
                 = write_all (opened_from w ((m1 ++ m2 ++ m3) ++ m4)) w).
    { rewrite W3, (opened_from_app w (m1 ++ m2 ++ m3)), write_all_app. reflexivity. }
    rewrite W4 in *. rewrite <- N.
    unfold bind at 1. rewrite (print_ok _ _ _ Ok4).
    unfold bind at 1. rewrite (print_ok _ _ _ Ok4).
    unfold bind. destruct names.
    + unfold report_nothing_saved, bind. now rewrite !(print_ok _ _ _ Ok4).
    + reflexivity.
  - unfold ret at 1.
    set (names := dict_fromkeys _).
    assert (N : names = dict_fromkeys (map fst (saved_from w ((m1 ++ m2 ++ m3) ++ [])))).
    { unfold names. now rewrite app_nil_r, !saved_from_app, !map_app. }
    rewrite W3 in *. rewrite app_nil_r in *. rewrite <- N.
    unfold bind at 1. rewrite (print_ok _ _ _ Ok3).
    unfold bind at 1. rewrite (print_ok _ _ _ Ok3).
    unfold bind. destruct names.
    + unfold report_nothing_saved, bind. now rewrite !(print_ok _ _ _ Ok3).
    + reflexivity.
Qed.

Lemma cascade_saves_accepts (response_text : string) (w : World) :
  Forall (fun e => accepts w e = true) (cascade_saves response_text w).
Proof. rewrite cascade_saves_matches. apply saved_from_accepts. Qed.

(** C2 as stated fails.  Outside a run the directory is not set and
    [os.makedirs] raises; on a console that does not hold the pictographs
    of the messages the first [print] raises.  Neither is under a
    [try]. *)
Lemma parse_test_files_raises :
  _parse_test_files "" unset_world = Raises TypeError unset_world
  /\ _parse_test_files two_labels ascii_console
     = Raises UnicodeEncodeError ascii_console.
Proof. split; vm_compute; reflexivity. Qed.

(** The message that shows the response is printed before anything is
    done: a response that the standard output does not take makes
    [_parse_test_files] raise, with nothing written. *)
Lemma parse_test_files_refused_response (response_text : string) (w : World) :
  stdout_refuses w "🔄 Parsing and saving test files from Ollama response" [] = false ->
  stdout_refuses w "📊 Raw test response: {}..." [VStr (Str.take 500 response_text)]
  = true ->
  _parse_test_files response_text w = Raises UnicodeEncodeError w.
Proof.
  intros H1 H2. unfold _parse_test_files.
  unfold bind at 1. unfold print at 1. rewrite H1.
  unfold bind at 1. unfold print at 1. now rewrite H2.
Qed.

(** C2, as the code has it.  In a run whose output directory is set and
    can be created and whose standard output takes the messages,
    [_parse_test_files] returns a list of filenames for every response
    text: no text makes it raise. *)
Theorem parse_test_files_returns (response_text : string) (w : World) :
  run_ready w ->
  stdout_ok w ->
  exists (files_saved : list string) (w' : World),
    _parse_test_files response_text w = Returns files_saved w'.
Proof.
  intros R Ok. rewrite (parse_test_files_spec _ _ R Ok). now eexists _, _.
Qed.

Lemma parse_test_files_returns_witness :
  exists (files_saved : list string) (w' : World),
    _parse_test_files open_fence fresh_world = Returns files_saved w'.
Proof.
  apply (parse_test_files_returns open_fence fresh_world).
  - exists "run_files/run_1/tests". split; reflexivity.
  - intros format args. reflexivity.
Defined.

Example parse_test_files_empty_text :
  _parse_test_files "" fresh_world = Returns [] fresh_world.
Proof. vm_compute. reflexivity. Qed.




(** The saves of that run, in order: the two saves of [a.spec.ts], then
    the block again under a generic name. *)
Example cascade_saves_label_then_named_fence :
  cascade_saves label_then_named_fence fresh_world
  = [ ("a.spec.ts",
       "some text" +:+ NL +:+ "a.spec.ts:" +:+ NL
       +:+ "```typescript" +:+ NL +:+ "foo" +:+ NL +:+ "```");
      ("a.spec.ts", "foo");
      ("test_1.spec.ts", "foo") ].
Proof. vm_compute. reflexivity. Qed.

(** Two filenames that lead to one file: the label names it
    [./a.spec.ts], the block [a.spec.ts]; both names are returned, and the
    one file holds the content of the block, saved last. *)
Example parse_test_files_two_names_one_file :
  match _parse_test_files dotted_label_then_named_fence dotted_world with
  | Returns files_saved w' =>
      files_saved = ["./a.spec.ts"; "a.spec.ts"; "test_1.spec.ts"]
      /\ artifact_path w' "./a.spec.ts" = artifact_path w' "a.spec.ts"
      /\ artifact w' "./a.spec.ts" = Some "foo"
      /\ artifact w' "a.spec.ts" = Some "foo"
  | Raises _ _ => False
  end.
Proof. vm_compute. repeat split. Qed.

(** C4 as stated fails.  The filename-label strategy saves [a.spec.ts];
    the markdown parser, run next, finds no named block and its
    bare-fence strategy saves the block, under the name it finds in the
    lines before it. *)
Lemma parse_markdown_format_after_label :
  match _parse_filename_format label_then_fence fresh_world with
  | Returns by_filename w1 =>
      by_filename = ["a.spec.ts"]
      /\ match _parse_hash_format label_then_fence w1 with
         | Returns by_hash w2 =>
             by_hash = []
             /\ markdown_named_matches label_then_fence = []
             /\ bare_block_matches label_then_fence = [("a.spec.ts", "foo")]
             /\ match _parse_markdown_format label_then_fence w2 with
                | Returns by_markdown w3 =>
                    by_markdown = ["a.spec.ts"]
                    /\ artifact w3 "a.spec.ts" = Some "foo"
                | Raises _ _ => False
                end
         | Raises _ _ => False
         end
  | Raises _ _ => False
  end.
Proof. vm_compute. repeat split. Qed.

(** C4, as the code has it.  The bare-fence strategy is gated on the
    markdown parser's own list: when the named-block strategy has saved a
    file the parser stops there, and when it has saved none the bare-fence
    strategy runs, on the disk as the named blocks have left it, whatever
    the strategies before have saved.  The standard output is one that
    takes the messages. *)
Theorem parse_markdown_format_gate (response_text : string) (w : World) :
  stdout_ok w ->
  (saved_from w (markdown_named_matches response_text) <> [] ->
   _parse_markdown_format response_text w
   = save_matches found_marker (markdown_named_matches response_text) w)
  /\ (saved_from w (markdown_named_matches response_text) = [] ->
      _parse_markdown_format response_text w
      = save_matches found_marker (bare_block_matches response_text)
          (write_all (opened_from w (markdown_named_matches response_text)) w)).
Proof.
  intros Ok.
  rewrite (parse_markdown_format_spec _ _ Ok), (save_matches_spec _ _ _ Ok).
  rewrite save_matches_spec by now apply stdout_ok_write_all.
  rewrite saved_from_write_all, opened_from_write_all.
  unfold markdown_saves, markdown_matches.
  rewrite opened_from_app, write_all_app.
  destruct (saved_from w (markdown_named_matches response_text)) as [|e es].
  - split; [intros H; now contradict H | intros _; reflexivity].
  - split; [intros _; now rewrite !app_nil_r | discriminate].
Qed.

Lemma parse_markdown_format_gate_witness :
  _parse_markdown_format label_then_named_fence fresh_world
  = save_matches found_marker (markdown_named_matches label_then_named_fence)
      fresh_world
  /\ _parse_markdown_format label_then_fence fresh_world
     = save_matches found_marker (bare_block_matches label_then_fence)
         (write_all (opened_from fresh_world (markdown_named_matches label_then_fence))
                    fresh_world).
Proof.
  split.
  - apply (proj1 (parse_markdown_format_gate label_then_named_fence fresh_world
                    (fun _ _ => eq_refl))).
    vm_compute. discriminate.
  - apply (proj2 (parse_markdown_format_gate label_then_fence fresh_world
                    (fun _ _ => eq_refl))).
    vm_compute. reflexivity.
Defined.

(** *** The scenario of two labelled files *)

Lemma two_labels_matches :
  Re.findall2 Pattern.filename_format two_labels
  = [("a.spec.ts", "hello" +:+ NL); ("b.spec.ts", "world")]
  /\ Re.findall2 Pattern.hash_format two_labels = []
  /\ markdown_named_matches two_labels = []
  /\ bare_block_matches two_labels = []
  /\ content_mapping_matches two_labels = [].
Proof. vm_compute. repeat split. Qed.

(** C9.  On the text of the scenario, in a run that is ready, whose
    standard output takes the messages and whose disk accepts the two
    files and their contents, [_parse_test_files] returns exactly
    [a.spec.ts] and [b.spec.ts], and has written [hello] to the first and
    [world] to the second. *)
Theorem parse_test_files_two_labels (w : World) (pa pb : string) :
  run_ready w ->
  stdout_ok w ->
  artifact_path w "a.spec.ts" = Some pa ->
  artifact_path w "b.spec.ts" = Some pb ->
  denied w pa = false ->
  denied w pb = false ->
  write_error w pa "hello" = None ->
  write_error w pb "world" = None ->
  _parse_test_files two_labels w
  = Returns ["a.spec.ts"; "b.spec.ts"]
            (with_disk w (<[pb := "world"]> (<[pa := "hello"]> (disk w)))).
Proof.
  intros R Ok Pa Pb Da Db Wa Wb.
  rewrite (parse_test_files_spec _ _ R Ok).
  assert (Aa : accepts w ("a.spec.ts", "hello" +:+ NL) = true).
  { unfold accepts, opens; cbn [fst snd]. rewrite Pa, Da.
    change (Str.strip ("hello" +:+ NL)) with "hello". rewrite Wa. reflexivity. }
  assert (Ab : accepts w ("b.spec.ts", "world") = true).
  { unfold accepts, opens; cbn [fst snd]. rewrite Pb, Db.
    change (Str.strip "world") with "world". rewrite Wb. reflexivity. }
  destruct two_labels_matches as (E1 & E2 & E3 & E4 & E5).
  assert (S : cascade_saves two_labels w
              = [("a.spec.ts", "hello" +:+ NL); ("b.spec.ts", "world")]).
  { unfold cascade_saves, markdown_saves. rewrite E1, E2, E3, E4, E5.
    rewrite !saved_from_cons, Aa, Ab. reflexivity. }
  assert (W : cascade_writes two_labels w
              = [("a.spec.ts", "hello" +:+ NL); ("b.spec.ts", "world")]).
  { unfold cascade_writes, cascade_matches, markdown_matches.
    rewrite E1, E2, E3, E4, E5.
    change (saved_from w []) with (@nil (string * string)).
    cbn [app]. rewrite !saved_from_cons, Aa, Ab.
    change (saved_from w []) with (@nil (string * string)).
    cbn [length Nat.ltb Nat.leb app].
    rewrite !opened_from_cons, (accepts_opens _ _ Aa), (accepts_opens _ _ Ab).
    reflexivity. }
  rewrite S, W. cbn [map fst].
  change (dict_fromkeys ["a.spec.ts"; "b.spec.ts"]) with ["a.spec.ts"; "b.spec.ts"].
  f_equal.
  cbn [write_all fold_left].
  unfold write_entry at 2; cbn [fst snd]. rewrite Pa.
  unfold write_entry; cbn [fst snd].
  rewrite artifact_path_with_disk, Pb.
  rewrite (accepts_stored _ _ Aa).
  unfold stored.
  rewrite (same_system_accepts _ _ _ (same_system_with_disk w _)), Ab.
  reflexivity.
Qed.

Lemma parse_test_files_two_labels_witness :
  _parse_test_files two_labels fresh_world
  = Returns ["a.spec.ts"; "b.spec.ts"]
      (with_disk fresh_world
         (<["run_files/run_1/tests/b.spec.ts" := "world"]>
            (<["run_files/run_1/tests/a.spec.ts" := "hello"]> (disk fresh_world)))).
Proof.
  apply (parse_test_files_two_labels fresh_world).
  - exists "run_files/run_1/tests". split; reflexivity.
  - intros format args. reflexivity.
  - reflexivity.
  - reflexivity.
  - reflexivity.
  - reflexivity.
  - reflexivity.
  - reflexivity.
Defined.

Example two_labels_artifacts :
  match _parse_test_files two_labels fresh_world with
  | Returns files_saved w' =>
      files_saved = ["a.spec.ts"; "b.spec.ts"]
      /\ artifact w' "a.spec.ts" = Some "hello"
      /\ artifact w' "b.spec.ts" = Some "world"
  | Raises _ _ => False
  end.
Proof. vm_compute. repeat split. Qed.

(** ** Dependency graph builder *)

Lemma closed_add_node (files : list string) (n : string) (g : DiGraph) :
  n ∈ map os_path_basename files ->
  closed_graph files g -> closed_graph files (add_node n g).
Proof.
  intros Hn (He & Hv). split; simpl.
  - intros u v H. destruct (He u v H).
    split; apply elem_of_union; now right.
  - intros m H. apply elem_of_union in H. destruct H as [H | H].
    + apply elem_of_singleton in H. now subst.
    + now apply Hv.
Qed.

Lemma closed_add_import_edge (files : list string) (filename imp : string) (g : DiGraph) :
  filename ∈ map os_path_basename files ->
  closed_graph files g ->
  closed_graph files (add_import_edge files filename g imp).
Proof.
  intros Hn (He & Hv). unfold add_import_edge.
  destruct (is_source_import imp); [| now split].
  case_bool_decide as Ht; [| now split].
  split; simpl.
  - intros u v H. apply elem_of_union in H. destruct H as [H | H].
    + apply elem_of_singleton in H. injection H as -> ->.
      split; rewrite !elem_of_union, !elem_of_singleton; auto.
    + destruct (He u v H). split; rewrite !elem_of_union; auto.
  - intros m H. rewrite !elem_of_union, !elem_of_singleton in H.
    destruct H as [-> | [-> | H]]; auto.
Qed.

Lemma nodes_add_import_edge (files : list string) (filename imp : string) (g : DiGraph) :
  nodes g ⊆ nodes (add_import_edge files filename g imp).
Proof.
  unfold add_import_edge.
  destruct (is_source_import imp); [| done].
  case_bool_decide; [| done].
  intros x Hx. simpl. rewrite !elem_of_union. auto.
Qed.

Lemma import_edges_fold (files : list string) (filename : string) (imports : list string) :
  forall g : DiGraph,
    filename ∈ map os_path_basename files ->
    closed_graph files g ->
    closed_graph files (fold_left (add_import_edge files filename) imports g)
    /\ nodes g ⊆ nodes (fold_left (add_import_edge files filename) imports g).
Proof.
  induction imports as [|imp imports IH]; intros g Hn C; [done |].
  cbn [fold_left].
  destruct (IH (add_import_edge files filename g imp) Hn) as (C' & S').
  - now apply closed_add_import_edge.
  - split; [exact C' |].
    etrans; [apply (nodes_add_import_edge files filename imp g) | exact S'].
Qed.

(** *** The loop, whatever the standard output takes *)

Lemma print_cases (format : string) (args : list value) (w : World) :
  print format args w = Returns tt w
  \/ print format args w = Raises UnicodeEncodeError w.
Proof. unfold print. destruct (stdout_refuses w format args); auto. Qed.

Lemma print_role_cases (role : Role) (filename : string) (w : World) :
  print_role role filename w = Returns tt w
  \/ print_role role filename w = Raises UnicodeEncodeError w.
Proof. destruct role; try (now left); apply print_cases. Qed.

(** A loop whose rounds return with the world as it is, or raise. *)
Lemma for_each_any {S X : Type} (body : S -> X -> M S) (P : S -> Prop)
    (e : exn) (l : list X) (w : World) :
  (forall st x, In x l -> P st ->
                (exists st', body st x w = Returns st' w /\ P st')
                \/ body st x w = Raises e w) ->
  forall st, P st ->
             (exists st', for_each body l st w = Returns st' w /\ P st')
             \/ for_each body l st w = Raises e w.
Proof.
  induction l as [|y l IH]; intros Hbody st Hst; [left; now exists st |].
  cbn [for_each]. unfold bind.
  destruct (Hbody st y) as [(st' & E & P') | E];
    [now left | exact Hst | | right; now rewrite E].
  rewrite E. apply IH; [| exact P'].
  intros st0 z Hz. apply Hbody. now right.
Qed.

(** The loop over the imports never raises by itself; it keeps the graph
    closed and loses no node, wherever a message ends it. *)
Lemma add_import_edges_any (files : list string) (filename : string)
    (imports : list string) (w : World) :
  filename ∈ map os_path_basename files ->
  forall g : DiGraph,
    closed_graph files g ->
    exists (g' : DiGraph) (e : option exn),
      add_import_edges files filename imports g w = Returns (g', e) w
      /\ closed_graph files g'
      /\ nodes g ⊆ nodes g'.
Proof.
  intros Hn. induction imports as [|imp imports IH]; intros g C.
  - now exists g, None.
  - cbn [add_import_edges].
    pose proof (closed_add_import_edge files filename imp g Hn C) as C1.
    pose proof (nodes_add_import_edge files filename imp g) as S1.
    unfold add_import_edge in C1, S1.
    destruct (is_source_import imp); [| now apply IH].
    case_bool_decide as Ht; [| now apply IH].
    unfold attempt.
    destruct (print_cases "ℹ️ Added edge: {} -> {}"
                [VStr filename; VStr (os_path_basename imp)] w) as [E | E];
      rewrite E.
    + destruct (IH _ C1) as (g' & e & E' & C' & S').
      exists g', e. split; [exact E' |]. split; [exact C' |].
      etrans; [exact S1 | exact S'].
    + eexists _, _. split; [reflexivity |]. now split.
Qed.

Lemma try_file_any (files : list string) (st : Built) (file_path : string)
    (w : World) :
  file_path ∈ files ->
  closed_graph files (fst (fst st)) ->
  exists (st' : Built) (e : option exn),
    try_file files st file_path (os_path_basename file_path) w = Returns (st', e) w
    /\ closed_graph files (fst (fst st'))
    /\ nodes (fst (fst st)) ⊆ nodes (fst (fst st')).
Proof.
  intros Hf C. destruct st as [[g roles] rmap]. simpl in C.
  assert (Hn : os_path_basename file_path ∈ map os_path_basename files).
  { apply list_elem_of_fmap. now exists file_path. }
  set (filename := os_path_basename file_path) in *.
  unfold try_file. unfold attempt at 1. unfold read_file.
  destruct (file_content w file_path) as [content|];
    [| eexists _, _; split; [reflexivity |]; now split].
  unfold attempt at 1.
  destruct (print_cases "📊 Imports in {}: {}"
              [VStr filename; VList (firstn 5 (_extract_imports content))] w)
    as [E | E]; rewrite E;
    [| eexists _, _; split; [reflexivity |]; now split].
  destruct (add_import_edges_any files filename (_extract_imports content) w Hn
              (add_node filename g)) as (g' & e & E' & C' & S').
  { now apply closed_add_node. }
  assert (S0 : nodes g ⊆ nodes g').
  { intros x Hx. apply S'. simpl. apply elem_of_union. now right. }
  unfold bind. rewrite E'. cbn [fst snd].
  destruct e as [e|]; [eexists _, _; split; [reflexivity |]; now split |].
  destruct (_extract_routes content) as [|route routes].
  - unfold attempt.
    destruct (print_role_cases
                (_classify_file_role filename content (_extract_imports content))
                filename w) as [E2 | E2]; rewrite E2;
      eexists _, _; (split; [reflexivity |]); now split.
  - unfold attempt at 1.
    destruct (print_cases "ℹ️ Route file: {} -> routes: {}"
                [VStr filename; VList (route :: routes)] w) as [E1 | E1]; rewrite E1;
      [| eexists _, _; split; [reflexivity |]; now split].
    unfold attempt.
    destruct (print_role_cases
                (_classify_file_role filename content (_extract_imports content))
                filename w) as [E2 | E2]; rewrite E2;
      eexists _, _; (split; [reflexivity |]); now split.
Qed.

(** One turn of the loop over the files returns with the world as it is,
    the graph closed and no node lost, or raises on a message. *)
Lemma process_file_any (files : list string) (st : Built) (file_path : string)
    (w : World) :
  file_path ∈ files ->
  closed_graph files (fst (fst st)) ->
  (exists st' : Built,
      process_file files st file_path w = Returns st' w
      /\ closed_graph files (fst (fst st')))
  \/ process_file files st file_path w = Raises UnicodeEncodeError w.
Proof.
  intros Hf C. unfold process_file, bind.
  destruct (print_cases "ℹ️ Processing: {}" [VStr (os_path_basename file_path)] w)
    as [E | E]; rewrite E; [| now right].
  destruct (try_file_any files st file_path w Hf C) as (st' & e & E' & C' & _).
  rewrite E'. unfold except_print. cbn [fst snd].
  destruct e as [e|]; [| left; now exists st'].
  unfold bind.
  destruct (print_cases "⚠️ Error processing {}: {}"
              [VStr (os_path_basename file_path); VExn e] w) as [E2 | E2];
    rewrite E2; [left; now exists st' | now right].
Qed.

(** *** The loop, when the standard output takes the messages *)

Lemma print_role_ok (role : Role) (filename : string) (w : World) :
  stdout_ok w -> print_role role filename w = Returns tt w.
Proof. intros Ok. destruct role; try reflexivity; now apply print_ok. Qed.

Lemma add_import_edges_ok (files : list string) (filename : string)
    (imports : list string) (w : World) :
  stdout_ok w ->
  forall g : DiGraph,
    add_import_edges files filename imports g w
    = Returns (fold_left (add_import_edge files filename) imports g, None) w.
Proof.
  intros Ok. induction imports as [|imp imports IH]; intros g; [reflexivity |].
  cbn [add_import_edges fold_left]. unfold add_import_edge at 2.
  destruct (is_source_import imp); [| apply IH].
  case_bool_decide; [| apply IH].
  unfold attempt. rewrite (print_ok _ _ _ Ok). apply IH.
Qed.

Lemma process_file_read (files : list string) (st : Built)
    (file_path content : string) (w : World) :
  stdout_ok w ->
  file_content w file_path = Some content ->
  process_file files st file_path w
  = Returns (processed files st (os_path_basename file_path) content) w.
Proof.
  intros Ok R. destruct st as [[g roles] rmap].
  unfold process_file, processed, try_file.
  unfold bind at 1. rewrite (print_ok _ _ _ Ok).
  unfold bind, attempt, read_file. rewrite R, (print_ok _ _ _ Ok).
  rewrite (add_import_edges_ok _ _ _ _ Ok). cbn [fst snd].
  destruct (_extract_routes content).
  - now rewrite (print_role_ok _ _ _ Ok).
  - now rewrite (print_ok _ _ _ Ok), (print_role_ok _ _ _ Ok).
Qed.

Lemma process_file_unread (files : list string) (st : Built)
    (file_path : string) (w : World) :
  stdout_ok w ->
  file_content w file_path = None ->
  process_file files st file_path w = Returns st w.
Proof.
  intros Ok R. destruct st as [[g roles] rmap].
  unfold process_file, try_file.
  unfold bind at 1. rewrite (print_ok _ _ _ Ok).
  unfold bind, attempt, read_file. rewrite R.
  unfold except_print. cbn [fst snd]. unfold bind. now rewrite (print_ok _ _ _ Ok).
Qed.

(** One turn of the loop over the files: the world is left as it is,
    the graph stays closed and loses no node, and a readable file gives
    its node. *)
Lemma process_file_closed (files : list string) (st : Built) (file_path : string) (w : World) :
  stdout_ok w ->
  file_path ∈ files ->
  closed_graph files (fst (fst st)) ->
  exists st' : Built,
    process_file files st file_path w = Returns st' w
    /\ closed_graph files (fst (fst st'))
    /\ nodes (fst (fst st)) ⊆ nodes (fst (fst st'))
    /\ (is_Some (file_content w file_path) ->
        os_path_basename file_path ∈ nodes (fst (fst st'))).
Proof.
  intros Ok Hf C.
  assert (Hn : os_path_basename file_path ∈ map os_path_basename files).
  { apply list_elem_of_fmap. now exists file_path. }
  destruct (file_content w file_path) as [content|] eqn:R.
  - rewrite (process_file_read _ _ _ _ _ Ok R).
    eexists. split; [reflexivity |].
    destruct st as [[g roles] rmap]. simpl in C. unfold processed. cbn [fst].
    destruct (import_edges_fold files (os_path_basename file_path)
                (_extract_imports content)
                (add_node (os_path_basename file_path) g) Hn) as (C' & S').
    { now apply closed_add_node. }
    split; [exact C' |]. simpl in S'. split.
    + intros x Hx. apply S', elem_of_union. now right.
    + intros _. apply S', elem_of_union. left. now apply elem_of_singleton.
  - rewrite (process_file_unread _ _ _ _ Ok R).
    exists st. split; [reflexivity |].
    split; [exact C |]. split; [done |].
    intros [? ?]. discriminate.
Qed.

Lemma for_each_closed (files l : list string) :
  forall (st : Built) (w : World),
    stdout_ok w ->
    (forall f, f ∈ l -> f ∈ files) ->
    closed_graph files (fst (fst st)) ->
    exists st' : Built,
      for_each (process_file files) l st w = Returns st' w
      /\ closed_graph files (fst (fst st'))
      /\ nodes (fst (fst st)) ⊆ nodes (fst (fst st'))
      /\ (forall f, f ∈ l -> is_Some (file_content w f) ->
                    os_path_basename f ∈ nodes (fst (fst st'))).
Proof.
  induction l as [|x l IH]; intros st w Ok Hl C.
  - exists st. split; [reflexivity |]. split; [exact C |]. split; [done |].
    intros f H. now apply elem_of_nil in H.
  - destruct (process_file_closed files st x w Ok) as (st1 & E1 & C1 & S1 & R1);
      [apply Hl; left | exact C |].
    destruct (IH st1 w Ok) as (st2 & E2 & C2 & S2 & R2);
      [intros f H; apply Hl; now right | exact C1 |].
    exists st2. cbn [for_each]. unfold bind. rewrite E1.
    split; [exact E2 |]. split; [exact C2 |].
    split; [intros n Hn; apply S2, S1, Hn |].
    intros f H Hr. apply elem_of_cons in H. destruct H as [-> | H].
    + apply S2, R1, Hr.
    + now apply R2.
Qed.

(** The builder around its loop: the messages before and after it. *)
Lemma build_dependency_graph_ok (files : list string) (st : Built) (w : World) :
  stdout_ok w ->
  for_each (process_file files) files (empty_graph, ∅, ∅) w = Returns st w ->
  _build_dependency_graph files w = Returns st w.
Proof.
  intros Ok E. unfold _build_dependency_graph.
  unfold bind at 1. rewrite (print_ok _ _ _ Ok).
  unfold bind at 1. rewrite (print_ok _ _ _ Ok).
  unfold bind at 1. rewrite E.
  unfold bind. now rewrite !(print_ok _ _ _ Ok).
Qed.

(** The builder returns with the world as it is and a closed graph, or
    raises on a message. *)
Lemma build_dependency_graph_any (files : list string) (w : World) :
  (exists st : Built,
      _build_dependency_graph files w = Returns st w
      /\ closed_graph files (fst (fst st)))
  \/ _build_dependency_graph files w = Raises UnicodeEncodeError w.
Proof.
  unfold _build_dependency_graph, bind.
  destruct (print_cases "🔄 Building dependency graph and classifying files" [] w)
    as [E | E]; rewrite E; [| now right].
  destruct (print_cases "ℹ️ Processing {} files for graph construction"
              [VInt (Z.of_nat (length files))] w) as [E1 | E1];
    rewrite E1; [| now right].
  destruct (for_each_any (process_file files)
              (fun st => closed_graph files (fst (fst st)))
              UnicodeEncodeError files w) with (st := (empty_graph, ∅, ∅) : Built)
    as [(st & E2 & C) | E2].
  - intros st x Hx C. apply process_file_any; [now apply list_elem_of_In | exact C].
  - split; simpl.
    + intros u v H. now apply elem_of_empty in H.
    + intros n H. now apply elem_of_empty in H.
  - rewrite E2.
    destruct (print_cases "✅ Dependency graph built: {} nodes, {} edges"
                [VInt (Z.of_nat (size (nodes (fst (fst st)))));
                 VInt (Z.of_nat (size (edges (fst (fst st)))))] w) as [E3 | E3];
      rewrite E3; [| now right].
    destruct (print_cases "📊 File roles distribution: {}" [VRoles (snd (fst st))] w)
      as [E4 | E4]; rewrite E4; [| now right].
    destruct (print_cases "📊 Route mapping: {}" [VRoutes (snd st)] w)
      as [E5 | E5]; rewrite E5; [| now right].
    left. now exists st.
  - rewrite E2. now right.
Qed.

(** C8.  Whenever the graph builder returns, for any list of files and
    any disk, each edge of its graph has its two ends among the nodes and
    each node is the basename of one of the files, so that no edge leads
    to a basename outside the collected files, and the world is as
    before.  It does return when the standard output takes its messages,
    and the basename of every file that can be read is then a node. *)
Theorem build_dependency_graph_closed (files : list string) (w : World) :
  (forall (graph : DiGraph) (file_roles : gmap string Role)
          (route_map : gmap string (list string)) (w' : World),
      _build_dependency_graph files w = Returns (graph, file_roles, route_map) w' ->
      w' = w
      /\ (forall u v, (u, v) ∈ edges graph -> u ∈ nodes graph /\ v ∈ nodes graph)
      /\ (forall n, n ∈ nodes graph -> n ∈ map os_path_basename files)
      /\ (forall u v, (u, v) ∈ edges graph ->
                      u ∈ map os_path_basename files
                      /\ v ∈ map os_path_basename files))
  /\ (stdout_ok w ->
      exists (graph : DiGraph) (file_roles : gmap string Role)
             (route_map : gmap string (list string)),
        _build_dependency_graph files w = Returns (graph, file_roles, route_map) w
        /\ (forall f, f ∈ files -> is_Some (file_content w f) ->
                      os_path_basename f ∈ nodes graph)).
Proof.
  split.
  - intros graph file_roles route_map w' E.
    destruct (build_dependency_graph_any files w) as [(st & E' & Ce & Cn) | E'];
      rewrite E' in E; [| discriminate].
    injection E as -> <-. cbn [fst] in *.
    split; [reflexivity |]. split; [exact Ce |]. split; [exact Cn |].
    intros u v H. destruct (Ce u v H). split; now apply Cn.
  - intros Ok.
    destruct (for_each_closed files files (empty_graph, ∅, ∅) w Ok)
      as ([[g roles] rmap] & E & _ & _ & R).
    + auto.
    + split; simpl.
      * intros u v H. now apply elem_of_empty in H.
      * intros n H. now apply elem_of_empty in H.
    + exists g, roles, rmap.
      split; [now apply build_dependency_graph_ok | exact R].
Qed.

Lemma build_dependency_graph_closed_witness :
  exists (graph : DiGraph) (file_roles : gmap string Role)
         (route_map : gmap string (list string)),
    _build_dependency_graph sample_files sample_tree
    = Returns (graph, file_roles, route_map) sample_tree
    /\ (forall u v, (u, v) ∈ edges graph -> u ∈ nodes graph /\ v ∈ nodes graph)
    /\ (forall n, n ∈ nodes graph -> n ∈ map os_path_basename sample_files)
    /\ (forall f, f ∈ sample_files -> is_Some (file_content sample_tree f) ->
                  os_path_basename f ∈ nodes graph).
Proof.
  destruct (proj2 (build_dependency_graph_closed sample_files sample_tree)
              (fun _ _ => eq_refl)) as (graph & file_roles & route_map & E & R).
  destruct (proj1 (build_dependency_graph_closed sample_files sample_tree)
              graph file_roles route_map sample_tree E) as (_ & Ce & Cn & _).
  exists graph, file_roles, route_map. auto.
Defined.

(** On the sample tree: the import of a collected file gives an edge, the
    imports of a package and of a missing file give none, and the file
    that cannot be read gives no node. *)
Example build_dependency_graph_sample :
  match _build_dependency_graph sample_files sample_tree with
  | Returns (graph, file_roles, _) _ =>
      elements (nodes graph) = ["App.jsx"; "Nav.jsx"]
      /\ elements (edges graph) = [("App.jsx", "Nav.jsx")]
      /\ file_roles !! "App.jsx" = Some Component
  | Raises _ _ => False
  end.
Proof. vm_compute. repeat split. Qed.
(** * Further properties *)

(** ** Test content of a response *)

Lemma extract_loop_in_block (filename : string) (rest : list string) :
  forall acc : list string,
    extract_loop filename rest true acc
    = acc ++ List.filter (kept_line filename) (until_close filename rest).
Proof.
  induction rest as [|line rest IH]; intros acc.
  - simpl. now rewrite app_nil_r.
  - assert (K : kept_line filename line
                = negb (Str.startswith (Str.strip line) (filename +:+ ":"))
                  && negb (Str.startswith (Str.strip line) "```typescript"))
      by reflexivity.
    assert (C : closes_block filename line
                = negb (Str.startswith (Str.strip line) (filename +:+ ":"))
                  && negb (Str.startswith (Str.strip line) "```typescript")
                  && String.eqb (Str.strip line) "```")
      by reflexivity.
    cbn [extract_loop until_close]. rewrite C.
    destruct (Str.startswith (Str.strip line) (filename +:+ ":"));
      cbn [negb andb] in *.
    + cbn [List.filter]. rewrite K. apply IH.
    + destruct (Str.startswith (Str.strip line) "```typescript");
        cbn [negb andb] in *.
      * cbn [List.filter]. rewrite K. apply IH.
      * destruct (String.eqb (Str.strip line) "```"); cbn [andb].
        -- now rewrite app_nil_r.
        -- cbn [List.filter]. rewrite K, IH, <- app_assoc. reflexivity.
Qed.

Lemma extract_loop_before_block (filename : string) (pre rest : list string) :
  Forall (fun l => opens_block filename l = false) pre ->
  extract_loop filename (pre ++ rest) false []
  = extract_loop filename rest false [].
Proof.
  induction 1 as [|line pre H _ IH]; [reflexivity |].
  cbn [app extract_loop].
  unfold opens_block, names_file in H.
  destruct (Str.startswith (Str.strip line) (filename +:+ ":")); [exact IH |].
  cbn [negb andb] in H. rewrite H.
  now rewrite andb_false_r.
Qed.

Lemma extract_loop_open (filename o : string) (rest : list string) :
  opens_block filename o = true ->
  extract_loop filename (o :: rest) false []
  = List.filter (kept_line filename) (until_close filename rest).
Proof.
  intros H. unfold opens_block, names_file in H.
  apply andb_true_iff in H. destruct H as (N & O).
  apply negb_true_iff in N.
  cbn [extract_loop]. rewrite N, O.
  now rewrite extract_loop_in_block.
Qed.

(** X1.  A line opens a typescript block when, once stripped, it starts
    with the typescript fence and not with the filename and a colon; it
    closes the block when, once stripped, it is the bare fence and
    nothing else.  When a response has an opening line, the extracted
    test is made of the lines after the first one, up to the first
    closing line or to the end of the response, without the lines that,
    once stripped, start with the filename and a colon or with the
    typescript fence; a fence under another tag inside the block is kept
    like any line.  The lines are kept as they stand, indentation
    included, and joined by newlines. *)
Theorem extract_test_content_block
    (response_text filename o : string) (pre rest : list string) :
  Str.split Str.nl response_text = pre ++ o :: rest ->
  Forall (fun l => opens_block filename l = false) pre ->
  opens_block filename o = true ->
  _extract_test_content_from_response response_text filename
  = str_join NL (List.filter (kept_line filename) (until_close filename rest)).
Proof.
  intros E Hpre Ho. unfold _extract_test_content_from_response.
  now rewrite E, (extract_loop_before_block _ _ _ Hpre), (extract_loop_open _ _ _ Ho).
Qed.

Lemma extract_test_content_block_witness :
  _extract_test_content_from_response sample_response "login.spec.ts"
  = str_join NL
      (List.filter (kept_line "login.spec.ts")
         (until_close "login.spec.ts"
            ["test('logs in', async ({ page }) => {";
             "  await page.goto('/login');";
             "});"; "```"; "Done."])).
Proof.
  apply (extract_test_content_block sample_response "login.spec.ts"
           "```typescript" ["Here is the test."; "login.spec.ts:"]).
  - vm_compute. reflexivity.
  - vm_compute. repeat constructor.
  - vm_compute. reflexivity.
Defined.

Example extract_test_content_sample :
  _extract_test_content_from_response sample_response "login.spec.ts"
  = "test('logs in', async ({ page }) => {" +:+ NL
    +:+ "  await page.goto('/login');" +:+ NL
    +:+ "});".
Proof. vm_compute. reflexivity. Qed.

(** X2.  A response without a line that opens a typescript block, be it
    plain text or a block under another language tag, gives the empty
    test. *)
Theorem extract_test_content_no_block (response_text filename : string) :
  Forall (fun l => opens_block filename l = false)
         (Str.split Str.nl response_text) ->
  _extract_test_content_from_response response_text filename = "".
Proof.
  intros H. unfold _extract_test_content_from_response.
  rewrite <- (app_nil_r (Str.split Str.nl response_text)).
  now rewrite (extract_loop_before_block _ _ [] H).
Qed.

Lemma extract_test_content_no_block_witness :
  _extract_test_content_from_response
    ("```ts" +:+ NL +:+ "test('x', () => {});" +:+ NL +:+ "```") "x.spec.ts"
  = "".
Proof.
  apply extract_test_content_no_block.
  vm_compute. repeat constructor.
Defined.

(** ** Loops that leave the world as it is *)

Lemma for_each_invariant {S X : Type} (body : S -> X -> M S)
    (P : S -> Prop) (l : list X) (w : World) :
  (forall st x, x ∈ l -> P st ->
                exists st', body st x w = Returns st' w /\ P st') ->
  forall st, P st ->
             exists st', for_each body l st w = Returns st' w /\ P st'.
Proof.
  induction l as [|x l IH]; intros Hbody st Hst.
  - exists st. now split.
  - destruct (Hbody st x) as (st1 & E1 & P1); [left | exact Hst |].
    destruct IH with (st := st1) as (st2 & E2 & P2); [| exact P1 |].
    + intros st' y Hy. apply Hbody. now right.
    + exists st2. cbn [for_each]. unfold bind. rewrite E1. now split.
Qed.

(** ** Validation of the saved tests *)

Lemma validate_step_spec (st : ValidationResults) (test_file : string) (w : World) :
  exists st',
    validate_step st test_file w = Returns st' w
    /\ valid_tests st' = valid_tests st + (if validates w test_file then 1 else 0)
    /\ invalid_tests st' = invalid_tests st + (if validates w test_file then 0 else 1)
    /\ length (validation_errors st')
       = length (validation_errors st) + (if validates w test_file then 0 else 1).
Proof.
  unfold validate_step, try_except, bind, get_TEST_OUTPUT_DIR, read_file, validates.
  destruct (file_content w (formatted_test_path (TEST_OUTPUT_DIR w) test_file)) as [c|].
  - unfold ret. destruct (has_test_structure c); eexists; (split; [reflexivity |]);
      simpl; rewrite ?length_app; simpl; repeat split; lia.
  - unfold ret. eexists. split; [reflexivity |].
    simpl. rewrite length_app. simpl. repeat split; lia.
Qed.

Lemma validate_loop_spec (test_files : list string) (w : World) :
  forall st : ValidationResults,
  exists st',
    for_each validate_step test_files st w = Returns st' w
    /\ valid_tests st'
       = valid_tests st + length (List.filter (validates w) test_files)
    /\ valid_tests st' + invalid_tests st'
       = valid_tests st + invalid_tests st + length test_files
    /\ length (validation_errors st') + valid_tests st'
       = length (validation_errors st) + valid_tests st + length test_files.
Proof.
  induction test_files as [|f fs IH]; intros st.
  - exists st. split; [reflexivity |]. simpl. repeat split; lia.
  - destruct (validate_step_spec st f w) as (st1 & E1 & V1 & I1 & L1).
    destruct (IH st1) as (st2 & E2 & V2 & T2 & L2).
    exists st2. cbn [for_each]. unfold bind. rewrite E1.
    split; [exact E2 |]. cbn [List.filter length].
    destruct (validates w f); cbn [length]; repeat split; lia.
Qed.

(** X3.  [_validate_tests] never raises and leaves the disk as it is.  It
    counts every listed name once, duplicates included: the total is the
    length of the list, the valid tests are the names whose file can be
    read and holds the import marker and a test marker, all the others
    are invalid, and there is one error message per invalid test. *)
Theorem validate_tests_counts (test_files : list string) (w : World) :
  exists r : ValidationResults,
    _validate_tests test_files w = Returns r w
    /\ total_tests r = length test_files
    /\ valid_tests r = length (List.filter (validates w) test_files)
    /\ valid_tests r + invalid_tests r = total_tests r
    /\ length (validation_errors r) = invalid_tests r.
Proof.
  unfold _validate_tests, bind.
  destruct (validate_loop_spec test_files w
              {| total_tests := 0; valid_tests := 0; invalid_tests := 0;
                 validation_errors := [] |}) as (st & E & V & T & L).
  rewrite E. eexists. split; [reflexivity |]. simpl in *.
  repeat split; lia.
Qed.




(** ** Stripping, once more *)

Lemma lstrip_fixed (s : string) :
  (forall c, Str.first_chr s = Some c -> Str.isspace c = false) ->
  Str.lstrip s = s.
Proof.
  destruct s as [|c s]; [reflexivity |].
  intros H. simpl. now rewrite (H c eq_refl).
Qed.

Lemma rstrip_fixed (s : string) :
  (forall c, Str.last_chr s = Some c -> Str.isspace c = false) ->
  Str.rstrip s = s.
Proof.
  induction s as [|c s IH]; [reflexivity |].
  intros H. simpl Str.rstrip. destruct s as [|d s].
  - simpl. now rewrite (H c eq_refl).
  - rewrite IH; [reflexivity |]. intros x Hx. apply H. exact Hx.
Qed.

Lemma strip_strip (s : string) : Str.strip (Str.strip s) = Str.strip s.
Proof.
  destruct (strip_stripped_form s) as (_ & Hf & Hl).
  unfold Str.strip at 1. rewrite (lstrip_fixed _ Hf). now apply rstrip_fixed.
Qed.

Lemma is_heading_strip (l : string) : is_heading (Str.strip l) = is_heading l.
Proof. unfold is_heading. now rewrite strip_strip. Qed.

Lemma render_strip (ls : list string) : render (map Str.strip ls) = render ls.
Proof.
  unfold render. rewrite map_map. f_equal.
  apply map_ext. intros l. now rewrite strip_strip.
Qed.

Lemma startswith_empty (s : string) : Str.startswith s "" = true.
Proof. now destruct s. Qed.

Lemma startswith_append (s t p : string) :
  Str.startswith s p = true -> Str.startswith (s +:+ t) p = true.
Proof.
  revert s. induction p as [|a p IH]; intros s H; [apply startswith_empty |].
  destruct s as [|b s]; [discriminate |].
  rewrite append_cons. simpl in *.
  apply andb_true_iff in H. destruct H as (E & H).
  now rewrite E, IH.
Qed.

Lemma endswith_refl (s : string) : Str.endswith s s = true.
Proof. destruct s; simpl; now rewrite ?String.eqb_refl, ?Ascii.eqb_refl. Qed.

Lemma endswith_append (a b : string) : Str.endswith (a +:+ b) b = true.
Proof.
  induction a as [|c a IH]; [apply endswith_refl |].
  rewrite append_cons. simpl. rewrite IH. apply orb_true_r.
Qed.

Lemma endswith_append_l (a b p : string) :
  Str.endswith b p = true -> Str.endswith (a +:+ b) p = true.
Proof.
  intros H. induction a as [|c a IH]; [exact H |].
  rewrite append_cons. simpl. rewrite IH. apply orb_true_r.
Qed.

Lemma render_ends (l : string) (ls : list string) :
  exists x, render (l :: ls) = x +:+ NL.
Proof.
  revert l. induction ls as [|l' ls IH]; intros l.
  - exists (Str.strip l). unfold render; simpl. now rewrite append_empty_r.
  - destruct (IH l') as (x & E). exists ((Str.strip l +:+ NL) +:+ x).
    rewrite render_cons, E, !append_assoc. reflexivity.
Qed.

(** ** Flow records *)

(** X5.  Every flow record is well formed: its filename is the one
    [_generate_flow_filename] derives from its name, its name carries no
    leading or trailing whitespace, and its content starts with the
    heading marker and ends with a newline. *)
Theorem parse_user_flows_records (doc : string) (f : Flow) :
  In f (_parse_user_flows doc) ->
  filename f = _generate_flow_filename (name f)
  /\ Str.strip (name f) = name f
  /\ Str.startswith (content f) "## Flow:" = true
  /\ Str.endswith (content f) NL = true.
Proof.
  rewrite parse_user_flows_group. intros H.
  apply in_map_iff in H. destruct H as (b & <- & Hb).
  destruct (group_shape (Str.split Str.nl doc)) as (_ & _ & Hbs).
  rewrite List.Forall_forall in Hbs. destruct (Hbs b Hb) as (Hh & _).
  unfold flow_of_block; simpl. split; [reflexivity |].
  split; [apply strip_strip |]. split.
  - rewrite render_cons, append_assoc. now apply startswith_append.
  - destruct (render_ends (fst b) (snd b)) as (x & ->). apply endswith_append.
Qed.

Lemma parse_user_flows_records_witness :
  filename {| name := "Create Item";
              content := "## Flow: Create Item" +:+ NL +:+ "step1" +:+ NL;
              filename := "create_item.spec.ts" |}
  = _generate_flow_filename "Create Item"
  /\ Str.strip "Create Item" = "Create Item"
  /\ Str.startswith ("## Flow: Create Item" +:+ NL +:+ "step1" +:+ NL) "## Flow:" = true
  /\ Str.endswith ("## Flow: Create Item" +:+ NL +:+ "step1" +:+ NL) NL = true.
Proof.
  apply (parse_user_flows_records
           ("  ## Flow: Create Item" +:+ NL +:+ "    step1"
            +:+ NL +:+ "## Flow: Delete Item")
           {| name := "Create Item";
              content := "## Flow: Create Item" +:+ NL +:+ "step1" +:+ NL;
              filename := "create_item.spec.ts" |}).
  vm_compute. left. reflexivity.
Defined.

Lemma all_append (p : ascii -> bool) (a b : string) :
  Str.all p (a +:+ b) = Str.all p a && Str.all p b.
Proof.
  induction a as [|c a IH]; [reflexivity |].
  rewrite append_cons. simpl. now rewrite IH, andb_assoc.
Qed.

Lemma strip_all (p : ascii -> bool) (s : string) :
  Str.all p s = true -> Str.all p (Str.strip s) = true.
Proof.
  destruct (strip_stripped_form s) as ((a & b & E & _) & _).
  intros H. rewrite E, !all_append in H.
  apply andb_true_iff in H. destruct H as (_ & H).
  apply andb_true_iff in H. tauto.
Qed.

Lemma split_one_line (s : string) :
  one_line s = true -> Str.split Str.nl s = [s].
Proof.
  induction s as [|c s IH]; [reflexivity |].
  unfold one_line. simpl. intros H.
  apply andb_true_iff in H. destruct H as (Hc & Hs).
  unfold Re.dot in Hc. apply negb_true_iff in Hc.
  rewrite Hc, (IH Hs). reflexivity.
Qed.

Lemma split_lines_one_line (s : string) :
  Forall (fun l => one_line l = true) (Str.split Str.nl s).
Proof.
  induction s as [|c s IH]; [repeat constructor |].
  simpl. destruct (Ascii.eqb c Str.nl) eqn:Hc.
  - constructor; [reflexivity | exact IH].
  - destruct (Str.split Str.nl s) as [|h t]; [repeat constructor |].
    + unfold one_line, Re.dot; simpl. now rewrite Hc.
    + inversion IH as [|? ? Hh Ht]; subst. constructor; [| exact Ht].
      unfold one_line, Re.dot in *; simpl. now rewrite Hc.
Qed.

Lemma split_join (l : string) (ls : list string) :
  Forall (fun x => one_line x = true) (l :: ls) ->
  Str.split Str.nl (str_join NL (l :: ls)) = l :: ls.
Proof.
  revert l. induction ls as [|l' ls IH]; intros l H.
  - inversion H; subst. now apply split_one_line.
  - inversion H as [|? ? Hl Hls]; subst.
    change (str_join NL (l :: l' :: ls)) with (l +:+ NL +:+ str_join NL (l' :: ls)).
    rewrite split_append, (split_one_line _ Hl), (IH _ Hls). reflexivity.
Qed.

Lemma group_map_strip (ls : list string) :
  group (map Str.strip ls)
  = (map Str.strip (fst (group ls)),
     map (fun b => (Str.strip (fst b), map Str.strip (snd b))) (snd (group ls))).
Proof.
  induction ls as [|l ls IH]; [reflexivity |].
  cbn [map group]. rewrite IH, is_heading_strip.
  destruct (group ls) as [body bs]. cbn [fst snd].
  now destruct (is_heading l).
Qed.

Lemma flow_of_block_strip (b : string * list string) :
  flow_of_block (Str.strip (fst b), map Str.strip (snd b)) = flow_of_block b.
Proof.
  unfold flow_of_block. cbn [fst snd].
  change (Str.strip (fst b) :: map Str.strip (snd b))
    with (map Str.strip (fst b :: snd b)).
  now rewrite render_strip, strip_strip.
Qed.

(** X6.  The indentation and the trailing whitespace of the lines of a
    flow document do not matter: the document whose lines are the
    stripped lines of [doc] gives the same flow records as [doc]. *)
Theorem parse_user_flows_stripped_lines (doc : string) :
  _parse_user_flows (str_join NL (map Str.strip (Str.split Str.nl doc)))
  = _parse_user_flows doc.
Proof.
  rewrite !parse_user_flows_group.
  destruct (split_cons doc) as (h & t & E). rewrite E.
  cbn [map]. rewrite split_join.
  - change (Str.strip h :: map Str.strip t) with (map Str.strip (h :: t)).
    rewrite group_map_strip. cbn [snd]. rewrite map_map.
    apply map_ext. intros b. apply flow_of_block_strip.
  - change (Str.strip h :: map Str.strip t) with (map Str.strip (h :: t)).
    rewrite <- E. apply Forall_map.
    eapply Forall_impl; [apply split_lines_one_line |].
    intros l Hl. now apply strip_all.
Qed.

(** ** Flow filenames *)

Lemma replace_from_all (p : ascii -> bool) (old new : string) :
  Str.all p new = true ->
  forall (s : string) (skip : nat),
    Str.all p s = true -> Str.all p (Str.replace_from old new s skip) = true.
Proof.
  intros Hnew. induction s as [|c s IH]; intros skip Hs.
  - simpl. now destruct old.
  - simpl in Hs. apply andb_true_iff in Hs. destruct Hs as (Hc & Hs).
    cbn [Str.replace_from]. destruct skip as [|k]; [| now apply IH].
    destruct old as [|o old'].
    + rewrite all_append, Hnew. simpl. now rewrite Hc, IH.
    + destruct (Str.startswith (String c s) (String o old')).
      * rewrite all_append, Hnew. now apply IH.
      * simpl. now rewrite Hc, IH.
Qed.

Lemma replace_all (p : ascii -> bool) (s old new : string) :
  Str.all p new = true -> Str.all p s = true ->
  Str.all p (Str.replace s old new) = true.
Proof. intros Hn Hs. now apply replace_from_all. Qed.

(** Replacing a character by a text without it leaves none of it. *)
Lemma replace_chr_gone (c : ascii) (new s : string) :
  Str.all (fun x => negb (Ascii.eqb x c)) new = true ->
  Str.all (fun x => negb (Ascii.eqb x c)) (Str.replace s (String c "") new) = true.
Proof.
  intros Hnew. unfold Str.replace. induction s as [|x s IH]; [reflexivity |].
  cbn [Str.replace_from Str.startswith String.length].
  destruct (Ascii.eqb c x) eqn:E.
  - rewrite startswith_empty. cbn [andb]. rewrite all_append, Hnew. exact IH.
  - cbn [andb]. simpl. rewrite Ascii.eqb_sym, E. exact IH.
Qed.

Lemma all_and (p q : ascii -> bool) (s : string) :
  Str.all p s = true -> Str.all q s = true ->
  Str.all (fun c => p c && q c) s = true.
Proof.
  induction s as [|c s IH]; [reflexivity |].
  simpl. intros Hp Hq.
  apply andb_true_iff in Hp, Hq. destruct Hp as (-> & Hp), Hq as (-> & Hq).
  now rewrite IH.
Qed.

Lemma all_ext (p q : ascii -> bool) (s : string) :
  (forall c, p c = q c) -> Str.all p s = Str.all q s.
Proof. intros H. induction s as [|c s IH]; [reflexivity |]. simpl. now rewrite H, IH. Qed.

(** X7.  A flow filename ends with [.spec.ts] and holds no space, no
    colon and no hyphen, whatever the name of the flow. *)
Theorem generate_flow_filename_shape (flow_name : string) :
  Str.endswith (_generate_flow_filename flow_name) ".spec.ts" = true
  /\ Str.all (fun c => negb (separator c)) (_generate_flow_filename flow_name) = true.
Proof.
  unfold _generate_flow_filename. split; [apply endswith_append |].
  set (s0 := Str.lower flow_name).
  set (s1 := Str.replace s0 " " "_").
  set (s2 := Str.replace s1 ":" "").
  set (s3 := Str.replace s2 "-" "_").
  set (s4 := Str.replace s3 "__" "_").
  set (sp := fun x => negb (Ascii.eqb x " ")).
  set (co := fun x => negb (Ascii.eqb x ":")).
  set (hy := fun x => negb (Ascii.eqb x "-")).
  assert (A1 : Str.all sp s1 = true) by (apply replace_chr_gone; reflexivity).
  assert (A2 : Str.all sp s2 = true) by (apply replace_all; [reflexivity | exact A1]).
  assert (B2 : Str.all co s2 = true) by (apply replace_chr_gone; reflexivity).
  assert (A3 : Str.all sp s3 = true) by (apply replace_all; [reflexivity | exact A2]).
  assert (B3 : Str.all co s3 = true) by (apply replace_all; [reflexivity | exact B2]).
  assert (C3 : Str.all hy s3 = true) by (apply replace_chr_gone; reflexivity).
  assert (A4 : Str.all sp s4 = true) by (apply replace_all; [reflexivity | exact A3]).
  assert (B4 : Str.all co s4 = true) by (apply replace_all; [reflexivity | exact B3]).
  assert (C4 : Str.all hy s4 = true) by (apply replace_all; [reflexivity | exact C3]).
  rewrite all_append. apply andb_true_iff. split; [| reflexivity].
  rewrite (all_ext _ (fun c => sp c && (co c && hy c))).
  - apply all_and; [exact A4 |]. now apply all_and.
  - intros c. unfold separator, sp, co, hy.
    now destruct (Ascii.eqb c " "), (Ascii.eqb c ":"), (Ascii.eqb c "-").
Qed.

(** What the derivation does not do: a run of underscores is halved, not
    reduced to one, and a slash stays. *)
Example generate_flow_filename_leftovers :
  _generate_flow_filename "Sign up - Step 2" = "sign_up__step_2.spec.ts"
  /\ _generate_flow_filename "Login/Logout" = "login/logout.spec.ts".
Proof. vm_compute. split; reflexivity. Qed.

Lemma replace_chr_map (c d : ascii) (s : string) :
  Str.replace s (String c "") (String d "") = map_chr (swap_chr c d) s.
Proof.
  unfold Str.replace. induction s as [|x s IH]; [reflexivity |].
  cbn [Str.replace_from Str.startswith String.length map_chr].
  unfold swap_chr at 1. rewrite Ascii.eqb_sym.
  destruct (Ascii.eqb x c); rewrite ?startswith_empty; cbn [andb].
  - rewrite IH. reflexivity.
  - now rewrite IH.
Qed.

Lemma replace_chr_filter (c : ascii) (s : string) :
  Str.replace s (String c "") "" = filter_chr (fun x => negb (Ascii.eqb x c)) s.
Proof.
  unfold Str.replace. induction s as [|x s IH]; [reflexivity |].
  cbn [Str.replace_from Str.startswith String.length filter_chr].
  rewrite Ascii.eqb_sym.
  destruct (Ascii.eqb x c); rewrite ?startswith_empty; cbn [andb negb].
  - rewrite IH. reflexivity.
  - now rewrite IH.
Qed.

Lemma lower_map (s : string) : Str.lower s = map_chr Str.lower_chr s.
Proof. induction s as [|c s IH]; [reflexivity |]. simpl. now rewrite IH. Qed.

Lemma map_chr_map_chr (f g : ascii -> ascii) (s : string) :
  map_chr f (map_chr g s) = map_chr (fun x => f (g x)) s.
Proof. induction s as [|c s IH]; [reflexivity |]. simpl. now rewrite IH. Qed.

Lemma map_chr_ext (f g : ascii -> ascii) (s : string) :
  (forall x, f x = g x) -> map_chr f s = map_chr g s.
Proof. intros H. induction s as [|c s IH]; [reflexivity |]. simpl. now rewrite H, IH. Qed.

Lemma map_chr_filter_chr (f : ascii -> ascii) (p : ascii -> bool) (s : string) :
  (forall x, p (f x) = p x) ->
  map_chr f (filter_chr p s) = filter_chr p (map_chr f s).
Proof.
  intros H. induction s as [|c s IH]; [reflexivity |].
  simpl. rewrite H. destruct (p c); simpl; now rewrite IH.
Qed.

Lemma filter_chr_ext (p q : ascii -> bool) (s : string) :
  (forall x, p x = q x) -> filter_chr p s = filter_chr q s.
Proof. intros H. induction s as [|c s IH]; [reflexivity |]. simpl. now rewrite H, IH. Qed.

(** The filename, from the characters of the name. *)
Lemma generate_flow_filename_chars (flow_name : string) :
  _generate_flow_filename flow_name
  = Str.replace
      (filter_chr (fun x => negb (Ascii.eqb x ":")) (map_chr flow_chr flow_name))
      "__" "_"
    +:+ ".spec.ts".
Proof.
  unfold _generate_flow_filename.
  rewrite (replace_chr_map " " "_"), (replace_chr_filter ":"), (replace_chr_map "-" "_").
  rewrite lower_map, map_chr_map_chr, map_chr_filter_chr, map_chr_map_chr.
  - reflexivity.
  - intros x. unfold swap_chr.
    destruct (Ascii.eqb x "-") eqn:E; [| reflexivity].
    apply Ascii.eqb_eq in E. now subst.
Qed.

Lemma flow_chr_lower (x : ascii) : flow_chr (Str.lower_chr x) = flow_chr x.
Proof. destruct x as [[] [] [] [] [] [] [] []]; reflexivity. Qed.

Lemma flow_chr_swap (c d x : ascii) :
  flow_chr c = "_"%char -> flow_chr d = "_"%char ->
  flow_chr (swap_chr c d x) = flow_chr x.
Proof.
  intros Hc Hd. unfold swap_chr. destruct (Ascii.eqb x c) eqn:E; [| reflexivity].
  apply Ascii.eqb_eq in E. subst. congruence.
Qed.

(** X8.  Flow names that differ only in letter case, or in a space, a
    hyphen or an underscore standing for one another, get the same
    filename, so that the test of the later flow is saved over the test
    of the earlier one. *)
Theorem generate_flow_filename_collisions (flow_name : string) :
  _generate_flow_filename (Str.lower flow_name) = _generate_flow_filename flow_name
  /\ _generate_flow_filename (Str.replace flow_name "-" " ")
     = _generate_flow_filename flow_name
  /\ _generate_flow_filename (Str.replace flow_name " " "_")
     = _generate_flow_filename flow_name
  /\ _generate_flow_filename (Str.replace flow_name "-" "_")
     = _generate_flow_filename flow_name.
Proof.
  rewrite !generate_flow_filename_chars.
  rewrite lower_map, !replace_chr_map, !map_chr_map_chr.
  repeat split; do 3 f_equal; apply map_chr_ext; intros x.
  - apply flow_chr_lower.
  - now apply flow_chr_swap.
  - now apply flow_chr_swap.
  - now apply flow_chr_swap.
Qed.

Example generate_flow_filename_same :
  _generate_flow_filename "Log In" = "log_in.spec.ts"
  /\ _generate_flow_filename "log-in" = "log_in.spec.ts".
Proof. vm_compute. split; reflexivity. Qed.

(** ** Roles and extensions *)

Lemma startswith_refl (s : string) : Str.startswith s s = true.
Proof. induction s as [|c s IH]; [reflexivity |]. simpl. now rewrite Ascii.eqb_refl. Qed.

Lemma endswith_contains (s p : string) :
  Str.endswith s p = true -> Str.contains p s = true.
Proof.
  induction s as [|c s IH]; cbn [Str.endswith Str.contains]; intros H.
  - rewrite orb_false_r in H. apply String.eqb_eq in H. subst. reflexivity.
  - apply orb_true_iff in H. destruct H as [H | H].
    + apply String.eqb_eq in H. subst p.
      now rewrite (startswith_refl (String c s)).
    + rewrite (IH H). apply orb_true_r.
Qed.

Lemma endswith_lower (s p : string) :
  Str.endswith s p = true -> Str.endswith (Str.lower s) (Str.lower p) = true.
Proof.
  induction s as [|c s IH]; cbn [Str.endswith]; intros H.
  - rewrite orb_false_r in H. apply String.eqb_eq in H. subst. reflexivity.
  - apply orb_true_iff in H. destruct H as [H | H].
    + apply String.eqb_eq in H. subst p. apply endswith_refl.
    + cbn [Str.lower Str.endswith]. rewrite (IH H). apply orb_true_r.
Qed.

(** X9.  A file whose name ends with [.tsx], [.jsx] or [.vue] is never
    given the role [Form] nor the role [Other]: it is a [Route], an [API]
    or a [Component], whatever its name says about forms. *)
Theorem classify_ui_extension (filename content : string) (imports : list string) :
  existsb (Str.endswith filename) [".tsx"; ".jsx"; ".vue"] = true ->
  _classify_file_role filename content imports <> Form
  /\ _classify_file_role filename content imports <> Other.
Proof.
  intros H.
  assert (E : existsb (fun ext => Str.contains ext (Str.lower filename))
                      [".tsx"; ".jsx"; ".vue"] = true).
  { cbn [existsb] in *. rewrite !orb_true_iff in *.
    destruct H as [H | [H | [H | H]]]; [| | | discriminate];
      apply endswith_lower, endswith_contains in H; auto. }
  unfold _classify_file_role. rewrite E.
  destruct (_ || _); [split; discriminate |].
  destruct (_ || _); split; discriminate.
Qed.

Lemma classify_ui_extension_witness :
  _classify_file_role "ContactForm.tsx" "" [] <> Form
  /\ _classify_file_role "ContactForm.tsx" "" [] <> Other.
Proof.
  apply classify_ui_extension. reflexivity.
Defined.

(** ** Saving files *)

Lemma world_eq (w1 w2 : World) :
  same_system w1 w2 ->
  disk w1 = disk w2 ->
  w1 = w2.
Proof.
  destruct w1, w2; simpl. intros (A1 & A2 & A3 & A4 & A5) D.
  simpl in *. now subst.
Qed.

Lemma same_system_stored (w w' : World) (e : string * string) :
  same_system w w' -> stored w' e = stored w e.
Proof. intros S. unfold stored. now rewrite (same_system_accepts _ _ _ S). Qed.

Lemma same_system_last_write (w w' : World) (p : string)
    (es : list (string * string)) :
  same_system w w' -> last_write w' p es = last_write w p es.
Proof.
  intros S. induction es as [|x es IH]; [reflexivity |].
  simpl. now rewrite IH, (same_system_artifact_path _ _ _ S),
           (same_system_stored _ _ _ S).
Qed.

Lemma disk_write_entry (w : World) (e : string * string) (p : string) :
  disk (write_entry w e) !! p
  = if bool_decide (artifact_path w (fst e) = Some p)
    then Some (stored w e) else disk w !! p.
Proof.
  case_bool_decide as H.
  - unfold write_entry. rewrite H. simpl. apply lookup_insert_eq.
  - now apply disk_write_entry_other.
Qed.

(** The disk after a list of writes, file by file. *)
Lemma disk_write_all (es : list (string * string)) (p : string) :
  forall w : World,
    disk (write_all es w) !! p
    = match last_write w p es with
      | Some c => Some c
      | None => disk w !! p
      end.
Proof.
  induction es as [|e es IH]; intros w; [reflexivity |].
  cbn [write_all fold_left]. fold (write_all es (write_entry w e)).
  rewrite IH, (same_system_last_write _ _ _ _ (same_system_write_entry w e)).
  cbn [last_write].
  destruct (last_write w p es); [reflexivity |].
  rewrite disk_write_entry. now case_bool_decide.
Qed.

Lemma last_write_inv (w : World) (p c : string) (es : list (string * string)) :
  last_write w p es = Some c ->
  exists e, In e es /\ artifact_path w (fst e) = Some p /\ c = stored w e.
Proof.
  induction es as [|x es IH]; [discriminate |].
  cbn [last_write]. destruct (last_write w p es) as [c'|].
  - intros [= <-]. destruct (IH eq_refl) as (e & He & P & E).
    exists e. split; [now right | now split].
  - case_bool_decide as H; [| discriminate].
    intros [= <-]. exists x. split; [now left | now split].
Qed.

Lemma last_write_none (w : World) (p : string) (es : list (string * string)) :
  last_write w p es = None ->
  forall e, In e es -> artifact_path w (fst e) <> Some p.
Proof.
  induction es as [|x es IH]; [intros _ e [] |].
  cbn [last_write]. destruct (last_write w p es) as [c'|]; [discriminate |].
  case_bool_decide as H; [discriminate |].
  intros _ e [<- | He]; [exact H | now apply IH].
Qed.






Example save_file_unset_directory :
  _save_file "a.spec.ts" "hello" unset_world = Returns false unset_world.
Proof. reflexivity. Qed.

(** A save whose messages the console does not take: the file is
    written, and [_save_file] raises on the message of the failure. *)
Example save_file_ascii_console :
  match _save_file "a.spec.ts" "hello" ascii_console with
  | Raises e w' =>
      e = UnicodeEncodeError /\ artifact w' "a.spec.ts" = Some "hello"
  | Returns _ _ => False
  end.
Proof. vm_compute. split; reflexivity. Qed.

(** A save on a full disk: the file that was there is emptied, and the
    answer is [false]. *)
Example save_file_full_disk :
  artifact full_disk "a.spec.ts" = Some "old"
  /\ match _save_file "a.spec.ts" "hello" full_disk with
     | Returns saved w' => saved = false /\ artifact w' "a.spec.ts" = Some ""
     | Raises _ _ => False
     end.
Proof. vm_compute. repeat split. Qed.

(** ** What the extractor writes *)

Lemma cascade_saves_write_all (response_text : string)
    (es : list (string * string)) (w : World) :
  cascade_saves response_text (write_all es w) = cascade_saves response_text w.
Proof.
  unfold cascade_saves, markdown_saves. now rewrite !saved_from_write_all.
Qed.

Lemma cascade_writes_write_all (response_text : string)
    (es : list (string * string)) (w : World) :
  cascade_writes response_text (write_all es w) = cascade_writes response_text w.
Proof.
  unfold cascade_writes, cascade_matches, markdown_matches.
  now rewrite opened_from_write_all, !saved_from_write_all.
Qed.

Lemma run_ready_write_all (es : list (string * string)) (w : World) :
  run_ready w -> run_ready (write_all es w).
Proof. apply same_system_run_ready, same_system_write_all. Qed.

Lemma writes_kept_accepts (w : World) (e : string * string) :
  writes_kept w -> accepts w e = opens w e.
Proof.
  intros K. unfold accepts. destruct (opens w e) eqn:O; [| reflexivity].
  destruct (opens_path _ _ O) as (p & P & _). rewrite P, K.
  now rewrite bool_decide_eq_true_2.
Qed.

Lemma writes_kept_cascade (response_text : string) (w : World) :
  writes_kept w -> cascade_writes response_text w = cascade_saves response_text w.
Proof.
  intros K. rewrite cascade_saves_matches. unfold cascade_writes.
  unfold opened_from, saved_from. apply filter_ext.
  intros e. symmetry. now apply writes_kept_accepts.
Qed.

(** X11.  In a run that is ready, on a standard output that takes the
    messages and a disk whose open files take every content, every
    filename that [_parse_test_files] returns has its file on disk, with
    a content that is not empty and carries no leading or trailing
    whitespace; and the extractor changes the disk at the files of the
    returned filenames only. *)
Theorem parse_test_files_artifacts (response_text : string) (w : World) :
  run_ready w ->
  stdout_ok w ->
  writes_kept w ->
  exists (files_saved : list string) (w' : World),
    _parse_test_files response_text w = Returns files_saved w'
    /\ (forall f, In f files_saved ->
                  exists c, artifact w' f = Some c
                            /\ is_empty c = false /\ Str.strip c = c)
    /\ (forall p, disk w' !! p <> disk w !! p ->
                  exists f, In f files_saved /\ artifact_path w f = Some p).
Proof.
  intros R Ok K. rewrite (parse_test_files_spec _ _ R Ok). eexists _, _.
  split; [reflexivity |].
  rewrite (writes_kept_cascade _ _ K).
  pose proof (cascade_saves_accepts response_text w) as A.
  rewrite List.Forall_forall in A.
  set (es := cascade_saves response_text w) in *.
  split.
  - intros f Hf.
    apply list_elem_of_In, dict_fromkeys_elem, list_elem_of_In, in_map_iff in Hf.
    destruct Hf as (e & <- & He).
    destruct (accepts_path _ _ (A e He)) as (p & P & _).
    unfold artifact. rewrite artifact_path_write_all, P, disk_write_all.
    destruct (last_write w p es) as [c|] eqn:L.
    + destruct (last_write_inv _ _ _ _ L) as (e' & He' & _ & ->).
      rewrite (accepts_stored _ _ (A e' He')).
      eexists. split; [reflexivity |]. split; [| apply strip_strip].
      specialize (A e' He'). apply accepts_opens in A. unfold opens in A.
      apply andb_true_iff in A. destruct A as (A & _).
      now apply negb_true_iff in A.
    + exfalso. exact (last_write_none _ _ _ L e He P).
  - intros p Hp. rewrite disk_write_all in Hp.
    destruct (last_write w p es) as [c|] eqn:L; [| now contradict Hp].
    destruct (last_write_inv _ _ _ _ L) as (e & He & P & _).
    exists (fst e). split; [| exact P].
    apply list_elem_of_In, dict_fromkeys_elem, list_elem_of_In, in_map_iff.
    now exists e.
Qed.

Lemma parse_test_files_artifacts_witness :
  exists (files_saved : list string) (w' : World),
    _parse_test_files label_then_fence fresh_world = Returns files_saved w'
    /\ (forall f, In f files_saved ->
                  exists c, artifact w' f = Some c
                            /\ is_empty c = false /\ Str.strip c = c)
    /\ (forall p, disk w' !! p <> disk fresh_world !! p ->
                  exists f, In f files_saved /\ artifact_path fresh_world f = Some p).
Proof.
  apply (parse_test_files_artifacts label_then_fence fresh_world).
  - exists "run_files/run_1/tests". split; reflexivity.
  - intros format args. reflexivity.
  - intros file content. reflexivity.
Defined.

(** X12.  In a run that is ready, on a standard output that takes the
    messages, running the extractor again on the same response changes
    nothing: the second run returns the same filenames and leaves the
    world of the first run as it is, also when some of the files do not
    take their content. *)
Theorem parse_test_files_again (response_text : string) (w : World) :
  run_ready w ->
  stdout_ok w ->
  exists (files_saved : list string) (w' : World),
    _parse_test_files response_text w = Returns files_saved w'
    /\ _parse_test_files response_text w' = Returns files_saved w'.
Proof.
  intros R Ok. rewrite (parse_test_files_spec _ _ R Ok). eexists _, _.
  split; [reflexivity |].
  rewrite (parse_test_files_spec _ _ (run_ready_write_all _ _ R)
             (stdout_ok_write_all _ _ Ok)).
  rewrite cascade_saves_write_all, cascade_writes_write_all. f_equal.
  set (es := cascade_writes response_text w).
  symmetry. apply world_eq.
  - apply same_system_write_all.
  - apply map_eq. intros p. rewrite !disk_write_all.
    rewrite (same_system_last_write _ _ _ _ (same_system_write_all es w)).
    now destruct (last_write w p es).
Qed.

Lemma parse_test_files_again_witness :
  exists (files_saved : list string) (w' : World),
    _parse_test_files label_then_named_fence fresh_world = Returns files_saved w'
    /\ _parse_test_files label_then_named_fence w' = Returns files_saved w'.
Proof.
  apply (parse_test_files_again label_then_named_fence fresh_world).
  - exists "run_files/run_1/tests". split; reflexivity.
  - intros format args. reflexivity.
Defined.
(** ** Content mapping *)

Lemma best_match_step_score (cl : string) (best : option string * nat)
    (entry : string * list string) :
  best_match_step cl best entry
  = if snd best <? indicator_score cl entry
    then (Some (fst entry), indicator_score cl entry) else best.
Proof. destruct best, entry. reflexivity. Qed.

(** The scan keeps the first entry of highest score, when a score is
    positive. *)
Lemma best_match_fold (cl : string) (l : list (string * list string)) :
  let r := fold_left (best_match_step cl) l (None, 0) in
  match fst r with
  | None => snd r = 0 /\ Forall (fun e => indicator_score cl e = 0) l
  | Some f =>
      exists pre e post,
        l = pre ++ e :: post /\ f = fst e /\ snd r = indicator_score cl e
        /\ 0 < indicator_score cl e
        /\ Forall (fun e' => indicator_score cl e' < indicator_score cl e) pre
        /\ Forall (fun e' => indicator_score cl e' <= indicator_score cl e) post
  end.
Proof.
  induction l as [|x l IH] using rev_ind; [simpl; split; [reflexivity | constructor] |].
  cbn zeta in *. rewrite fold_left_app. cbn [fold_left].
  rewrite best_match_step_score.
  destruct (fold_left (best_match_step cl) l (None, 0)) as [best score].
  cbn [fst snd] in *.
  destruct (score <? indicator_score cl x) eqn:C.
  - apply Nat.ltb_lt in C. cbn [fst snd].
    exists l, x, []. split; [reflexivity |]. split; [reflexivity |].
    split; [reflexivity |]. split; [lia |]. split; [| constructor].
    destruct best as [f|].
    + destruct IH as (pre & e & post & -> & _ & Es & _ & Hpre & Hpost).
      apply Forall_app. split.
      * eapply Forall_impl; [exact Hpre |]. intros e' H. simpl in H. lia.
      * constructor; [lia |].
        eapply Forall_impl; [exact Hpost |]. intros e' H. simpl in H. lia.
    + destruct IH as (_ & Hz).
      eapply Forall_impl; [exact Hz |]. intros e' H. simpl in H. lia.
  - apply Nat.ltb_ge in C. destruct best as [f|]; cbn [fst snd].
    + destruct IH as (pre & e & post & -> & Ef & Es & Hp & Hpre & Hpost).
      exists pre, e, (post ++ [x]).
      split; [now rewrite <- app_assoc |]. split; [exact Ef |].
      split; [exact Es |]. split; [exact Hp |]. split; [exact Hpre |].
      apply Forall_app. split; [exact Hpost |]. constructor; [lia | constructor].
    + destruct IH as (Es & Hz). split; [exact Es |].
      apply Forall_app. split; [exact Hz |]. constructor; [lia | constructor].
Qed.

(** X13.  The content mapping names a block after the expected file
    whose indicators it holds in greatest number, the first of them in
    the order of the table when several tie; a block that holds no
    indicator at all gets the generic name of its position. *)
Theorem mapped_filename_best (i : nat) (block_content : string) :
  let score := indicator_score (Str.lower block_content) in
  (Forall (fun e => score e = 0) expected_files
   /\ mapped_filename i block_content = generic_name i)
  \/ (exists pre e post,
         expected_files = pre ++ e :: post
         /\ mapped_filename i block_content = fst e
         /\ 0 < score e
         /\ Forall (fun e' => score e' < score e) pre
         /\ Forall (fun e' => score e' <= score e) post).
Proof.
  cbn zeta. unfold mapped_filename.
  pose proof (best_match_fold (Str.lower block_content) expected_files) as H.
  cbn zeta in H.
  destruct (fst (fold_left (best_match_step (Str.lower block_content))
                   expected_files (None, 0))) as [f|].
  - right. destruct H as (pre & e & post & E & -> & _ & Hp & Hpre & Hpost).
    exists pre, e, post. split; [exact E |]. split; [| now repeat split].
    assert (N : Forall (fun e => is_empty (fst e) = false) expected_files)
      by (repeat constructor).
    rewrite E in N. apply Forall_app in N. destruct N as (_ & N).
    inversion N as [|? ? Ne _]; subst. now rewrite Ne.
  - left. destruct H as (_ & Hz). now split.
Qed.

Example mapped_filename_tie :
  mapped_filename 0 "fill the form" = "flow.spec.ts"
  /\ mapped_filename 2 "nothing to see" = "test_3.spec.ts".
Proof. vm_compute. split; reflexivity. Qed.

(** ** What the patterns capture *)

Lemma greedy_star_inv (p : ascii -> bool) (k : string -> option Re.found)
    (m : Re.found) (s : string) :
  Re.greedy_star p s k = Some m ->
  exists a s', s = a +:+ s' /\ Str.all p a = true /\ k s' = Some m.
Proof.
  induction s as [|c s IH]; cbn [Re.greedy_star]; intros H.
  - exists "", "". now repeat split.
  - destruct (p c) eqn:Hc.
    + destruct (Re.greedy_star p s k) as [m'|] eqn:G.
      * injection H as ->. destruct (IH eq_refl) as (a & s' & -> & Ha & Hk).
        exists (String c a), s'. rewrite append_cons. simpl. now rewrite Hc, Ha.
      * exists "", (String c s). now repeat split.
    + exists "", (String c s). now repeat split.
Qed.

Lemma lazy_star_inv (p : ascii -> bool) (k : string -> option Re.found)
    (m : Re.found) (s : string) :
  Re.lazy_star p s k = Some m ->
  exists a s', s = a +:+ s' /\ Str.all p a = true /\ k s' = Some m.
Proof.
  induction s as [|c s IH]; cbn [Re.lazy_star]; intros H.
  - destruct (k "") eqn:K; [| discriminate].
    injection H as ->. exists "", "". now repeat split.
  - destruct (k (String c s)) as [m'|] eqn:K.
    + injection H as ->. exists "", (String c s). now repeat split.
    + destruct (p c) eqn:Hc; [| discriminate].
      destruct (IH H) as (a & s' & -> & Ha & Hk).
      exists (String c a), s'. rewrite append_cons. simpl. now rewrite Hc, Ha.
Qed.

Lemma strip_prefix_inv (l s s' : string) :
  Re.strip_prefix l s = Some s' -> s = l +:+ s'.
Proof.
  revert s. induction l as [|a l IH]; intros s H.
  - destruct s; simpl in H; injection H as <-; reflexivity.
  - destruct s as [|b s]; [discriminate |]. simpl in H.
    destruct (Ascii.eqb a b) eqn:E; [| discriminate].
    apply Ascii.eqb_eq in E. subst. rewrite append_cons. f_equal. now apply IH.
Qed.

(** A match goes on with its continuation, and leaves the groups that
    the pattern does not set as they were. *)
Lemma exec_frame (r : Re.re) :
  forall s g k m,
    Re.exec r s g k = Some m ->
    exists s' g', k s' g' = Some m
                  /\ forall i, ~ In i (groups_of r) -> g' i = g i.
Proof.
  induction r as [l | p | p | p | p | r1 IH1 r2 IH2 | r1 IH1 r2 IH2 | j r IH | r IH | ];
    intros s g k m H; cbn [Re.exec groups_of] in *.
  - destruct (Re.strip_prefix l s) as [s'|]; [| discriminate]. now exists s', g.
  - destruct s as [|c s]; [discriminate |].
    destruct (p c); [| discriminate]. now exists s, g.
  - apply greedy_star_inv in H. destruct H as (_ & s' & _ & _ & H). now exists s', g.
  - destruct s as [|c s]; [discriminate |].
    destruct (p c); [| discriminate].
    apply greedy_star_inv in H. destruct H as (_ & s' & _ & _ & H). now exists s', g.
  - apply lazy_star_inv in H. destruct H as (_ & s' & _ & _ & H). now exists s', g.
  - apply IH1 in H. destruct H as (s1 & g1 & H & F1).
    apply IH2 in H. destruct H as (s2 & g2 & H & F2).
    exists s2, g2. split; [exact H |]. intros i Hi.
    rewrite F2, F1; [reflexivity | |]; intros Hin; apply Hi, in_or_app; auto.
  - destruct (Re.exec r1 s g k) as [m'|] eqn:E1.
    + injection H as ->. apply IH1 in E1. destruct E1 as (s' & g' & H & F).
      exists s', g'. split; [exact H |]. intros i Hi. apply F.
      intros Hin. apply Hi, in_or_app. auto.
    + apply IH2 in H. destruct H as (s' & g' & H & F).
      exists s', g'. split; [exact H |]. intros i Hi. apply F.
      intros Hin. apply Hi, in_or_app. auto.
  - apply IH in H. destruct H as (s' & g' & H & F).
    exists s', (Re.set_group j (Re.consumed s s') g'). split; [exact H |].
    intros i Hi. unfold Re.set_group.
    destruct (Nat.eqb i j) eqn:E.
    + apply Nat.eqb_eq in E. subst. exfalso. apply Hi. now left.
    + apply F. intros Hin. apply Hi. now right.
  - destruct (Re.exec r s g (fun s' g' => Some (g', s'))) as [[g1 s1]|] eqn:E;
      [| discriminate].
    apply IH in E. destruct E as (s' & g' & E & F).
    injection E as -> ->. now exists s, g1.
  - destruct (Re.at_end s); [| discriminate]. now exists s, g.
Qed.

Lemma take_append (a b : string) : Str.take (String.length a) (a +:+ b) = a.
Proof.
  induction a as [|c a IH]; [now destruct b |].
  rewrite append_cons. simpl. now rewrite IH.
Qed.

Lemma consumed_append (a s' : string) : Re.consumed (a +:+ s') s' = a.
Proof.
  unfold Re.consumed. rewrite length_append.
  replace (String.length a + String.length s' - String.length s')
    with (String.length a) by lia.
  apply take_append.
Qed.

Lemma captures_sound (i : nat) (P : string -> Prop) (r : Re.re) :
  captures i P r ->
  forall s g k m,
    Re.exec r s g k = Some m ->
    exists s' g', k s' g' = Some m /\ P (g' i).
Proof.
  induction 1 as [r Hr | r rest Hr Hi | r1 r2 _ IH]; intros s g k m H.
  - cbn [Re.exec] in H. apply Hr in H. destruct H as (a & s' & -> & Pa & H).
    rewrite consumed_append in H.
    exists s', (Re.set_group i a g). split; [exact H |].
    unfold Re.set_group. now rewrite Nat.eqb_refl.
  - cbn [Re.exec] in H. apply Hr in H. destruct H as (a & s' & -> & Pa & H).
    rewrite consumed_append in H.
    apply exec_frame in H. destruct H as (s2 & g2 & H & F).
    exists s2, g2. split; [exact H |].
    rewrite (F i Hi). unfold Re.set_group. now rewrite Nat.eqb_refl.
  - cbn [Re.exec] in H. apply exec_frame in H.
    destruct H as (s1 & g1 & H & _). now apply IH in H.
Qed.

Lemma reads_plus (p : ascii -> bool) : reads (Re.Plus p) (run_of p).
Proof.
  intros s g k m H. cbn [Re.exec] in H.
  destruct s as [|c s]; [discriminate |].
  destruct (p c) eqn:Hc; [| discriminate].
  apply greedy_star_inv in H. destruct H as (a & s' & -> & Ha & H).
  exists (String c a), s'. rewrite append_cons.
  split; [reflexivity |]. split; [| exact H].
  split; [discriminate |]. simpl. now rewrite Hc, Ha.
Qed.

Lemma reads_plus_lit (p : ascii -> bool) (l : string) :
  reads (Re.Seq (Re.Plus p) (Re.Lit l))
        (fun a => exists x, a = x +:+ l /\ run_of p x).
Proof.
  intros s g k m H.
  change (Re.exec (Re.Plus p) s g (fun s' g' => Re.exec (Re.Lit l) s' g' k) = Some m)
    in H.
  apply (reads_plus p s g) in H. destruct H as (x & s1 & -> & Hx & H).
  cbn [Re.exec] in H.
  destruct (Re.strip_prefix l s1) as [s'|] eqn:E; [| discriminate].
  apply strip_prefix_inv in E. subst s1.
  exists (x +:+ l), s'. split; [now rewrite append_assoc |].
  split; [now exists x | exact H].
Qed.

Lemma match_here_captures (i : nat) (P : string -> Prop) (r : Re.re)
    (s : string) (g : Re.groups) (rest : string) :
  captures i P r -> Re.match_here r s = Some (g, rest) -> P (g i).
Proof.
  intros C H. unfold Re.match_here in H.
  destruct (captures_sound i P r C _ _ _ _ H) as (s' & g' & E & Pg).
  now injection E as -> ->.
Qed.

Lemma scan_matches (r : Re.re) (g : Re.groups) (s : string) :
  forall skip : nat,
    In g (Re.scan r s skip) ->
    exists s' rest, Re.match_here r s' = Some (g, rest).
Proof.
  induction s as [|c s IH]; intros skip H.
  - destruct skip; cbn [Re.scan] in H; [| destruct H].
    destruct (Re.match_here r "") as [[g' rest]|] eqn:E; [| destruct H].
    destruct H as [<- | []]. now exists "", rest.
  - destruct skip as [|n]; cbn [Re.scan] in H; [| now apply IH in H].
    destruct (Re.match_here r (String c s)) as [[g' rest]|] eqn:E.
    + destruct H as [<- | H]; [now exists (String c s), rest | now apply IH in H].
    + now apply IH in H.
Qed.

Lemma search_matches (r : Re.re) (m : Re.found) (s : string) :
  Re.search r s = Some m -> exists s', Re.match_here r s' = Some m.
Proof.
  induction s as [|c s IH]; cbn [Re.search]; intros H.
  - destruct (Re.match_here r "") eqn:E; [| discriminate].
    injection H as ->. now exists "".
  - destruct (Re.match_here r (String c s)) eqn:E.
    + injection H as ->. now exists (String c s).
    + now apply IH.
Qed.

Lemma findall_captures (i : nat) (P : string -> Prop) (r : Re.re)
    (s : string) (g : Re.groups) :
  captures i P r -> In g (Re.scan r s 0) -> P (g i).
Proof.
  intros C H. apply scan_matches in H. destruct H as (s' & rest & H).
  eapply match_here_captures; eassumption.
Qed.

Lemma reads_spec_name (p : ascii -> bool) :
  reads (Re.Seq (Re.Plus p) Pattern.spec_ts) spec_filename.
Proof.
  intros s g k m H. apply reads_plus_lit in H.
  destruct H as (a & s' & E & (x & -> & _) & H).
  exists (x +:+ ".spec.ts"), s'. split; [exact E |]. split; [| exact H].
  apply endswith_append.
Qed.

Lemma filename_format_captures : captures 1 spec_filename Pattern.filename_format.
Proof.
  unfold Pattern.filename_format. cbn [Re.seq].
  do 2 apply captures_later. apply captures_here; [apply reads_spec_name |].
  cbn. intuition discriminate.
Qed.

Lemma hash_format_captures : captures 1 spec_filename Pattern.hash_format.
Proof.
  unfold Pattern.hash_format. cbn [Re.seq].
  do 2 apply captures_later. apply captures_here; [apply reads_spec_name |].
  cbn. intuition discriminate.
Qed.

Lemma markdown_named_captures : captures 1 spec_filename Pattern.markdown_named.
Proof.
  unfold Pattern.markdown_named. cbn [Re.seq].
  apply captures_here; [apply reads_spec_name |].
  cbn. intuition discriminate.
Qed.

Lemma spec_name_captures : captures 1 spec_filename Pattern.spec_name.
Proof. apply captures_last, reads_spec_name. Qed.

Lemma findall2_names (r : Re.re) (text : string) (e : string * string) :
  captures 1 spec_filename r ->
  In e (Re.findall2 r text) -> spec_filename (fst e).
Proof.
  intros C H. unfold Re.findall2 in H. apply in_map_iff in H.
  destruct H as (g & <- & Hg). cbn [fst].
  exact (findall_captures 1 _ _ _ _ C Hg).
Qed.

Lemma generic_name_spec (i : nat) : spec_filename (generic_name i).
Proof.
  unfold spec_filename, generic_name.
  rewrite <- append_assoc. apply endswith_append.
Qed.

Lemma filename_in_lines_spec (lines : list string) (filename : string) :
  filename_in_lines lines = Some filename -> spec_filename filename.
Proof.
  induction lines as [|line lines IH]; [discriminate |].
  cbn [filename_in_lines].
  destruct (Str.contains ".spec.ts" line); [| exact IH].
  destruct (Re.search Pattern.spec_name line) as [[g rest]|] eqn:E; [| exact IH].
  intros [= <-]. apply search_matches in E. destruct E as (s' & E).
  exact (match_here_captures 1 _ _ _ _ _ spec_name_captures E).
Qed.

Lemma filename_from_context_spec (text : string) (i : nat) (block : string) :
  spec_filename (filename_from_context text i block).
Proof.
  unfold filename_from_context.
  destruct (filename_in_lines _) as [f|] eqn:E; [| apply generic_name_spec].
  destruct (is_empty f); [apply generic_name_spec |].
  exact (filename_in_lines_spec _ _ E).
Qed.

Lemma mapped_filename_spec (i : nat) (block : string) :
  spec_filename (mapped_filename i block).
Proof.
  unfold mapped_filename.
  pose proof (best_match_fold (Str.lower block) expected_files) as H.
  cbn zeta in H.
  destruct (fst (fold_left (best_match_step (Str.lower block))
                   expected_files (None, 0))) as [f|];
    [| apply generic_name_spec].
  destruct (is_empty f); [apply generic_name_spec |].
  destruct H as (pre & e & post & E & -> & _).
  assert (N : Forall (fun e => spec_filename (fst e)) expected_files)
    by (repeat constructor).
  rewrite E in N. apply Forall_app in N. destruct N as (_ & N).
  now inversion N.
Qed.

Lemma enumerated_names {A : Type} (f : nat -> A -> string) (l : list A)
    (e : string * A) (n : nat) :
  (forall i x, spec_filename (f i x)) ->
  In e (map (fun '(i, x) => (f i x, x)) (enumerate_from n l)) ->
  spec_filename (fst e).
Proof.
  intros Hf H. apply in_map_iff in H. destruct H as ([i x] & <- & _). apply Hf.
Qed.

(** What a computation that returns has gone through. *)
Lemma bind_returns {A B : Type} (m : M A) (k : A -> M B) (b : B) (w w' : World) :
  bind m k w = Returns b w' ->
  exists a w1, m w = Returns a w1 /\ k a w1 = Returns b w'.
Proof.
  unfold bind. destruct (m w) as [a w1|]; [| discriminate].
  intros H. now exists a, w1.
Qed.

(** The names that a strategy returns are names of its matches, whatever
    the disk and the standard output do. *)
Lemma save_matches_names (message : string) (cs : list (string * string)) :
  forall (w w' : World) (names : list string),
    save_matches message cs w = Returns names w' ->
    forall f, In f names -> In f (map fst cs).
Proof.
  induction cs as [|[f c] cs IH]; intros w w' names H.
  - injection H as <- _. intros f [].
  - cbn [save_matches] in H.
    apply bind_returns in H. destruct H as (saved & w1 & _ & H).
    apply bind_returns in H. destruct H as ([] & w2 & _ & H).
    apply bind_returns in H. destruct H as (rest & w3 & E & H).
    injection H as <- _. intros g Hg. cbn [map fst].
    destruct saved; [destruct Hg as [<- | Hg]; [now left |] |];
      right; exact (IH _ _ _ E g Hg).
Qed.

Lemma matches_names (response_text : string) :
  (forall e, In e (Re.findall2 Pattern.filename_format response_text) ->
             spec_filename (fst e))
  /\ (forall e, In e (Re.findall2 Pattern.hash_format response_text) ->
                spec_filename (fst e))
  /\ (forall e, In e (markdown_named_matches response_text) -> spec_filename (fst e))
  /\ (forall e, In e (bare_block_matches response_text) -> spec_filename (fst e))
  /\ (forall e, In e (content_mapping_matches response_text) ->
                spec_filename (fst e)).
Proof.
  split; [intros e; apply findall2_names, filename_format_captures |].
  split; [intros e; apply findall2_names, hash_format_captures |].
  split; [intros e; apply findall2_names, markdown_named_captures |].
  split.
  - intros e. apply enumerated_names. intros i x. apply filename_from_context_spec.
  - intros e. apply enumerated_names. intros i x. apply mapped_filename_spec.
Qed.

Lemma strategy_names (message : string) (cs : list (string * string))
    (w w' : World) (names : list string) :
  (forall e, In e cs -> spec_filename (fst e)) ->
  save_matches message cs w = Returns names w' ->
  forall f, In f names -> spec_filename f.
Proof.
  intros Hcs H f Hf.
  apply (save_matches_names _ _ _ _ _ H), in_map_iff in Hf.
  destruct Hf as (e & <- & He). now apply Hcs.
Qed.

(** X14.  Every filename that [_parse_test_files] returns ends with
    [.spec.ts], whatever the response, the disk and the standard output:
    the names the patterns capture, the names found in the lines before a
    block, the names of the content mapping and the generic names all
    do.  And it does return in a run that is ready, on a standard output
    that takes the messages. *)
Theorem parse_test_files_names (response_text : string) (w : World) :
  (forall (files_saved : list string) (w' : World),
      _parse_test_files response_text w = Returns files_saved w' ->
      forall f, In f files_saved -> Str.endswith f ".spec.ts" = true)
  /\ (run_ready w -> stdout_ok w ->
      exists (files_saved : list string) (w' : World),
        _parse_test_files response_text w = Returns files_saved w').
Proof.
  split.
  - intros files_saved w' H f Hf.
    destruct (matches_names response_text) as (N1 & N2 & N3 & N4 & N5).
    unfold _parse_test_files in H.
    apply bind_returns in H. destruct H as ([] & w1 & _ & H).
    apply bind_returns in H. destruct H as ([] & w2 & _ & H).
    apply bind_returns in H. destruct H as (dir & w3 & _ & H).
    apply bind_returns in H. destruct H as ([] & w4 & _ & H).
    apply bind_returns in H. destruct H as ([] & w5 & _ & H).
    apply bind_returns in H. destruct H as (by_filename & w6 & E1 & H).
    apply bind_returns in H. destruct H as (by_hash & w7 & E2 & H).
    apply bind_returns in H. destruct H as (by_markdown & w8 & E3 & H).
    apply bind_returns in H. destruct H as (all & w9 & E4 & H).
    apply bind_returns in H. destruct H as ([] & w10 & _ & H).
    apply bind_returns in H. destruct H as ([] & w11 & _ & H).
    apply bind_returns in H. destruct H as ([] & w12 & _ & H).
    injection H as <- _.
    apply (proj2 (list_elem_of_In _ _)), (proj1 (dict_fromkeys_elem _ _)),
      (proj1 (list_elem_of_In _ _)) in Hf.
    assert (A1 : forall g, In g by_filename -> spec_filename g)
      by exact (strategy_names _ _ _ _ _ N1 E1).
    assert (A2 : forall g, In g by_hash -> spec_filename g)
      by exact (strategy_names _ _ _ _ _ N2 E2).
    assert (A3 : forall g, In g by_markdown -> spec_filename g).
    { unfold _parse_markdown_format in E3.
      apply bind_returns in E3. destruct E3 as (named & v1 & F1 & E3).
      destruct named as [|x named].
      - apply bind_returns in E3. destruct E3 as (more & v2 & F2 & E3).
        injection E3 as <- _. cbn [app].
        exact (strategy_names _ _ _ _ _ N4 F2).
      - injection E3 as <- _. exact (strategy_names _ _ _ _ _ N3 F1). }
    assert (A : forall g, In g (by_filename ++ by_hash ++ by_markdown) ->
                          spec_filename g).
    { intros g Hg. rewrite !in_app_iff in Hg. destruct Hg as [Hg | [Hg | Hg]]; auto. }
    destruct (length (by_filename ++ by_hash ++ by_markdown) <? 4).
    + apply bind_returns in E4. destruct E4 as (by_content & v1 & F & E4).
      injection E4 as <- _. apply in_app_iff in Hf. destruct Hf as [Hf | Hf].
      * now apply A.
      * exact (strategy_names _ _ _ _ _ N5 F f Hf).
    + injection E4 as <- _. now apply A.
  - intros R Ok. rewrite (parse_test_files_spec _ _ R Ok). now eexists _, _.
Qed.

Lemma parse_test_files_names_witness :
  exists (files_saved : list string) (w' : World),
    _parse_test_files label_then_fence fresh_world = Returns files_saved w'
    /\ forall f, In f files_saved -> Str.endswith f ".spec.ts" = true.
Proof.
  destruct (proj2 (parse_test_files_names label_then_fence fresh_world))
    as (files_saved & w' & E).
  - exists "run_files/run_1/tests". split; reflexivity.
  - intros format args. reflexivity.
  - exists files_saved, w'. split; [exact E |].
    exact (proj1 (parse_test_files_names label_then_fence fresh_world)
             files_saved w' E).
Defined.

(** ** Imports and routes of a file *)

Ltac find_group :=
  first [ apply captures_here; [apply reads_plus | cbn; intuition discriminate]
        | apply captures_later; find_group ].

Lemma quoted_patterns_capture :
  Forall (captures 1 (run_of Re.nonquote))
         (Pattern.import_patterns ++ Pattern.route_patterns).
Proof.
  unfold Pattern.import_patterns, Pattern.route_patterns, Pattern.quoted.
  cbn [app Re.seq].
  repeat (apply List.Forall_cons; [find_group |]). apply List.Forall_nil.
Qed.

Lemma findall1_captures (P : string -> Prop) (patterns : list Re.re)
    (content x : string) :
  Forall (captures 1 P) patterns ->
  In x (List.concat (map (fun pattern => Re.findall1 pattern content) patterns)) ->
  P x.
Proof.
  intros C H. apply in_concat in H. destruct H as (l & Hl & Hx).
  apply in_map_iff in Hl. destruct Hl as (r & <- & Hr).
  rewrite List.Forall_forall in C.
  unfold Re.findall1 in Hx. apply in_map_iff in Hx.
  destruct Hx as (g & <- & Hg).
  exact (findall_captures 1 _ _ _ _ (C r Hr) Hg).
Qed.

Lemma list_set_elem (l : list string) (x : string) :
  In x (list_set l) <-> In x l.
Proof.
  unfold list_set.
  rewrite <- !list_elem_of_In, elem_of_elements, elem_of_list_to_set.
  reflexivity.
Qed.

Lemma list_set_NoDup (l : list string) : NoDup (list_set l).
Proof. unfold list_set. apply NoDup_elements. Qed.

(** X15.  The imports that [_extract_imports] returns and the routes that
    [_extract_routes] returns are without duplicates, and each of them is
    a text of one or more characters none of which is a quote. *)
Theorem extract_imports_shape (content : string) :
  (NoDup (_extract_imports content)
   /\ forall imp, In imp (_extract_imports content) ->
                  imp <> "" /\ Str.all Re.nonquote imp = true)
  /\ (NoDup (_extract_routes content)
      /\ forall route, In route (_extract_routes content) ->
                       route <> "" /\ Str.all Re.nonquote route = true).
Proof.
  pose proof quoted_patterns_capture as C.
  apply Forall_app in C. destruct C as (Ci & Cr).
  unfold _extract_imports, _extract_routes.
  split; (split; [apply list_set_NoDup |]).
  - intros imp H. apply (proj1 (list_set_elem _ _)) in H.
    exact (findall1_captures _ _ _ _ Ci H).
  - intros route H. apply (proj1 (list_set_elem _ _)) in H.
    exact (findall1_captures _ _ _ _ Cr H).
Qed.

(** ** The graph, edge by edge *)

Lemma for_each_progress {S X : Type} (body : S -> X -> M S)
    (P : S -> Prop) (Q : X -> S -> Prop) (l : list X) (w : World) :
  (forall st x, In x l -> P st ->
                exists st', body st x w = Returns st' w /\ P st' /\ Q x st') ->
  (forall st st' x y, In y l -> P st -> Q x st ->
                      body st y w = Returns st' w -> Q x st') ->
  forall st, P st ->
             exists st', for_each body l st w = Returns st' w
                         /\ P st'
                         /\ (forall x, In x l -> Q x st')
                         /\ (forall x, Q x st -> Q x st').
Proof.
  induction l as [|y l IH]; intros Hbody Hstable st Hst.
  - exists st. split; [reflexivity |]. split; [exact Hst |].
    split; [intros x [] | auto].
  - destruct (Hbody st y) as (st1 & E1 & P1 & Q1); [now left | exact Hst |].
    destruct IH with (st := st1) as (st2 & E2 & P2 & Q2 & K2); [| | exact P1 |].
    + intros st' x Hx. apply Hbody. now right.
    + intros st' st'' x z Hz. apply Hstable. now right.
    + exists st2. cbn [for_each]. unfold bind. rewrite E1.
      split; [exact E2 |]. split; [exact P2 |]. split.
      * intros x [<- | Hx]; [now apply K2 | now apply Q2].
      * intros x Hx. apply K2. eapply Hstable; [now left | exact Hst | exact Hx | exact E1].
Qed.

Lemma import_edges_fold_edges (files : list string) (filename : string)
    (imports : list string) (u v : string) :
  forall g : DiGraph,
    (u, v) ∈ edges (fold_left (add_import_edge files filename) imports g)
    <-> (u, v) ∈ edges g
        \/ (u = filename
            /\ exists imp, In imp imports /\ is_source_import imp = true
                           /\ v = os_path_basename imp
                           /\ In v (map os_path_basename files)).
Proof.
  induction imports as [|imp imports IH]; intros g; cbn [fold_left].
  - split; [auto |]. intros [H | (_ & imp & [] & _)]. exact H.
  - rewrite IH. clear IH.
    assert (Tail : forall i, In i imports -> In i (imp :: imports)) by (intros; now right).
    unfold add_import_edge.
    destruct (is_source_import imp) eqn:S; [case_bool_decide as T |].
    + simpl. rewrite elem_of_union, elem_of_singleton. split.
      * intros [[E | H] | (Eu & i & Hi & Hs & Hv & Hf)].
        -- injection E as Eu Ev. right. split; [exact Eu |].
           exists imp. split; [now left |]. split; [exact S |].
           split; [exact Ev |]. rewrite Ev. now apply list_elem_of_In.
        -- now left.
        -- right. split; [exact Eu |]. exists i. auto.
      * intros [H | (Eu & i & [Ei | Hi] & Hs & Hv & Hf)].
        -- left. now right.
        -- left. left. subst. reflexivity.
        -- right. split; [exact Eu |]. now exists i.
    + split.
      * intros [H | (Eu & i & Hi & Hs & Hv & Hf)]; [now left |].
        right. split; [exact Eu |]. exists i. auto.
      * intros [H | (Eu & i & [Ei | Hi] & Hs & Hv & Hf)]; [now left | |].
        -- exfalso. apply T. subst. now apply list_elem_of_In.
        -- right. split; [exact Eu |]. now exists i.
    + split.
      * intros [H | (Eu & i & Hi & Hs & Hv & Hf)]; [now left |].
        right. split; [exact Eu |]. exists i. auto.
      * intros [H | (Eu & i & [Ei | Hi] & Hs & Hv & Hf)]; [now left | congruence |].
        right. split; [exact Eu |]. now exists i.
Qed.

Lemma import_edges_fold_nodes (files : list string) (filename : string)
    (imports : list string) (n : string) :
  forall g : DiGraph,
    n ∈ nodes (fold_left (add_import_edge files filename) imports g) ->
    n ∈ nodes g \/ n = filename
    \/ exists imp, In imp imports /\ is_source_import imp = true
                   /\ n = os_path_basename imp
                   /\ In n (map os_path_basename files).
Proof.
  induction imports as [|imp imports IH]; intros g; cbn [fold_left]; [auto |].
  intros H. apply IH in H.
  destruct H as [H | [H | (i & Hi & Hs & Hn & Hf)]]; [| auto |].
  - unfold add_import_edge in H. destruct (is_source_import imp) eqn:S; [| auto].
    case_bool_decide as T; [| auto].
    simpl in H. rewrite !elem_of_union, !elem_of_singleton in H.
    destruct H as [-> | [-> | H]]; [auto | | auto].
    right. right. exists imp. split; [now left |]. split; [exact S |].
    split; [reflexivity | now apply list_elem_of_In].
  - right. right. exists i. split; [now right | auto].
Qed.

Lemma split_nonempty (sep : ascii) (s : string) :
  exists h t, Str.split sep s = h :: t.
Proof.
  destruct s as [|c s]; simpl; [now eexists _, _ |].
  destruct (Ascii.eqb c sep); [now eexists _, _ |].
  destruct (Str.split sep s); now eexists _, _.
Qed.

Lemma split_whole (sep : ascii) (s : string) :
  Str.all (fun c => negb (Ascii.eqb c sep)) s = true -> Str.split sep s = [s].
Proof.
  induction s as [|c s IH]; [reflexivity |].
  simpl. intros H. apply andb_true_iff in H. destruct H as (Hc & Hs).
  apply negb_true_iff in Hc. now rewrite Hc, (IH Hs).
Qed.

Lemma split_single (sep : ascii) (s h : string) :
  Str.split sep s = [h] -> h = s.
Proof.
  revert h. induction s as [|c s IH]; intros h; simpl.
  - now intros [= <-].
  - destruct (Ascii.eqb c sep).
    + destruct (split_nonempty sep s) as (x & t & ->). discriminate.
    + destruct (split_nonempty sep s) as (x & t & E). rewrite E in *.
      intros [= <- ->]. now rewrite (IH x eq_refl).
Qed.

Lemma last_cons_cons {A : Type} (x y : A) (l : list A) (d : A) :
  List.last (x :: y :: l) d = List.last (y :: l) d.
Proof. reflexivity. Qed.

(** A suffix without slash of a path is a suffix of its basename. *)
Lemma endswith_basename (p s : string) :
  Str.all (fun c => negb (Ascii.eqb c "/")) p = true ->
  Str.endswith s p = true ->
  Str.endswith (os_path_basename s) p = true.
Proof.
  intros Hp. unfold os_path_basename.
  induction s as [|c s IH]; [auto |].
  cbn [Str.endswith Str.split]. intros H.
  destruct (split_nonempty "/" s) as (h & t & E). rewrite E in *.
  destruct (Ascii.eqb c "/") eqn:Hc.
  - rewrite last_cons_cons. apply IH.
    apply orb_true_iff in H. destruct H as [H | H]; [| exact H].
    apply String.eqb_eq in H. subst p. simpl in Hp. now rewrite Hc in Hp.
  - destruct t as [|y t].
    + apply split_single in E. subst h. cbn [List.last Str.endswith]. exact H.
    + rewrite last_cons_cons. apply IH.
      apply orb_true_iff in H. destruct H as [H | H]; [| exact H].
      apply String.eqb_eq in H. subst p.
      simpl in Hp. apply andb_true_iff in Hp. destruct Hp as (_ & Hp).
      rewrite (split_whole _ _ Hp) in E. discriminate.
Qed.

Lemma is_source_import_basename (imp : string) :
  is_source_import imp = true -> is_source_import (os_path_basename imp) = true.
Proof.
  unfold is_source_import. cbn [existsb]. rewrite !orb_true_iff.
  intros [H | [H | [H | [H | H]]]]; [| | | | discriminate];
    apply endswith_basename in H; auto.
Qed.

Lemma import_edges_fold_mono (files : list string) (filename : string)
    (imports : list string) (n : string) :
  forall g : DiGraph,
    n ∈ nodes g ->
    n ∈ nodes (fold_left (add_import_edge files filename) imports g).
Proof.
  induction imports as [|imp imports IH]; intros g H; [exact H |].
  cbn [fold_left]. apply IH. now apply nodes_add_import_edge.
Qed.

(** X16.  On a standard output that takes the messages, the builder
    returns, and its graph has exactly the edges that the imports of
    the readable files give: an edge from the basename of
    a file to the basename of one of its imports, for the imports that
    end with [.tsx], [.jsx], [.ts] or [.js] and whose basename is the
    basename of a collected file.  So the target of an edge ends with one
    of these four extensions, an import written without extension gives
    no edge, and a node is the basename of a readable file or the target
    of an edge. *)
Theorem build_dependency_graph_edges (files : list string) (w : World) :
  stdout_ok w ->
  exists (graph : DiGraph) (file_roles : gmap string Role)
         (route_map : gmap string (list string)),
    _build_dependency_graph files w = Returns (graph, file_roles, route_map) w
    /\ (forall u v, (u, v) ∈ edges graph <-> import_edge files w u v)
    /\ (forall u v, (u, v) ∈ edges graph -> is_source_import v = true)
    /\ (forall n, n ∈ nodes graph
                  <-> readable_name files w n \/ exists u, (u, n) ∈ edges graph).
Proof.
  intros Ok.
  set (g_of := fun st : Built => fst (fst st)).
  set (P := fun st : Built =>
              (forall u v, (u, v) ∈ edges (g_of st) -> import_edge files w u v)
              /\ (forall n, n ∈ nodes (g_of st) ->
                            readable_name files w n
                            \/ exists u, (u, n) ∈ edges (g_of st))).
  set (Q := fun (f : string) (st : Built) =>
              (forall u v, import_edge files w u v -> u = os_path_basename f ->
                           (exists content imp,
                               file_content w f = Some content
                               /\ In imp (_extract_imports content)
                               /\ is_source_import imp = true
                               /\ v = os_path_basename imp) ->
                           (u, v) ∈ edges (g_of st))
              /\ (is_Some (file_content w f) -> os_path_basename f ∈ nodes (g_of st))).
  destruct (for_each_progress (process_file files) P Q files w)
    with (st := (empty_graph, ∅, ∅) : Built)
    as (st & E & (Pe & Pn) & HQ & _).
  - (* one file *)
    intros st f Hf (Pe & Pn).
    destruct (file_content w f) as [content|] eqn:R.
    + rewrite (process_file_read _ _ _ _ _ Ok R).
      eexists. split; [reflexivity |].
      destruct st as [[g roles] rmap]. unfold g_of, processed in *. cbn [fst] in *.
      split; [split | split].
      * intros u v H. apply import_edges_fold_edges in H.
        destruct H as [H | (-> & imp & Hi & Hs & -> & Hv)]; [now apply Pe |].
        exists f, content, imp. now repeat split.
      * intros n H. apply import_edges_fold_nodes in H.
        destruct H as [H | [-> | (imp & Hi & Hs & -> & Hv)]].
        -- simpl in H. apply elem_of_union in H. destruct H as [H | H].
           ++ apply elem_of_singleton in H. subst. left. exists f.
              split; [exact Hf |]. split; [now rewrite R | reflexivity].
           ++ destruct (Pn n H) as [Hr | (u & Hu)]; [now left |].
              right. exists u. apply import_edges_fold_edges. now left.
        -- left. exists f. split; [exact Hf |]. split; [now rewrite R | reflexivity].
        -- right. exists (os_path_basename f). apply import_edges_fold_edges.
           right. split; [reflexivity |]. now exists imp.
      * intros u v (f' & c' & i' & _ & _ & _ & _ & _ & _ & Hv) ->
               (c & imp & Hc & Hi & Hs & ->).
        rewrite R in Hc. injection Hc as <-.
        apply import_edges_fold_edges. right. split; [reflexivity |]. now exists imp.
      * intros _. apply import_edges_fold_mono. simpl.
        apply elem_of_union. left. now apply elem_of_singleton.
    + rewrite (process_file_unread _ _ _ _ Ok R).
      exists st. split; [reflexivity |]. split; [now split |]. split.
      * intros u v _ _ (c & imp & Hc & _). rewrite R in Hc. discriminate.
      * intros [c Hc]. rewrite R in Hc. discriminate.
  - (* what is found stays *)
    intros st st' x y Hy _ (Qe & Qn) E.
    assert (Mono : (forall e, e ∈ edges (g_of st) -> e ∈ edges (g_of st'))
                   /\ (forall n, n ∈ nodes (g_of st) -> n ∈ nodes (g_of st'))).
    { destruct (file_content w y) as [content|] eqn:R.
      - rewrite (process_file_read _ _ _ _ _ Ok R) in E. injection E as <-.
        destruct st as [[g roles] rmap]. unfold g_of, processed. cbn [fst].
        split.
        + intros [u v] H. apply import_edges_fold_edges. now left.
        + intros n H. apply import_edges_fold_mono. simpl.
          apply elem_of_union. now right.
      - rewrite (process_file_unread _ _ _ _ Ok R) in E. injection E as <-. now split. }
    destruct Mono as (Me & Mn). split.
    + intros u v H1 H2 H3. apply Me. now apply Qe.
    + intros H. apply Mn. now apply Qn.
  - split.
    + intros u v H. now apply elem_of_empty in H.
    + intros n H. now apply elem_of_empty in H.
  - destruct st as [[g roles] rmap]. unfold g_of in *. cbn [fst] in *.
    exists g, roles, rmap. split; [now apply build_dependency_graph_ok |].
    assert (Edges : forall u v, (u, v) ∈ edges g <-> import_edge files w u v).
    { intros u v. split; [apply Pe |].
      intros (f & content & imp & Hf & Hc & Hu & Hi & Hs & Hv & Hb).
      destruct (HQ f Hf) as (Qe & _). apply Qe; [| exact Hu |].
      - now exists f, content, imp.
      - now exists content, imp. }
    split; [exact Edges |]. split.
    + intros u v H. apply Edges in H.
      destruct H as (_ & _ & imp & _ & _ & _ & _ & Hs & -> & _).
      now apply is_source_import_basename.
    + intros n. split; [apply Pn |].
      intros [(f & Hf & Hr & ->) | (u & Hu)].
      * destruct (HQ f Hf) as (_ & Qn). now apply Qn.
      * destruct (for_each_closed files files (empty_graph, ∅, ∅) w Ok)
          as (st2 & E2 & (Ce & _) & _); [auto | | ].
        -- split; simpl; intros *; intros H; now apply elem_of_empty in H.
        -- rewrite E in E2.
           injection E2 as <-. cbn [fst] in Ce. now destruct (Ce u n Hu).
Qed.

Lemma build_dependency_graph_edges_witness :
  exists (graph : DiGraph) (file_roles : gmap string Role)
         (route_map : gmap string (list string)),
    _build_dependency_graph sample_files sample_tree
    = Returns (graph, file_roles, route_map) sample_tree
    /\ (forall u v, (u, v) ∈ edges graph <-> import_edge sample_files sample_tree u v)
    /\ (forall u v, (u, v) ∈ edges graph -> is_source_import v = true)
    /\ (forall n, n ∈ nodes graph
                  <-> readable_name sample_files sample_tree n
                      \/ exists u, (u, n) ∈ edges graph).
Proof.
  apply (build_dependency_graph_edges sample_files sample_tree).
  intros format args. reflexivity.
Defined.

Lemma classify_name_only (filename content : string) (imports : list string) :
  _classify_file_role filename content imports
  = _classify_file_role filename "" [].
Proof. reflexivity. Qed.

(** X17.  On a standard output that takes the messages, the roles that
    the builder returns are those of the readable files, by basename: a basename has a role exactly when a file with
    this basename can be read, and the role is the one its name alone
    gives, so that two files with one basename agree on it.  Every name
    with a role is a node of the graph, and the route map holds, for
    readable files only, lists of routes that are not empty and without
    duplicates. *)
Theorem build_dependency_graph_roles (files : list string) (w : World) :
  stdout_ok w ->
  exists (graph : DiGraph) (file_roles : gmap string Role)
         (route_map : gmap string (list string)),
    _build_dependency_graph files w = Returns (graph, file_roles, route_map) w
    /\ (forall n r, file_roles !! n = Some r
                    <-> readable_name files w n
                        /\ r = _classify_file_role n "" [])
    /\ (forall n, is_Some (file_roles !! n) -> n ∈ nodes graph)
    /\ (forall n routes, route_map !! n = Some routes ->
                         routes <> [] /\ NoDup routes /\ readable_name files w n).
Proof.
  intros Ok.
  set (P := fun st : Built =>
              let '(g, roles, rmap) := st in
              (forall n r, roles !! n = Some r ->
                           readable_name files w n
                           /\ r = _classify_file_role n "" [])
              /\ (forall n, is_Some (roles !! n) -> n ∈ nodes g)
              /\ (forall n routes, rmap !! n = Some routes ->
                                   routes <> [] /\ NoDup routes
                                   /\ readable_name files w n)).
  set (Q := fun (f : string) (st : Built) =>
              is_Some (file_content w f) ->
              snd (fst st) !! os_path_basename f
              = Some (_classify_file_role (os_path_basename f) "" [])).
  destruct (for_each_progress (process_file files) P Q files w)
    with (st := (empty_graph, ∅, ∅) : Built)
    as ([[g roles] rmap] & E & (Pr & Pn & Pm) & HQ & _).
  - intros [[g roles] rmap] f Hf (Pr & Pn & Pm).
    destruct (file_content w f) as [content|] eqn:R.
    + rewrite (process_file_read _ _ _ _ _ Ok R).
      eexists. split; [reflexivity |].
      assert (Hn : readable_name files w (os_path_basename f)).
      { exists f. split; [exact Hf |]. split; [now rewrite R | reflexivity]. }
      unfold P, Q, processed. cbn [fst snd]. split; [split; [| split] |].
      * intros n r H. rewrite lookup_insert in H. case_decide as D.
        -- subst n. injection H as <-. split; [exact Hn | apply classify_name_only].
        -- now apply Pr.
      * intros n H. rewrite lookup_insert in H. case_decide as D.
        -- subst n. apply import_edges_fold_mono. simpl.
           apply elem_of_union. left. now apply elem_of_singleton.
        -- apply import_edges_fold_mono. simpl.
           apply elem_of_union. right. now apply Pn.
      * intros n routes H.
        destruct (_extract_routes content) as [|x xs] eqn:Er; [now apply Pm |].
        rewrite lookup_insert in H. case_decide as D; [| now apply Pm].
        subst n. injection H as <-. split; [discriminate |]. split; [| exact Hn].
        rewrite <- Er. apply list_set_NoDup.
      * intros _. now rewrite lookup_insert_eq.
    + rewrite (process_file_unread _ _ _ _ Ok R).
      eexists. split; [reflexivity |]. split; [unfold P; auto |].
      intros [c Hc]. rewrite R in Hc. discriminate.
  - intros [[g roles] rmap] st' x y Hy _ Hx E. unfold Q in *. cbn [fst snd] in *.
    intros Hr. specialize (Hx Hr).
    destruct (file_content w y) as [content|] eqn:R.
    + rewrite (process_file_read _ _ _ _ _ Ok R) in E. injection E as <-.
      unfold processed. cbn [fst snd]. rewrite lookup_insert. case_decide as D.
      * rewrite <- D. reflexivity.
      * exact Hx.
    + rewrite (process_file_unread _ _ _ _ Ok R) in E. now injection E as <-.
  - unfold P. split; [| split].
    + intros n r H. now rewrite lookup_empty in H.
    + intros n [r H]. now rewrite lookup_empty in H.
    + intros n routes H. now rewrite lookup_empty in H.
  - exists g, roles, rmap.
    split; [now apply build_dependency_graph_ok |]. split; [| now split].
    intros n r. split; [apply Pr |].
    intros ((f & Hf & Hr & ->) & ->). now apply (HQ f Hf).
Qed.

Lemma build_dependency_graph_roles_witness :
  exists (graph : DiGraph) (file_roles : gmap string Role)
         (route_map : gmap string (list string)),
    _build_dependency_graph sample_files sample_tree
    = Returns (graph, file_roles, route_map) sample_tree
    /\ (forall n r, file_roles !! n = Some r
                    <-> readable_name sample_files sample_tree n
                        /\ r = _classify_file_role n "" [])
    /\ (forall n, is_Some (file_roles !! n) -> n ∈ nodes graph)
    /\ (forall n routes, route_map !! n = Some routes ->
                         routes <> [] /\ NoDup routes
                         /\ readable_name sample_files sample_tree n).
Proof.
  apply (build_dependency_graph_roles sample_files sample_tree).
  intros format args. reflexivity.
Defined.

(** ** Application analysis *)

(** A loop whose rounds return with the world as it is, or raise: what
    it has established when it returns. *)
Lemma for_each_any_progress {S X : Type} (body : S -> X -> M S)
    (P : S -> Prop) (Q : X -> S -> Prop) (e : exn) (l : list X) (w : World) :
  (forall st x, In x l -> P st ->
                (exists st', body st x w = Returns st' w /\ P st' /\ Q x st')
                \/ body st x w = Raises e w) ->
  (forall st st' x y, In y l -> P st -> Q x st ->
                      body st y w = Returns st' w -> Q x st') ->
  forall st, P st ->
             (exists st', for_each body l st w = Returns st' w
                          /\ P st'
                          /\ (forall x, In x l -> Q x st')
                          /\ (forall x, Q x st -> Q x st'))
             \/ for_each body l st w = Raises e w.
Proof.
  induction l as [|y l IH]; intros Hbody Hstable st Hst.
  - left. exists st. split; [reflexivity |]. split; [exact Hst |].
    split; [intros x [] | auto].
  - cbn [for_each]. unfold bind.
    destruct (Hbody st y) as [(st1 & E1 & P1 & Q1) | E1];
      [now left | exact Hst | | right; now rewrite E1].
    rewrite E1.
    destruct IH with (st := st1) as [(st2 & E2 & P2 & Q2 & K2) | E2];
      [| | exact P1 | |].
    + intros st' x Hx. apply Hbody. now right.
    + intros st' st'' x z Hz. apply Hstable. now right.
    + left. exists st2.
      split; [exact E2 |]. split; [exact P2 |]. split.
      * intros x [<- | Hx]; [now apply K2 | now apply Q2].
      * intros x Hx. apply K2.
        eapply Hstable; [now left | exact Hst | exact Hx | exact E1].
    + now right.
Qed.

Lemma analyze_file_read (analysis : AppAnalysis) (file_path content : string)
    (w : World) :
  file_content w file_path = Some content ->
  analyze_file analysis file_path w
  = Returns (analyzed analysis (os_path_basename file_path) content) w.
Proof.
  intros R. unfold analyze_file, try_except, bind, read_file. now rewrite R.
Qed.

Lemma analyze_file_unread (analysis : AppAnalysis) (file_path : string) (w : World) :
  file_content w file_path = None ->
  analyze_file analysis file_path w = Returns analysis w
  \/ analyze_file analysis file_path w = Raises UnicodeEncodeError w.
Proof.
  intros R. unfold analyze_file, try_except, bind, read_file. rewrite R.
  destruct (print_cases "⚠️ Error analyzing {}: {}"
              [VStr (os_path_basename file_path); VExn OSError] w) as [E | E];
    rewrite E; auto.
Qed.

Lemma analyze_file_unread_ok (analysis : AppAnalysis) (file_path : string) (w : World) :
  stdout_ok w ->
  file_content w file_path = None ->
  analyze_file analysis file_path w = Returns analysis w.
Proof.
  intros Ok R. unfold analyze_file, try_except, bind, read_file. rewrite R.
  now rewrite (print_ok _ _ _ Ok).
Qed.

(** The analysis returns on a standard output that takes the messages. *)
Lemma analyze_application_returns (files : list string) (w : World) :
  stdout_ok w ->
  exists a : AppAnalysis, _analyze_application_functionality files w = Returns a w.
Proof.
  intros Ok.
  destruct (for_each_invariant analyze_file (fun _ => True) files w)
    with (st := empty_analysis) as (a & E & _); [| exact I |].
  - intros a f _ _. destruct (file_content w f) as [content|] eqn:R.
    + rewrite (analyze_file_read _ _ _ _ R). now eexists.
    + rewrite (analyze_file_unread_ok _ _ _ Ok R). now eexists.
  - unfold _analyze_application_functionality.
    unfold bind at 1. rewrite (print_ok _ _ _ Ok).
    unfold bind at 1. rewrite E.
    unfold bind. rewrite (print_ok _ _ _ Ok). now eexists.
Qed.

Lemma analyze_loop_any (files : list string) (a0 : AppAnalysis) (w : World) :
  (exists a, for_each analyze_file files a0 w = Returns a w)
  \/ for_each analyze_file files a0 w = Raises UnicodeEncodeError w.
Proof.
  destruct (for_each_any analyze_file (fun _ => True) UnicodeEncodeError files w)
    with (st := a0) as [(a & E & _) | E]; [| exact I | left; now exists a | now right].
  intros st f _ _. destruct (file_content w f) as [content|] eqn:R.
  - left. rewrite (analyze_file_read _ _ _ _ R). now eexists.
  - destruct (analyze_file_unread st f w R) as [E | E]; rewrite E;
      [left; now eexists | now right].
Qed.

(** The analysis around its loop. *)
Lemma analyze_application_loop (files : list string) (a : AppAnalysis) (w w' : World) :
  _analyze_application_functionality files w = Returns a w' ->
  w' = w
  /\ exists analysis : AppAnalysis,
      for_each analyze_file files empty_analysis w = Returns analysis w
      /\ app_routes a = app_routes analysis
      /\ app_components a = app_components analysis
      /\ app_pages a = app_pages analysis
      /\ app_api_endpoints a = app_api_endpoints analysis
      /\ app_features a
         = _extract_features {| routes := app_routes analysis;
                                pages := app_pages analysis |}.
Proof.
  unfold _analyze_application_functionality. intros H.
  apply bind_returns in H. destruct H as ([] & w0 & E0 & H).
  destruct (print_cases "🔍 Performing comprehensive application analysis" [] w)
    as [E | E]; rewrite E in E0; [| discriminate].
  injection E0 as <-.
  apply bind_returns in H. destruct H as (analysis & w1 & E1 & H).
  destruct (analyze_loop_any files empty_analysis w) as [(a1 & E2) | E2];
    rewrite E2 in E1; [| discriminate].
  injection E1 as <- <-.
  apply bind_returns in H. destruct H as ([] & w2 & E3 & H).
  injection H as <- <-.
  match type of E3 with
  | print ?format ?args w = _ =>
      destruct (print_cases format args w) as [E4 | E4]; rewrite E4 in E3
  end; [| discriminate].
  injection E3 as <-.
  split; [reflexivity |]. exists a1. now repeat split.
Qed.

Lemma append_new_fold (prefix : string) (xs : list string) :
  forall l : list string,
    NoDup l -> Forall (fun x => Str.startswith x prefix = true) l ->
    NoDup (fold_left (append_new prefix) xs l)
    /\ Forall (fun x => Str.startswith x prefix = true)
              (fold_left (append_new prefix) xs l).
Proof.
  induction xs as [|x xs IH]; intros l N F; [now split |].
  cbn [fold_left]. apply IH; unfold append_new.
  - destruct (Str.startswith x prefix); cbn [andb]; [| exact N].
    case_bool_decide as D; cbn [negb]; [exact N |].
    apply NoDup_app. split; [exact N |]. split; [| apply NoDup_singleton].
    intros y Hy Hx. apply list_elem_of_singleton in Hx. now subst.
  - destruct (Str.startswith x prefix) eqn:S; cbn [andb]; [| exact F].
    case_bool_decide as D; cbn [negb]; [exact F |].
    apply Forall_app. split; [exact F |]. now constructor.
Qed.

(** With no page, none of the tags that are tested on pairs of a route
    and a page is emitted. *)
Lemma extract_features_without_pages (rs : list string) (tag : string) :
  In tag pair_features ->
  ~ In tag (_extract_features {| routes := rs; pages := [] |}).
Proof.
  intros Ht. unfold _extract_features. rewrite !any_route_page_no_pages.
  cbn [features_when app]. intros H.
  repeat (apply in_app_or in H; destruct H as [H | H];
          [match type of H with
           | In _ (features_when ?b _) => destruct b; simpl in H
           end;
           [destruct H as [<- | []]; simpl in Ht; intuition discriminate
           | destruct H] |]).
  match type of H with
  | In _ (features_when ?b _) => destruct b; simpl in H
  end;
    [destruct H as [<- | []]; simpl in Ht; intuition discriminate | destruct H].
Qed.

(** X18.  Whenever the analysis returns, the disk is as before, its
    routes are without duplicates and all start with a slash, its API
    endpoints are without duplicates and all start with [/api/], its list
    of components is empty, its pages are exactly the basenames of the
    readable files whose lower-cased name holds [page], [component],
    [view] or [screen], and its features are those of its routes and
    pages.  It does return on a standard output that takes the
    messages. *)
Theorem analyze_application_shape (files : list string) (w : World) :
  (forall (a : AppAnalysis) (w' : World),
      _analyze_application_functionality files w = Returns a w' ->
      w' = w
      /\ NoDup (app_routes a)
      /\ Forall (fun r => Str.startswith r "/" = true) (app_routes a)
      /\ NoDup (app_api_endpoints a)
      /\ Forall (fun e => Str.startswith e "/api/" = true) (app_api_endpoints a)
      /\ app_components a = []
      /\ (forall n, In n (app_pages a) <-> page_name files w n)
      /\ app_features a
         = _extract_features {| routes := app_routes a; pages := app_pages a |})
  /\ (stdout_ok w ->
      exists a : AppAnalysis, _analyze_application_functionality files w = Returns a w).
Proof.
  split; [| apply analyze_application_returns].
  intros a w' H.
  set (P := fun a : AppAnalysis =>
              NoDup (app_routes a)
              /\ Forall (fun r => Str.startswith r "/" = true) (app_routes a)
              /\ NoDup (app_api_endpoints a)
              /\ Forall (fun e => Str.startswith e "/api/" = true) (app_api_endpoints a)
              /\ app_components a = []
              /\ (forall n, In n (app_pages a) -> page_name files w n)).
  set (Q := fun (f : string) (a : AppAnalysis) =>
              is_Some (file_content w f) ->
              any_keyword page_keywords (Str.lower (os_path_basename f)) = true ->
              In (os_path_basename f) (app_pages a)).
  destruct (analyze_application_loop _ _ _ _ H)
    as (-> & analysis & E & Hr & Hc & Hp & Ha & Hf).
  split; [reflexivity |].
  rewrite Hf, Hr, Hc, Hp, Ha. clear H Hr Hc Hp Ha Hf a.
  destruct (for_each_any_progress analyze_file P Q UnicodeEncodeError files w)
    with (st := empty_analysis)
    as [(a & E' & (Nr & Fr & Na & Fa & C & Pp) & HQ & _) | E'].
  - intros a f Hf (Nr & Fr & Na & Fa & Hc & Hp).
    destruct (file_content w f) as [content|] eqn:R.
    + left. rewrite (analyze_file_read _ _ _ _ R). eexists. split; [reflexivity |].
      destruct (append_new_fold "/" (Re.findall1 AnalysisPattern.quoted_path content)
                  _ Nr Fr) as (Nr' & Fr').
      destruct (append_new_fold "/api/" (api_matches content) _ Na Fa) as (Na' & Fa').
      unfold P, Q, analyzed. cbn [app_routes app_api_endpoints app_components app_pages].
      split; [do 5 (split; [assumption |]) |].
      * intros n H.
        destruct (any_keyword page_keywords (Str.lower (os_path_basename f))) eqn:K;
          [| now apply Hp].
        apply in_app_or in H. destruct H as [H | [<- | []]]; [now apply Hp |].
        split; [| exact K]. exists f.
        split; [exact Hf |]. split; [now rewrite R | reflexivity].
      * intros _ K. rewrite K. apply in_or_app. right. now left.
    + destruct (analyze_file_unread a f w R) as [E0 | E0]; rewrite E0;
        [left | now right].
      exists a. split; [reflexivity |].
      split; [unfold P; auto 10 |].
      intros [c Hc']. rewrite R in Hc'. discriminate.
  - intros a a' x y Hy _ Hx E0 Hr K. specialize (Hx Hr K).
    destruct (file_content w y) as [content|] eqn:R.
    + rewrite (analyze_file_read _ _ _ _ R) in E0. injection E0 as <-.
      unfold analyzed. cbn [app_pages].
      destruct (any_keyword page_keywords (Str.lower (os_path_basename y)));
        [| exact Hx].
      apply in_or_app. now left.
    + destruct (analyze_file_unread a y w R) as [E1 | E1]; rewrite E1 in E0;
        [now injection E0 as <- | discriminate].
  - unfold P, empty_analysis. simpl.
    do 5 (split; [constructor |]). intros n [].
  - rewrite E' in E. injection E as <-.
    do 5 (split; [assumption |]). split; [| reflexivity].
    intros n. split; [apply Pp |].
    intros ((f & Hf & Hr & ->) & K). now apply (HQ f Hf).
  - rewrite E' in E. discriminate.
Qed.

Lemma analyze_application_shape_witness :
  exists a : AppAnalysis,
    _analyze_application_functionality ["src/App.jsx"] dashboard_tree
    = Returns a dashboard_tree
    /\ NoDup (app_routes a)
    /\ (forall n, In n (app_pages a) <-> page_name ["src/App.jsx"] dashboard_tree n).
Proof.
  destruct (proj2 (analyze_application_shape ["src/App.jsx"] dashboard_tree)
              (fun _ _ => eq_refl)) as (a & E).
  destruct (proj1 (analyze_application_shape ["src/App.jsx"] dashboard_tree)
              a dashboard_tree E) as (_ & N & _ & _ & _ & _ & Pg & _).
  exists a. auto.
Defined.

(** X19.  When no readable file has a name that makes it a page, an
    analysis that returns has no page and emits none of the tags
    Dashboard Management, Create, Edit and Delete Operations, Project
    Management and Content Management, whatever the routes of the
    application are; and the analysis returns on a standard output that
    takes the messages. *)
Theorem analyze_application_without_pages (files : list string) (w : World) :
  (forall n, ~ page_name files w n) ->
  (forall (a : AppAnalysis) (w' : World),
      _analyze_application_functionality files w = Returns a w' ->
      app_pages a = []
      /\ forall tag, In tag pair_features -> ~ In tag (app_features a))
  /\ (stdout_ok w ->
      exists a : AppAnalysis, _analyze_application_functionality files w = Returns a w).
Proof.
  intros Hno. split; [| apply analyze_application_returns].
  intros a w' H.
  destruct (analyze_application_loop _ _ _ _ H)
    as (_ & analysis & E & _ & _ & Hp & _ & Hfe).
  assert (Pg : app_pages analysis = []).
  { destruct (for_each_any analyze_file (fun a => app_pages a = [])
                UnicodeEncodeError files w)
      with (st := empty_analysis) as [(a1 & E1 & P1) | E1]; [| reflexivity | |].
    - intros st f Hf Hst. destruct (file_content w f) as [content|] eqn:R.
      + left. rewrite (analyze_file_read _ _ _ _ R). eexists. split; [reflexivity |].
        unfold analyzed. cbn [app_pages].
        destruct (any_keyword page_keywords (Str.lower (os_path_basename f))) eqn:K;
          [| exact Hst].
        exfalso. apply (Hno (os_path_basename f)). split; [| exact K].
        exists f. split; [exact Hf |]. split; [now rewrite R | reflexivity].
      + destruct (analyze_file_unread st f w R) as [E0 | E0]; rewrite E0;
          [left; now exists st | now right].
    - rewrite E1 in E. now injection E as <-.
    - rewrite E1 in E. discriminate. }
  rewrite Hp, Hfe, Pg. split; [reflexivity |].
  intros tag Ht. now apply extract_features_without_pages.
Qed.

Lemma analyze_application_without_pages_witness :
  exists a : AppAnalysis,
    _analyze_application_functionality ["src/App.jsx"] dashboard_tree
    = Returns a dashboard_tree
    /\ app_pages a = []
    /\ forall tag, In tag pair_features -> ~ In tag (app_features a).
Proof.
  assert (Hno : forall n, ~ page_name ["src/App.jsx"] dashboard_tree n).
  { intros n ((f & [<- | []] & _ & ->) & K). vm_compute in K. discriminate. }
  destruct (proj2 (analyze_application_without_pages ["src/App.jsx"] dashboard_tree Hno)
              (fun _ _ => eq_refl)) as (a & E).
  exists a. split; [exact E |].
  exact (proj1 (analyze_application_without_pages ["src/App.jsx"] dashboard_tree Hno)
           a dashboard_tree E).
Defined.

Example analyze_application_dashboard :
  match _analyze_application_functionality ["src/App.jsx"] dashboard_tree with
  | Returns a _ =>
      app_routes a = ["/dashboard"] /\ app_pages a = [] /\ app_features a = []
  | Raises _ _ => False
  end.
Proof. vm_compute. repeat split. Qed.
(** ** Source collection *)



(** A loop in which one round raises whatever the state, the other
    rounds returning or raising the same exception. *)
Lemma for_each_raises {S X : Type} (body : S -> X -> M S) (e : exn)
    (l : list X) (w : World) (x : X) :
  (forall st y, In y l ->
                (exists st', body st y w = Returns st' w)
                \/ body st y w = Raises e w) ->
  In x l -> (forall st, body st x w = Raises e w) ->
  forall st, for_each body l st w = Raises e w.
Proof.
  induction l as [|y l IH]; intros Hbody Hx Hr st; [destruct Hx |].
  cbn [for_each]. unfold bind.
  destruct Hx as [-> | Hx]; [now rewrite Hr |].
  destruct (Hbody st y) as [(st' & E) | E]; [now left | | now rewrite E].
  rewrite E. apply IH; auto. intros st0 z Hz. apply Hbody. now right.
Qed.

Lemma for_each_returns_or_raises {S X : Type} (body : S -> X -> M S) (e : exn)
    (l : list X) (w : World) :
  (forall st y, In y l ->
                (exists st', body st y w = Returns st' w)
                \/ body st y w = Raises e w) ->
  forall st, (exists st', for_each body l st w = Returns st' w)
             \/ for_each body l st w = Raises e w.
Proof.
  intros Hbody st.
  destruct (for_each_any body (fun _ => True) e l w) with (st := st)
    as [(st' & E & _) | E]; [| exact I | left; now exists st' | now right].
  intros st0 y Hy _. destruct (Hbody st0 y Hy) as [(st' & E) | E];
    [left; now exists st' | now right].
Qed.

(** The same when the rounds may raise any exception: the loop does not
    return. *)
Lemma for_each_stops {S X : Type} (body : S -> X -> M S)
    (l : list X) (w : World) (x : X) :
  (forall st y, In y l ->
                (exists st', body st y w = Returns st' w)
                \/ exists e, body st y w = Raises e w) ->
  In x l -> (forall st, exists e, body st x w = Raises e w) ->
  forall st, exists e, for_each body l st w = Raises e w.
Proof.
  induction l as [|y l IH]; intros Hbody Hx Hr st; [destruct Hx |].
  cbn [for_each]. unfold bind.
  destruct Hx as [-> | Hx].
  { destruct (Hr st) as (e & E). exists e. now rewrite E. }
  destruct (Hbody st y) as [(st' & E) | (e & E)];
    [now left | | exists e; now rewrite E].
  rewrite E. apply IH; auto. intros st0 z Hz. apply Hbody. now right.
Qed.

Lemma for_each_returns_or_stops {S X : Type} (body : S -> X -> M S)
    (l : list X) (w : World) :
  (forall st y, In y l ->
                (exists st', body st y w = Returns st' w)
                \/ exists e, body st y w = Raises e w) ->
  forall st, (exists st', for_each body l st w = Returns st' w)
             \/ exists e, for_each body l st w = Raises e w.
Proof.
  induction l as [|y l IH]; intros Hbody st; [left; now exists st |].
  cbn [for_each]. unfold bind.
  destruct (Hbody st y) as [(st' & E) | (e & E)];
    [now left | | right; exists e; now rewrite E].
  rewrite E. apply IH. intros st0 z Hz. apply Hbody. now right.
Qed.

Lemma os_path_join_joined (a b : string) (w : World) :
  os_path_join (Some a) b w = Returns (joined a b) w.
Proof. reflexivity. Qed.

(** One file of the tree, whatever the standard output takes: the
    collector raises, or returns with what the file adds to the list. *)
Lemma collect_file_any (tree : Tree) (MAX_FILE_SIZE : Z) (ext root : string)
    (files : list string) (filename : string) (w : World) :
  (exists add,
      collect_file tree MAX_FILE_SIZE ext root files filename w
      = Returns (files ++ add) w
      /\ forall p, In p add <->
                   Str.endswith filename ext = true /\ p = joined root filename
                   /\ admitted tree MAX_FILE_SIZE w p)
  \/ exists e, collect_file tree MAX_FILE_SIZE ext root files filename w
               = Raises e w.
Proof.
  unfold collect_file.
  destruct (Str.endswith filename ext) eqn:En.
  - unfold bind. rewrite os_path_join_joined.
    unfold os_path_getsize.
    destruct (getsize tree (joined root filename)) as [n|] eqn:Hn;
      [| right; now exists OSError].
    unfold ret. destruct (Z.ltb_spec MAX_FILE_SIZE n) as [Lt | Le].
    + destruct (print_cases "⚠️ Skipped {} - too large ({} bytes > {})"
                  [VStr filename; VInt n; VInt MAX_FILE_SIZE] w) as [E | E];
        rewrite E; [left | right; now eexists].
      exists []. rewrite app_nil_r. split; [reflexivity |].
      intros p. split; [intros [] |].
      intros (_ & -> & (m & Hm & Le) & _). rewrite Hn in Hm. injection Hm as <-. lia.
    + unfold attempt, read_file.
      destruct (file_content w (joined root filename)) as [content|] eqn:R.
      * assert (A : forall p, In p [joined root filename] <->
                              true = true /\ p = joined root filename
                              /\ admitted tree MAX_FILE_SIZE w p).
        { intros p. split.
          - intros [<- | []]. split; [reflexivity |]. split; [reflexivity |].
            split; [now exists n | now rewrite R].
          - intros (_ & -> & _). now left. }
        destruct (print_cases "ℹ️ Collected: {} ({} bytes, {} chars)"
                    [VStr filename; VInt n; VInt (Z.of_nat (String.length content))] w)
          as [E | E]; rewrite E; unfold except_print; cbn [fst snd].
        -- left. now exists [joined root filename].
        -- unfold bind.
           destruct (print_cases "⚠️ Could not read {}: {}"
                       [VStr filename; VExn UnicodeEncodeError] w) as [E' | E'];
             rewrite E'; [left | right; now eexists].
           now exists [joined root filename].
      * unfold except_print; cbn [fst snd]. unfold bind.
        destruct (print_cases "⚠️ Could not read {}: {}"
                    [VStr filename; VExn OSError] w) as [E' | E'];
          rewrite E'; [left | right; now eexists].
        exists []. rewrite app_nil_r. split; [reflexivity |].
        intros p. split; [intros [] |].
        intros (_ & -> & _ & (c & Hc)). rewrite R in Hc. discriminate.
  - left. exists []. rewrite app_nil_r. split; [reflexivity |].
    intros p. split; [intros [] | intros (H & _); discriminate].
Qed.

(** The same file when its size can be read and the standard output
    takes the messages: the collector returns. *)
Lemma collect_file_sized (tree : Tree) (MAX_FILE_SIZE : Z) (ext root : string)
    (files : list string) (filename : string) (w : World) :
  stdout_ok w ->
  (Str.endswith filename ext = true ->
   is_Some (getsize tree (joined root filename))) ->
  exists add,
    collect_file tree MAX_FILE_SIZE ext root files filename w
    = Returns (files ++ add) w
    /\ forall p, In p add <->
                 Str.endswith filename ext = true /\ p = joined root filename
                 /\ admitted tree MAX_FILE_SIZE w p.
Proof.
  intros Ok Hs.
  destruct (collect_file_any tree MAX_FILE_SIZE ext root files filename w)
    as [H | (e & E)]; [exact H | exfalso].
  revert E. unfold collect_file.
  destruct (Str.endswith filename ext); [| discriminate].
  destruct (Hs eq_refl) as (n & Hn).
  unfold bind at 1. rewrite os_path_join_joined.
  unfold bind at 1. unfold os_path_getsize. rewrite Hn. unfold ret at 1.
  destruct (MAX_FILE_SIZE <? n)%Z.
  - unfold bind. now rewrite (print_ok _ _ _ Ok).
  - unfold bind, attempt, read_file.
    destruct (file_content w (joined root filename)).
    + now rewrite (print_ok _ _ _ Ok).
    + unfold except_print; cbn [fst snd]. unfold bind.
      now rewrite (print_ok _ _ _ Ok).
Qed.

Lemma collect_file_unsized (tree : Tree) (MAX_FILE_SIZE : Z) (ext root : string)
    (files : list string) (filename : string) (w : World) :
  Str.endswith filename ext = true ->
  getsize tree (joined root filename) = None ->
  collect_file tree MAX_FILE_SIZE ext root files filename w = Raises OSError w.
Proof.
  intros En Hn. unfold collect_file. rewrite En.
  unfold bind. rewrite os_path_join_joined. unfold os_path_getsize. now rewrite Hn.
Qed.

Lemma collect_file_returns_or_raises (tree : Tree) (MAX_FILE_SIZE : Z)
    (ext root : string) (files : list string) (filename : string) (w : World) :
  stdout_ok w ->
  (exists files', collect_file tree MAX_FILE_SIZE ext root files filename w
                  = Returns files' w)
  \/ collect_file tree MAX_FILE_SIZE ext root files filename w = Raises OSError w.
Proof.
  intros Ok.
  destruct (Str.endswith filename ext) eqn:En.
  - destruct (getsize tree (joined root filename)) as [n|] eqn:Hn.
    + destruct (collect_file_sized tree MAX_FILE_SIZE ext root files filename w Ok)
        as (add & E & _); [intros _; rewrite ?Hn; now eexists |].
      left. now exists (files ++ add).
    + right. now apply collect_file_unsized.
  - left. unfold collect_file. rewrite En. now eexists.
Qed.






Example collect_source_files_small :
  _collect_source_files small_tree 10000 small_disk
  = Returns ["app/Home.tsx"] small_disk.
Proof. reflexivity. Qed.

(** X21.  The size of a file is read outside the guarded block: when the
    tree lists a file with a source extension whose size cannot be read,
    the whole collection raises and returns no list, whatever the other
    files are; on a standard output that takes the messages the
    exception is the [OSError] of the size. *)
Theorem collect_source_files_unsized (tree : Tree) (MAX_FILE_SIZE : Z) (w : World)
    (ext p : string) :
  In ext extensions -> walked tree ext p -> getsize tree p = None ->
  (exists e, _collect_source_files tree MAX_FILE_SIZE w = Raises e w)
  /\ (stdout_ok w ->
      _collect_source_files tree MAX_FILE_SIZE w = Raises OSError w).
Proof.
  intros Hext (root & filenames & filename & Hentry & Hfile & En & ->) Hn.
  split.
  - assert (F : forall e0 r st y,
               (exists st', collect_file tree MAX_FILE_SIZE e0 r st y w = Returns st' w)
               \/ exists e, collect_file tree MAX_FILE_SIZE e0 r st y w = Raises e w).
    { intros e0 r st y.
      destruct (collect_file_any tree MAX_FILE_SIZE e0 r st y w) as [(add & E & _) | H];
        [left; now exists (st ++ add) | now right]. }
    assert (D : forall e0 st (entry : string * list string),
               (exists st', collect_directory tree MAX_FILE_SIZE e0 st entry w
                            = Returns st' w)
               \/ exists e, collect_directory tree MAX_FILE_SIZE e0 st entry w
                            = Raises e w).
    { intros e0 st [r fs]. apply for_each_returns_or_stops.
      intros st' y _. apply F. }
    assert (X : forall e0 st,
               (exists st', collect_extension tree MAX_FILE_SIZE st e0 w = Returns st' w)
               \/ exists e, collect_extension tree MAX_FILE_SIZE st e0 w = Raises e w).
    { intros e0 st. unfold collect_extension, bind.
      destruct (print_cases "ℹ️ Scanning for {} files" [VStr e0] w) as [E | E];
        rewrite E; [| right; now eexists].
      apply for_each_returns_or_stops. intros st' y _. apply D. }
    unfold _collect_source_files, bind.
    destruct (print_cases "🔄 Collecting frontend source files" [] w) as [E0 | E0];
      rewrite E0; [| now eexists].
    destruct (for_each_stops (collect_extension tree MAX_FILE_SIZE) extensions w ext)
      with (st := @nil string) as (e & E);
      [intros st y _; apply X | exact Hext | | exists e; now rewrite E].
    intros st. unfold collect_extension, bind.
    destruct (print_cases "ℹ️ Scanning for {} files" [VStr ext] w) as [E | E];
      rewrite E; [| now eexists].
    apply for_each_stops with (x := (root, filenames));
      [intros st' y _; apply D | exact Hentry |].
    intros st'. unfold collect_directory.
    apply for_each_stops with (x := filename);
      [intros st'' y _; apply F | exact Hfile |].
    intros st''. exists OSError. now apply collect_file_unsized.
  - intros Ok.
    assert (D : forall e st (entry : string * list string),
               (exists st', collect_directory tree MAX_FILE_SIZE e st entry w
                            = Returns st' w)
               \/ collect_directory tree MAX_FILE_SIZE e st entry w = Raises OSError w).
    { intros e st [r fs]. apply for_each_returns_or_raises.
      intros st' y _. now apply collect_file_returns_or_raises. }
    assert (X : forall e st,
               (exists st', collect_extension tree MAX_FILE_SIZE st e w = Returns st' w)
               \/ collect_extension tree MAX_FILE_SIZE st e w = Raises OSError w).
    { intros e st. unfold collect_extension, bind. rewrite (print_ok _ _ _ Ok).
      apply for_each_returns_or_raises. intros st' y _. apply D. }
    unfold _collect_source_files, bind. rewrite (print_ok _ _ _ Ok).
    rewrite (for_each_raises (collect_extension tree MAX_FILE_SIZE) OSError
               extensions w ext); [reflexivity | | exact Hext |].
    + intros st y _. apply X.
    + intros st. unfold collect_extension, bind. rewrite (print_ok _ _ _ Ok).
      apply for_each_raises with (x := (root, filenames));
        [intros st' y _; apply D | exact Hentry |].
      intros st'. unfold collect_directory.
      apply for_each_raises with (x := filename);
        [intros st'' y _; now apply collect_file_returns_or_raises | exact Hfile |].
      intros st''. now apply collect_file_unsized.
Qed.

Lemma collect_source_files_unsized_witness :
  _collect_source_files linked_tree 10000 small_disk = Raises OSError small_disk.
Proof.
  apply (collect_source_files_unsized linked_tree 10000 small_disk ".js" "app/gone.js").
  - simpl. tauto.
  - exists "app", ["Home.tsx"; "gone.js"], "gone.js".
    split; [now left |]. split; [simpl; tauto |]. split; reflexivity.
  - reflexivity.
  - intros format args. reflexivity.
Defined.


